(** * One Time Plex: the datastore package (server/datastore/store.go)

    A shallow embedding of the [Store] wrapper around the embedded
    key-value engine, and the properties of its persistent state layer;
    with the store of package main, an earlier version of the wrapper.

    Conventions of the embedding.
    - A Go [string] and a Go [[]byte] are both finite byte sequences; both
      are [string] here (a list of 8-bit characters), and the conversions
      [[]byte(s)] and [string(b)] are the identity.  A nil slice and an
      empty slice are both the empty sequence.
    - [append(prefix, id...)] is the concatenation of the two sequences,
      held in a slice of its own: the slice [s.keys.userPrefix] is taken
      to have no spare capacity, which the language leaves to the
      implementation.
    - A Go function returning [(T, error)] returns a pair [T * option Error],
      [None] being the nil error.
    - The package variable [isVerbose], what the package prints on standard
      output, the directories of the file system and the engine (its
      committed pairs, the transaction in progress, the calls made on it)
      form the [World]; every function of the package is a state
      transformer over it.
    - The engine (badger), [encoding/json] and the package's cipher are
      collaborators of the store; each is an interface ([Engine], [JSON],
      [Cipher]).  The calls on the engine handle [s.db] act on the engine
      of the [World]. *)

From stdpp Require Import gmap strings list.
From Stdlib Require Import String Ascii ZArith Lia.

Local Open Scope string_scope.

Abbreviation bytes := string (only parsing).

(** ** Errors *)

Inductive Error : Type :=
| ErrKeyNotFound                      (* badger.ErrKeyNotFound *)
| ErrReadOnlyTxn                      (* badger.ErrReadOnlyTxn *)
| EngineError (msg : string)          (* any other failure of the engine or of the OS *)
| ErrIDRequired                       (* fmt.Errorf("id is required") *)
| SyntaxError (msg : string)          (* json.SyntaxError *)
| UnmarshalTypeError (value : string) (* json.UnmarshalTypeError *)
| MarshalError (msg : string)         (* an error of json.Marshal *)
| EncryptionError (msg : string)
| DecryptionError (msg : string).

Definition Error_text (e : Error) : string :=
  match e with
  | ErrKeyNotFound => "Key not found"
  | ErrReadOnlyTxn => "No sets or deletes are allowed in a read-only transaction"
  | EngineError msg => msg
  | ErrIDRequired => "id is required"
  | SyntaxError msg => msg
  | UnmarshalTypeError v => "json: cannot unmarshal " ++ v
  | MarshalError msg => msg
  | EncryptionError msg => msg
  | DecryptionError msg => msg
  end.

(** ** Data model *)

Record AssignedMedia : Type := mkAssignedMedia {
  ID : string;
  Title : string;
  Status : string }.

Record User : Type := mkUser {
  PlexUserID : string;
  Name : string;
  Media : AssignedMedia;       (* the embedded AssignedMedia *)
  StoppingPlayback : bool;
  IsPlaybackStopped : bool;
  RevokeAccess : bool;
  IsFriend : bool }.

Record Server : Type := mkServer {
  Server_Name : string;
  Server_URL : string }.

Definition zeroAssignedMedia : AssignedMedia := mkAssignedMedia "" "" "".
Definition zeroUser : User := mkUser "" "" zeroAssignedMedia false false false false.
Definition zeroServer : Server := mkServer "" "".

Record StoreKeys : Type := mkStoreKeys {
  appSecret : bytes;
  plexToken : bytes;
  plexPin : bytes;
  plexServer : bytes;
  userPrefix : bytes;
  allUsers : bytes }.

Inductive DBRef : Type :=
| dbNil        (* the nil *badger.DB *)
| dbEngine.    (* the engine of the World *)

Record Store : Type := mkStore {
  db : DBRef;
  isClosed : bool;
  keys : StoreKeys;
  Secret : bytes }.

Definition zeroStoreKeys : StoreKeys := mkStoreKeys "" "" "" "" "" "".
Definition zeroStore : Store := mkStore dbNil false zeroStoreKeys "".

(** ** Bytes as numbers *)

Definition byte (c : ascii) : Z := Z.of_N (N_of_ascii c).

(** Go's conversion byte(x): the low eight bits. *)
Definition char (z : Z) : ascii := ascii_of_N (Z.to_N (Z.land z 255)).

Definition byteAt (s : string) (i : nat) : Z :=
  match String.get i s with
  | Some c => byte c
  | None => 0
  end.

Fixpoint sliceFrom (n : nat) (s : string) : string :=
  match n, s with
  | S k, String _ r => sliceFrom k r
  | _, _ => s
  end.

Fixpoint sliceTo (n : nat) (s : string) : string :=
  match n, s with
  | S k, String c r => String c (sliceTo k r)
  | _, _ => EmptyString
  end.

(** ** unicode/utf8 *)

Module utf8.
Local Open Scope Z_scope.

Definition RuneError : Z := 0xFFFD.
Definition RuneSelf : Z := 0x80.
Definition MaxRune : Z := 0x10FFFF.
Definition surrogateMin : Z := 0xD800.
Definition surrogateMax : Z := 0xDFFF.

Definition maskx : Z := 0x3F.
Definition mask2 : Z := 0x1F.
Definition mask3 : Z := 0x0F.
Definition mask4 : Z := 0x07.
Definition tx : Z := 0x80.
Definition t2 : Z := 0xC0.
Definition t3 : Z := 0xE0.
Definition t4 : Z := 0xF0.
Definition rune1Max : Z := 0x7F.
Definition rune2Max : Z := 0x7FF.
Definition rune3Max : Z := 0xFFFF.

Definition locb : Z := 0x80.
Definition hicb : Z := 0xBF.

(** The entries of the table [first]: the low three bits are the size of
    the sequence, the high four bits the index of its accept range. *)
Definition xx : Z := 0xF1.
Definition as_ : Z := 0xF0.
Definition s1 : Z := 0x02.
Definition s2 : Z := 0x13.
Definition s3 : Z := 0x03.
Definition s4 : Z := 0x23.
Definition s5 : Z := 0x34.
Definition s6 : Z := 0x04.
Definition s7 : Z := 0x44.

Definition first (b : Z) : Z :=
  if b <? 0x80 then as_
  else if b <? 0xC2 then xx
  else if b <? 0xE0 then s1
  else if b =? 0xE0 then s2
  else if b <? 0xED then s3
  else if b =? 0xED then s4
  else if b <? 0xF0 then s3
  else if b =? 0xF0 then s5
  else if b <? 0xF4 then s6
  else if b =? 0xF4 then s7
  else xx.

Definition acceptRanges (i : Z) : Z * Z :=
  if i =? 0 then (locb, hicb)
  else if i =? 1 then (0xA0, hicb)
  else if i =? 2 then (locb, 0x9F)
  else if i =? 3 then (0x90, hicb)
  else if i =? 4 then (locb, 0x8F)
  else (0, 0).

(** The runes of the sequences of two, three and four bytes. *)
Definition dec2 (s0 s1 : Z) : Z :=
  Z.lor (Z.shiftl (Z.land s0 mask2) 6) (Z.land s1 maskx).

Definition dec3 (s0 s1 s2 : Z) : Z :=
  Z.lor (Z.lor (Z.shiftl (Z.land s0 mask3) 12) (Z.shiftl (Z.land s1 maskx) 6))
        (Z.land s2 maskx).

Definition dec4 (s0 s1 s2 s3 : Z) : Z :=
  Z.lor (Z.lor (Z.lor (Z.shiftl (Z.land s0 mask4) 18) (Z.shiftl (Z.land s1 maskx) 12))
               (Z.shiftl (Z.land s2 maskx) 6))
        (Z.land s3 maskx).

(** The body of DecodeRuneInString, on the length [n] of the string and its
    bytes s[0], s[1], s[2], s[3]; a byte beyond the end of the string is
    never looked at. *)
Definition decodeRune (n : nat) (s0 s1 s2 s3 : Z) : Z * nat :=
  let x := first s0 in
  if as_ <=? x then ((if x =? xx then RuneError else s0), 1%nat)
  else
    let sz := Z.to_nat (Z.land x 7) in
    let accept := acceptRanges (Z.shiftr x 4) in
    if (n <? sz)%nat then (RuneError, 1%nat)
    else
      if (s1 <? fst accept) || (snd accept <? s1) then (RuneError, 1%nat)
      else if (sz <=? 2)%nat then (dec2 s0 s1, 2%nat)
      else
        if (s2 <? locb) || (hicb <? s2) then (RuneError, 1%nat)
        else if (sz <=? 3)%nat then (dec3 s0 s1 s2, 3%nat)
        else
          if (s3 <? locb) || (hicb <? s3) then (RuneError, 1%nat)
          else (dec4 s0 s1 s2 s3, 4%nat).

(** DecodeRuneInString: the first rune of [s] and its width in bytes;
    (RuneError, 1) on an invalid encoding. *)
Definition DecodeRuneInString (s : string) : Z * nat :=
  let n := String.length s in
  if (n <? 1)%nat then (RuneError, 0%nat)
  else decodeRune n (byteAt s 0) (byteAt s 1) (byteAt s 2) (byteAt s 3).

(** EncodeRune: the UTF-8 encoding of the rune. *)
Definition EncodeRune (r : Z) : string :=
  if r <=? rune1Max then String (char r) EmptyString
  else if r <=? rune2Max then
    String (char (Z.lor t2 (Z.shiftr r 6)))
      (String (char (Z.lor tx (Z.land r maskx))) EmptyString)
  else
    let r := if (MaxRune <? r) || ((surrogateMin <=? r) && (r <=? surrogateMax))
             then RuneError else r in
    if r <=? rune3Max then
      String (char (Z.lor t3 (Z.shiftr r 12)))
        (String (char (Z.lor tx (Z.land (Z.shiftr r 6) maskx)))
           (String (char (Z.lor tx (Z.land r maskx))) EmptyString))
    else
      String (char (Z.lor t4 (Z.shiftr r 18)))
        (String (char (Z.lor tx (Z.land (Z.shiftr r 12) maskx)))
           (String (char (Z.lor tx (Z.land (Z.shiftr r 6) maskx)))
              (String (char (Z.lor tx (Z.land r maskx))) EmptyString))).

(** ValidString: [s] consists of valid UTF-8 encodings only. *)
Fixpoint ValidString_loop (fuel : nat) (s : string) : bool :=
  match fuel with
  | O => true
  | S fuel' =>
      match s with
      | EmptyString => true
      | String _ _ =>
          let '(r, size) := DecodeRuneInString s in
          if (r =? RuneError) && (size =? 1)%nat then false
          else ValidString_loop fuel' (sliceFrom size s)
      end
  end.

Definition ValidString (s : string) : bool := ValidString_loop (String.length s) s.

(** The byte sequences of two, three and four bytes that encode a rune. *)
Definition seq2 (s0 s1 : Z) : Prop :=
  0xC2 <= s0 <= 0xDF /\ 0x80 <= s1 <= 0xBF.

Definition seq3 (s0 s1 s2 : Z) : Prop :=
  0xE0 <= s0 <= 0xEF /\ 0x80 <= s1 <= 0xBF /\ 0x80 <= s2 <= 0xBF /\
  (s0 = 0xE0 -> 0xA0 <= s1) /\ (s0 = 0xED -> s1 <= 0x9F).

Definition seq4 (s0 s1 s2 s3 : Z) : Prop :=
  0xF0 <= s0 <= 0xF4 /\ 0x80 <= s1 <= 0xBF /\ 0x80 <= s2 <= 0xBF /\ 0x80 <= s3 <= 0xBF /\
  (s0 = 0xF0 -> 0x90 <= s1) /\ (s0 = 0xF4 -> s1 <= 0x8F).

End utf8.


(** ** encoding/json: Marshal *)

Module json.
Local Open Scope Z_scope.

Definition quote : ascii := "034"%char.
Definition backslash : ascii := "\"%char.

Definition hex : string := "0123456789abcdef".

Definition hexDigit (z : Z) : ascii :=
  match String.get (Z.to_nat z) hex with
  | Some c => c
  | None => "0"%char
  end.

(** htmlSafeSet: the ASCII bytes that are written as they are. *)
Definition htmlSafeSet (b : Z) : bool :=
  (0x20 <=? b) && (b <? 0x80) &&
  negb ((b =? byte quote) || (b =? byte backslash) ||
        (b =? byte "<") || (b =? byte ">") || (b =? byte "&")).

(** What the switch of encodeState.string writes for an ASCII byte: the
    byte itself, a two-character escape, or \u00XX. *)
Definition asciiPiece (c : ascii) : string :=
  let b := byte c in
  if htmlSafeSet b then String c EmptyString
  else if (b =? byte backslash) || (b =? byte quote) then
    String backslash (String c EmptyString)
  else if b =? 10 then String backslash "n"
  else if b =? 13 then String backslash "r"
  else if b =? 9 then String backslash "t"
  else
    String backslash
      ("u00" ++ String (hexDigit (Z.shiftr b 4))
                  (String (hexDigit (Z.land b 0xF)) EmptyString)).

(** The loop of encodeState.string with escapeHTML set: what is written
    for the bytes of [s], between the two quotes. *)
Fixpoint string_loop (fuel : nat) (s : string) : string :=
  match fuel with
  | O => EmptyString
  | S fuel' =>
      match s with
      | EmptyString => EmptyString
      | String c rest =>
          let b := byte c in
          if b <? utf8.RuneSelf then
            asciiPiece c ++ string_loop fuel' rest
          else
            let '(r, size) := utf8.DecodeRuneInString s in
            if (r =? utf8.RuneError) && (size =? 1)%nat then
              String backslash "ufffd" ++ string_loop fuel' (sliceFrom size s)
            else if (r =? 0x2028) || (r =? 0x2029) then
              String backslash ("u202" ++ String (hexDigit (Z.land r 0xF)) EmptyString)
              ++ string_loop fuel' (sliceFrom size s)
            else
              sliceTo size s ++ string_loop fuel' (sliceFrom size s)
      end
  end.

(** encodeState.string: a JSON string literal. *)
Definition encodeString (s : string) : string :=
  String quote (string_loop (String.length s) s ++ String quote EmptyString).

Definition encodeBool (b : bool) : string := if b then "true" else "false".

(** The name of a field, quoted, and its colon. *)

Definition fieldName (name : string) : string :=
  String quote (name ++ String quote ":").

(** A field name that encodeState.string writes as it is. *)
Definition plainName (name : string) : bool :=
  utf8.ValidString name && String.eqb (string_loop (String.length name) name) name.


(** *** Unmarshal: the syntax of JSON *)

#[local] Set Warnings "-register-all".

Inductive value : Type :=
| JNull
| JBool (b : bool)
| JNumber
| JString (s : string)
| JArray (elems : list value)
| JObject (members : list (string * value)).

Definition isSpace (b : Z) : bool :=
  (b =? 32) || (b =? 9) || (b =? 13) || (b =? 10).

Fixpoint skipSpace (s : string) : string :=
  match s with
  | String c r => if isSpace (byte c) then skipSpace r else s
  | EmptyString => s
  end.

Definition isDigit (b : Z) : bool := (byte "0" <=? b) && (b <=? byte "9").

(** The value of a hexadecimal digit, or -1. *)
Definition hexValue (b : Z) : Z :=
  if (byte "0" <=? b) && (b <=? byte "9") then b - byte "0"
  else if (byte "a" <=? b) && (b <=? byte "f") then b - byte "a" + 10
  else if (byte "A" <=? b) && (b <=? byte "F") then b - byte "A" + 10
  else -1.

(** getu4: the rune of the escape \uXXXX that [s] begins with, or -1. *)
Definition getu4 (s : string) : Z :=
  match s with
  | String b0 (String b1 (String h1 (String h2 (String h3 (String h4 _))))) =>
      if negb (byte b0 =? byte backslash) || negb (byte b1 =? byte "u") then -1
      else
        let d1 := hexValue (byte h1) in
        let d2 := hexValue (byte h2) in
        let d3 := hexValue (byte h3) in
        let d4 := hexValue (byte h4) in
        if (d1 <? 0) || (d2 <? 0) || (d3 <? 0) || (d4 <? 0) then -1
        else ((d1 * 16 + d2) * 16 + d3) * 16 + d4
  | _ => -1
  end.

(** unicode/utf16 *)
Definition utf16_IsSurrogate (r : Z) : bool := (0xD800 <=? r) && (r <? 0xE000).

Definition utf16_DecodeRune (r1 r2 : Z) : Z :=
  if (0xD800 <=? r1) && (r1 <? 0xDC00) && (0xDC00 <=? r2) && (r2 <? 0xE000)
  then Z.lor (Z.shiftl (r1 - 0xD800) 10) (r2 - 0xDC00) + 0x10000
  else 0xFFFD.

(** The bytes of a string literal, from after its opening quote to its
    closing quote, unquoted as unquoteBytes does; with what follows the
    closing quote.  [None] where the scanner reports a syntax error. *)
Fixpoint unquote_loop (fuel : nat) (s : string) : option (string * string) :=
  match fuel with
  | O => None
  | S fuel' =>
      let emit (piece : string) (rest : string) :=
        match unquote_loop fuel' rest with
        | Some (d, r) => Some (piece ++ d, r)
        | None => None
        end in
      match s with
      | EmptyString => None
      | String c rest =>
          let b := byte c in
          if b =? byte quote then Some (EmptyString, rest)
          else if b =? byte backslash then
            match rest with
            | EmptyString => None
            | String e rest' =>
                let eb := byte e in
                if (eb =? byte quote) || (eb =? byte backslash) || (eb =? byte "/")
                then emit (String e EmptyString) rest'
                else if eb =? byte "b" then emit (String (char 8) EmptyString) rest'
                else if eb =? byte "f" then emit (String (char 12) EmptyString) rest'
                else if eb =? byte "n" then emit (String (char 10) EmptyString) rest'
                else if eb =? byte "r" then emit (String (char 13) EmptyString) rest'
                else if eb =? byte "t" then emit (String (char 9) EmptyString) rest'
                else if eb =? byte "u" then
                  let rr := getu4 s in
                  if rr <? 0 then None
                  else
                    let after := sliceFrom 6 s in
                    if utf16_IsSurrogate rr then
                      let dec := utf16_DecodeRune rr (getu4 after) in
                      if negb (dec =? 0xFFFD) then emit (utf8.EncodeRune dec) (sliceFrom 6 after)
                      else emit (utf8.EncodeRune 0xFFFD) after
                    else emit (utf8.EncodeRune rr) after
                else None
            end
          else if b <? 32 then None
          else if b <? utf8.RuneSelf then emit (String c EmptyString) rest
          else
            let '(rr, size) := utf8.DecodeRuneInString s in
            emit (utf8.EncodeRune rr) (sliceFrom size s)
      end
  end.

Definition unquote (s : string) : option (string * string) :=
  unquote_loop (String.length s) s.

Fixpoint skipDigits (s : string) : string :=
  match s with
  | String c r => if isDigit (byte c) then skipDigits r else s
  | EmptyString => s
  end.

(** A number literal: what follows it, or [None]. *)
Definition scanExponent (s : string) : option string :=
  match s with
  | String e r =>
      if (byte e =? byte "e") || (byte e =? byte "E") then
        let r' := match r with
                  | String sign r1 =>
                      if (byte sign =? byte "+") || (byte sign =? byte "-") then r1 else r
                  | EmptyString => r
                  end in
        match r' with
        | String d r2 => if isDigit (byte d) then Some (skipDigits r2) else None
        | EmptyString => None
        end
      else Some s
  | EmptyString => Some s
  end.

Definition scanFraction (s : string) : option string :=
  match s with
  | String dot r =>
      if byte dot =? byte "." then
        match r with
        | String d r1 => if isDigit (byte d) then scanExponent (skipDigits r1) else None
        | EmptyString => None
        end
      else scanExponent s
  | EmptyString => Some s
  end.

Definition scanNumber (s : string) : option string :=
  let s' := match s with
            | String c r => if byte c =? byte "-" then r else s
            | EmptyString => s
            end in
  match s' with
  | String c r =>
      if byte c =? byte "0" then scanFraction r
      else if isDigit (byte c) then scanFraction (skipDigits r)
      else None
  | EmptyString => None
  end.

(** [s] without the prefix [lit], when it begins with it. *)
Fixpoint stripPrefix (lit s : string) : option string :=
  match lit with
  | EmptyString => Some s
  | String c lit' =>
      match s with
      | String d s' => if Ascii.eqb c d then stripPrefix lit' s' else None
      | EmptyString => None
      end
  end.

Fixpoint parseValue (fuel : nat) (s : string) : option (value * string) :=
  match fuel with
  | O => None
  | S fuel' =>
      match skipSpace s with
      | EmptyString => None
      | String c rest =>
          let b := byte c in
          if b =? byte "{" then
            match skipSpace rest with
            | EmptyString => None
            | String c' rest' =>
                if byte c' =? byte "}" then Some (JObject [], rest')
                else
                  match parseMembers fuel' rest with
                  | Some (ms, r) => Some (JObject ms, r)
                  | None => None
                  end
            end
          else if b =? byte "[" then
            match skipSpace rest with
            | EmptyString => None
            | String c' rest' =>
                if byte c' =? byte "]" then Some (JArray [], rest')
                else
                  match parseElements fuel' rest with
                  | Some (vs, r) => Some (JArray vs, r)
                  | None => None
                  end
            end
          else if b =? byte quote then
            match unquote rest with
            | Some (str, r) => Some (JString str, r)
            | None => None
            end
          else if b =? byte "t" then
            match stripPrefix "rue" rest with
            | Some r => Some (JBool true, r)
            | None => None
            end
          else if b =? byte "f" then
            match stripPrefix "alse" rest with
            | Some r => Some (JBool false, r)
            | None => None
            end
          else if b =? byte "n" then
            match stripPrefix "ull" rest with
            | Some r => Some (JNull, r)
            | None => None
            end
          else if (b =? byte "-") || isDigit b then
            match scanNumber (String c rest) with
            | Some r => Some (JNumber, r)
            | None => None
            end
          else None
      end
  end
with parseMembers (fuel : nat) (s : string) : option (list (string * value) * string) :=
  match fuel with
  | O => None
  | S fuel' =>
      match skipSpace s with
      | EmptyString => None
      | String q rest =>
          if byte q =? byte quote then
            match unquote rest with
            | None => None
            | Some (key, r1) =>
                match skipSpace r1 with
                | EmptyString => None
                | String colon r2 =>
                    if byte colon =? byte ":" then
                      match parseValue fuel' r2 with
                      | None => None
                      | Some (v, r3) =>
                          match skipSpace r3 with
                          | EmptyString => None
                          | String sep r4 =>
                              if byte sep =? byte "," then
                                match parseMembers fuel' r4 with
                                | Some (ms, r5) => Some ((key, v) :: ms, r5)
                                | None => None
                                end
                              else if byte sep =? byte "}" then Some ([(key, v)], r4)
                              else None
                          end
                      end
                    else None
                end
            end
          else None
      end
  end
with parseElements (fuel : nat) (s : string) : option (list value * string) :=
  match fuel with
  | O => None
  | S fuel' =>
      match parseValue fuel' s with
      | None => None
      | Some (v, r1) =>
          match skipSpace r1 with
          | EmptyString => None
          | String sep r2 =>
              if byte sep =? byte "," then
                match parseElements fuel' r2 with
                | Some (vs, r3) => Some (v :: vs, r3)
                | None => None
                end
              else if byte sep =? byte "]" then Some ([v], r2)
              else None
          end
      end
  end.

(** checkValid and the scan of the whole input: one value, with white
    space around it. *)
Definition parse (data : string) : option value :=
  match parseValue (S (String.length data)) data with
  | Some (v, rest) =>
      match skipSpace rest with
      | EmptyString => Some v
      | String _ _ => None
      end
  | None => None
  end.

End json.


(** ** encoding/json at the types of the package *)

Module gojson.
Import json.
Local Open Scope Z_scope.

(** *** Marshal *)

Definition marshalAssignedMedia (m : AssignedMedia) : string :=
  "{" ++ fieldName "id" ++ encodeString (ID m) ++
  "," ++ fieldName "title" ++ encodeString (Title m) ++
  "," ++ fieldName "status" ++ encodeString (Status m) ++ "}".

Definition marshalUser (u : User) : string :=
  "{" ++ fieldName "plexUserID" ++ encodeString (PlexUserID u) ++
  "," ++ fieldName "plexUsername" ++ encodeString (Name u) ++
  "," ++ fieldName "assignedMedia" ++ marshalAssignedMedia (Media u) ++
  "," ++ fieldName "stoppingPlayback" ++ encodeBool (StoppingPlayback u) ++
  "," ++ fieldName "playbackIsStopped" ++ encodeBool (IsPlaybackStopped u) ++
  "," ++ fieldName "revokeAccess" ++ encodeBool (RevokeAccess u) ++
  "," ++ fieldName "isFriend" ++ encodeBool (IsFriend u) ++ "}".

Definition marshalServer (s : Server) : string :=
  "{" ++ fieldName "name" ++ encodeString (Server_Name s) ++
  "," ++ fieldName "url" ++ encodeString (Server_URL s) ++ "}".

(** *** Unmarshal: storing a value into a variable *)

Definition typeName (v : value) : string :=
  match v with
  | JNull => "null"
  | JBool _ => "bool"
  | JNumber => "number"
  | JString _ => "string"
  | JArray _ => "array"
  | JObject _ => "object"
  end.

(** saveError: the first error is kept, decoding goes on. *)
Definition saveError (saved : option Error) (e : Error) : option Error :=
  match saved with
  | Some _ => saved
  | None => Some e
  end.

Definition storeString (v : value) (old : string) (saved : option Error)
  : string * option Error :=
  match v with
  | JString s => (s, saved)
  | JNull => (old, saved)
  | _ => (old, saveError saved (UnmarshalTypeError (typeName v)))
  end.

Definition storeBool (v : value) (old : bool) (saved : option Error)
  : bool * option Error :=
  match v with
  | JBool b => (b, saved)
  | JNull => (old, saved)
  | _ => (old, saveError saved (UnmarshalTypeError (typeName v)))
  end.

(** The upper-case letter of an ASCII letter; any other byte as it is. *)
Definition upper (b : Z) : Z :=
  if (byte "a" <=? b) && (b <=? byte "z") then b - 32 else b.

(** The field name [name], made of ASCII letters, matches [key] up to
    case; the long s (U+017F) matches s and the Kelvin sign (U+212A)
    matches k. *)
Fixpoint equalFold (name key : string) : bool :=
  match name with
  | EmptyString =>
      match key with
      | EmptyString => true
      | String _ _ => false
      end
  | String sb name' =>
      match key with
      | EmptyString => false
      | String tb key' =>
          if byte tb <? utf8.RuneSelf then
            (upper (byte sb) =? upper (byte tb)) && equalFold name' key'
          else
            let '(tr, size) := utf8.DecodeRuneInString key in
            if upper (byte sb) =? byte "S" then (tr =? 0x17F) && equalFold name' (sliceFrom size key)
            else if upper (byte sb) =? byte "K" then (tr =? 0x212A) && equalFold name' (sliceFrom size key)
            else false
      end
  end.

(** The field that the key of an object member designates: the field of
    that name, or else the first field whose name matches up to case. *)
Definition findField {F : Type} (fields : list (string * F)) (key : string) : option F :=
  match List.find (fun nf => String.eqb (fst nf) key) fields with
  | Some (_, f) => Some f
  | None =>
      match List.find (fun nf => equalFold (fst nf) key) fields with
      | Some (_, f) => Some f
      | None => None
      end
  end.

Inductive MediaField : Type := FID | FTitle | FStatus.

Definition mediaFields : list (string * MediaField) :=
  [("id", FID); ("title", FTitle); ("status", FStatus)].

Definition storeMediaMember (st : AssignedMedia * option Error) (member : string * value)
  : AssignedMedia * option Error :=
  let '(m, saved) := st in
  let '(key, v) := member in
  match findField mediaFields key with
  | Some FID => let '(x, e) := storeString v (ID m) saved in (mkAssignedMedia x (Title m) (Status m), e)
  | Some FTitle => let '(x, e) := storeString v (Title m) saved in (mkAssignedMedia (ID m) x (Status m), e)
  | Some FStatus => let '(x, e) := storeString v (Status m) saved in (mkAssignedMedia (ID m) (Title m) x, e)
  | None => (m, saved)
  end.

Definition storeMedia (v : value) (old : AssignedMedia) (saved : option Error)
  : AssignedMedia * option Error :=
  match v with
  | JObject members => fold_left storeMediaMember members (old, saved)
  | JNull => (old, saved)
  | _ => (old, saveError saved (UnmarshalTypeError (typeName v)))
  end.

Inductive UserField : Type :=
| FPlexUserID | FName | FAssignedMedia | FStoppingPlayback | FIsPlaybackStopped
| FRevokeAccess | FIsFriend.

Definition userFields : list (string * UserField) :=
  [("plexUserID", FPlexUserID); ("plexUsername", FName); ("assignedMedia", FAssignedMedia);
   ("stoppingPlayback", FStoppingPlayback); ("playbackIsStopped", FIsPlaybackStopped);
   ("revokeAccess", FRevokeAccess); ("isFriend", FIsFriend)].

Definition storeUserMember (st : User * option Error) (member : string * value)
  : User * option Error :=
  let '(u, saved) := st in
  let '(key, v) := member in
  match findField userFields key with
  | Some FPlexUserID =>
      let '(x, e) := storeString v (PlexUserID u) saved in
      (mkUser x (Name u) (Media u) (StoppingPlayback u) (IsPlaybackStopped u)
              (RevokeAccess u) (IsFriend u), e)
  | Some FName =>
      let '(x, e) := storeString v (Name u) saved in
      (mkUser (PlexUserID u) x (Media u) (StoppingPlayback u) (IsPlaybackStopped u)
              (RevokeAccess u) (IsFriend u), e)
  | Some FAssignedMedia =>
      let '(x, e) := storeMedia v (Media u) saved in
      (mkUser (PlexUserID u) (Name u) x (StoppingPlayback u) (IsPlaybackStopped u)
              (RevokeAccess u) (IsFriend u), e)
  | Some FStoppingPlayback =>
      let '(x, e) := storeBool v (StoppingPlayback u) saved in
      (mkUser (PlexUserID u) (Name u) (Media u) x (IsPlaybackStopped u)
              (RevokeAccess u) (IsFriend u), e)
  | Some FIsPlaybackStopped =>
      let '(x, e) := storeBool v (IsPlaybackStopped u) saved in
      (mkUser (PlexUserID u) (Name u) (Media u) (StoppingPlayback u) x
              (RevokeAccess u) (IsFriend u), e)
  | Some FRevokeAccess =>
      let '(x, e) := storeBool v (RevokeAccess u) saved in
      (mkUser (PlexUserID u) (Name u) (Media u) (StoppingPlayback u) (IsPlaybackStopped u)
              x (IsFriend u), e)
  | Some FIsFriend =>
      let '(x, e) := storeBool v (IsFriend u) saved in
      (mkUser (PlexUserID u) (Name u) (Media u) (StoppingPlayback u) (IsPlaybackStopped u)
              (RevokeAccess u) x, e)
  | None => (u, saved)
  end.

Definition storeUser (v : value) (old : User) (saved : option Error)
  : User * option Error :=
  match v with
  | JObject members => fold_left storeUserMember members (old, saved)
  | JNull => (old, saved)
  | _ => (old, saveError saved (UnmarshalTypeError (typeName v)))
  end.

Inductive ServerField : Type := FServerName | FServerURL.

Definition serverFields : list (string * ServerField) :=
  [("name", FServerName); ("url", FServerURL)].

Definition storeServerMember (st : Server * option Error) (member : string * value)
  : Server * option Error :=
  let '(s, saved) := st in
  let '(key, v) := member in
  match findField serverFields key with
  | Some FServerName =>
      let '(x, e) := storeString v (Server_Name s) saved in (mkServer x (Server_URL s), e)
  | Some FServerURL =>
      let '(x, e) := storeString v (Server_URL s) saved in (mkServer (Server_Name s) x, e)
  | None => (s, saved)
  end.

Definition storeServer (v : value) (old : Server) (saved : option Error)
  : Server * option Error :=
  match v with
  | JObject members => fold_left storeServerMember members (old, saved)
  | JNull => (old, saved)
  | _ => (old, saveError saved (UnmarshalTypeError (typeName v)))
  end.

(** json.Unmarshal(data, &u) on a zero [u]: a syntax error leaves [u]
    untouched; otherwise the value is stored, and the first type error met
    is returned. *)
Definition unmarshalUser (data : string) : User * option Error :=
  match parse data with
  | None => (zeroUser, Some (SyntaxError "invalid JSON input"))
  | Some v => storeUser v zeroUser None
  end.

Definition unmarshalServer (data : string) : Server * option Error :=
  match parse data with
  | None => (zeroServer, Some (SyntaxError "invalid JSON input"))
  | Some v => storeServer v zeroServer None
  end.

(** The strings of a value are valid UTF-8. *)
Definition validMedia (m : AssignedMedia) : Prop :=
  utf8.ValidString (ID m) = true /\ utf8.ValidString (Title m) = true /\
  utf8.ValidString (Status m) = true.

Definition validUser (u : User) : Prop :=
  utf8.ValidString (PlexUserID u) = true /\ utf8.ValidString (Name u) = true /\
  validMedia (Media u).

Definition validServer (s : Server) : Prop :=
  utf8.ValidString (Server_Name s) = true /\ utf8.ValidString (Server_URL s) = true.

End gojson.

(** ** The engine: an ordered key-value store with transactions *)

(** The committed pairs, in ascending key order (byte-wise comparison). *)
Abbreviation KV := (list (string * string)) (only parsing).

Fixpoint kv_get (k : bytes) (l : KV) : option bytes :=
  match l with
  | [] => None
  | (k', v') :: r => if String.eqb k k' then Some v' else kv_get k r
  end.

Fixpoint kv_set (k v : bytes) (l : KV) : KV :=
  match l with
  | [] => [(k, v)]
  | (k', v') :: r =>
      match String.compare k k' with
      | Lt => (k, v) :: l
      | Eq => (k, v) :: r
      | Gt => (k', v') :: kv_set k v r
      end
  end.

Fixpoint kv_delete (k : bytes) (l : KV) : KV :=
  match l with
  | [] => []
  | (k', v') :: r => if String.eqb k k' then kv_delete k r else (k', v') :: kv_delete k r
  end.

(** A pending write of a transaction: a value to set, or a deletion. *)
Record Entry : Type := mkEntry {
  eKey : bytes;
  eValue : option bytes }.

Definition apply_entry (l : KV) (e : Entry) : KV :=
  match eValue e with
  | Some v => kv_set (eKey e) v l
  | None => kv_delete (eKey e) l
  end.

Definition apply_entries (es : list Entry) (l : KV) : KV :=
  fold_left apply_entry es l.

(** The calls made on the engine handle. *)
Inductive Call : Type :=
| CallView
| CallUpdate (committed : bool)
| CallClose.

Record World : Type := mkWorld {
  isVerbose : bool;          (* var isVerbose bool *)
  stdout : list string;      (* the lines printed so far *)
  dirs : gset string;        (* the directories that exist *)
  disk : KV;                 (* the committed pairs of the engine *)
  txnUpdate : bool;          (* the transaction in progress is read-write *)
  pending : list Entry;      (* its pending writes, oldest first *)
  calls : list Call }.

(** What the program does not decide: the writes and commits the engine
    refuses, and the failures of Close, Mkdir and Open. *)
Class Engine : Type := {
  rejectWrite : list Entry -> Entry -> option Error;
  rejectCommit : list Entry -> option Error;
  closeError : list Call -> option Error;
  mkdirError : string -> option Error;
  openError : string -> option Error }.

(** ** The state monad of the package *)

Definition M (A : Type) : Type := World -> A * World.

Definition ret {A : Type} (a : A) : M A := fun w => (a, w).

Definition bind {A B : Type} (m : M A) (k : A -> M B) : M B :=
  fun w => let (a, w') := m w in k a w'.

Notation "x <- c ;; k" := (bind c (fun x => k))
  (at level 100, c at next level, right associativity).
Notation "c ;;; k" := (bind c (fun _ => k))
  (at level 100, right associativity).

Definition getVerbose : M bool := fun w => (isVerbose w, w).

Definition setVerbose (b : bool) : M unit := fun w =>
  (tt, mkWorld b (stdout w) (dirs w) (disk w) (txnUpdate w) (pending w) (calls w)).

(** fmt.Println and fmt.Printf: one more line on standard output. *)
Definition println (line : string) : M unit := fun w =>
  (tt, mkWorld (isVerbose w) (stdout w ++ [line])%list (dirs w) (disk w)
               (txnUpdate w) (pending w) (calls w)).

Definition when (b : bool) (m : M unit) : M unit := if b then m else ret tt.

Definition whenVerbose (m : M unit) : M unit := v <- getVerbose ;; when v m.

(** ** Transactions *)

Definition set_txn (upd : bool) (es : list Entry) (w : World) : World :=
  mkWorld (isVerbose w) (stdout w) (dirs w) (disk w) upd es (calls w).

Definition finish (c : Call) (d : KV) (w : World) : World :=
  mkWorld (isVerbose w) (stdout w) (dirs w) d false [] (calls w ++ [c])%list.

Section Transactions.
Context {engine : Engine}.

(** db.View(fn): a read-only transaction, discarded when fn returns.  The
    closure yields the final values of the variables it captured together
    with its error. *)
Definition db_View {A : Type} (fn : M (A * option Error)) : M (A * option Error) :=
  fun w =>
    let (r, w') := fn (set_txn false [] w) in
    (r, finish CallView (disk w') w').

(** db.Update(fn): a read-write transaction, committed when fn returns nil
    and discarded otherwise. *)
Definition db_Update (fn : M (option Error)) : M (option Error) :=
  fun w =>
    let (err, w') := fn (set_txn true [] w) in
    match err with
    | Some e => (Some e, finish (CallUpdate false) (disk w') w')
    | None =>
        match rejectCommit (pending w') with
        | Some e => (Some e, finish (CallUpdate false) (disk w') w')
        | None => (None, finish (CallUpdate true) (apply_entries (pending w') (disk w')) w')
        end
    end.

(** What the transaction in progress sees. *)
Definition txn_view (w : World) : KV := apply_entries (pending w) (disk w).

(** txn.Get(key): the item, or ErrKeyNotFound. *)
Definition txn_Get (key : bytes) : M (bytes * option Error) :=
  fun w =>
    match kv_get key (txn_view w) with
    | Some v => ((v, None), w)
    | None => (("", Some ErrKeyNotFound), w)
    end.

(** item.Value() *)
Definition item_Value (item : bytes) : bytes * option Error := (item, None).

Definition txn_write (e : Entry) : M (option Error) :=
  fun w =>
    if txnUpdate w then
      match rejectWrite (pending w) e with
      | Some err => (Some err, w)
      | None => (None, set_txn true (pending w ++ [e])%list w)
      end
    else (Some ErrReadOnlyTxn, w).

(** txn.Set(key, val, 0) *)
Definition txn_Set (key val : bytes) : M (option Error) :=
  txn_write (mkEntry key (Some val)).

(** txn.Delete(key) *)
Definition txn_Delete (key : bytes) : M (option Error) :=
  txn_write (mkEntry key None).

(** it.Seek(prefix) on a forward iterator: the items whose key is not
    below [prefix], in key order.  it.Valid() holds while an item is
    left, it.Item() is the first one, it.Next() drops it. *)
Fixpoint seek (prefix : bytes) (l : KV) : KV :=
  match l with
  | [] => []
  | (k, v) :: r => if String.ltb k prefix then seek prefix r else l
  end.

Definition it_Seek (prefix : bytes) : M KV :=
  fun w => (seek prefix (txn_view w), w).

(** db.Close() *)
Definition db_Close : M (option Error) :=
  fun w =>
    (closeError (calls w),
     mkWorld (isVerbose w) (stdout w) (dirs w) (disk w) (txnUpdate w) (pending w)
             (calls w ++ [CallClose])%list).

(** os.Stat(dirName) followed by os.IsNotExist(err) *)
Definition os_Stat_IsNotExist (dirName : string) : M bool :=
  fun w => (bool_decide (dirName ∉ dirs w), w).

(** os.Mkdir(dirName, os.ModePerm) *)
Definition os_Mkdir (dirName : string) : M (option Error) :=
  fun w =>
    match mkdirError dirName with
    | Some e => (Some e, w)
    | None =>
        (None, mkWorld (isVerbose w) (stdout w) ({[dirName]} ∪ dirs w) (disk w)
                       (txnUpdate w) (pending w) (calls w))
    end.

(** badger.Open(options), with options.Dir = options.ValueDir = dirName *)
Definition badger_Open (dirName : string) : M (DBRef * option Error) :=
  fun w =>
    match openError dirName with
    | Some e => ((dbNil, Some e), w)
    | None => ((dbEngine, None), w)
    end.

End Transactions.

(** ** encoding/json and the cipher *)

(** json.Marshal and json.Unmarshal at the types of the package.
    Unmarshal decodes into a zero value and returns it with the error. *)
Class JSON : Type := {
  marshalUser : User -> bytes * option Error;
  unmarshalUser : bytes -> User * option Error;
  marshalServer : Server -> bytes * option Error;
  unmarshalServer : bytes -> Server * option Error }.

(** The model of encoding/json given above. *)
Definition goJSON : JSON :=
  {| marshalUser := fun u => (gojson.marshalUser u, None);
     unmarshalUser := gojson.unmarshalUser;
     marshalServer := fun s => (gojson.marshalServer s, None);
     unmarshalServer := gojson.unmarshalServer |}.

(** plex.PinResponse, a type of the plex client library, with
    json.Marshal and json.Unmarshal at that type. *)
Class PlexPin : Type := {
  PinResponse : Type;
  zeroPin : PinResponse;
  marshalPin : PinResponse -> bytes * option Error;
  unmarshalPin : bytes -> PinResponse * option Error }.

(** Modelled from the spec: the package's [encrypt] and [decrypt], whose
    source file is not part of the sources at hand.  Section 4.2:
    encrypt(secret, plaintext) gives a ciphertext representation,
    decrypt(secret, representation) gives the plaintext; both fail on
    malformed input. *)
Class Cipher : Type := {
  encrypt : bytes -> string -> string * option Error;
  decrypt : bytes -> string -> string * option Error }.

(** Modelled from the spec: the contract of the cipher (sections 4.2 and 8).
    Decrypting with the secret that encrypted gives the plaintext back;
    decrypting with any other secret fails with a DecryptionError. *)
Class CipherLaws (C : Cipher) : Prop := {
  decrypt_encrypt : forall secret token hash,
    encrypt secret token = (hash, None) ->
    decrypt secret hash = (token, None);
  decrypt_other_secret : forall secret secret' token hash,
    encrypt secret token = (hash, None) ->
    secret' <> secret ->
    exists plain msg, decrypt secret' hash = (plain, Some (DecryptionError msg)) }.

(** ** The store *)

Section Store.
Context {engine : Engine} {json : JSON} {pins : PlexPin} {cipher : Cipher}.

(** Serialize converts user into json *)
Definition User_Serialize (u : User) : bytes * option Error := marshalUser u.

(** Serialize converts server info into json *)
Definition Server_Serialize (s : Server) : bytes * option Error := marshalServer s.

(** UnserializeServer converts json into Server *)
Definition UnserializeServer (serializedServer : bytes) : Server * option Error :=
  unmarshalServer serializedServer.

(** UnserializeUser converts json into User *)
Definition UnserializeUser (user : bytes) : User * option Error :=
  unmarshalUser user.

(** The keys set by InitDataStore. *)
Definition initKeys : StoreKeys :=
  {| appSecret := "app-secret";
     plexToken := "plex-token";
     plexPin := "plex-pin";
     plexServer := "plex-server";
     userPrefix := "user-";
     allUsers := "users" |}.

(** InitDataStore creates a datastore in the specified directory *)
Definition InitDataStore (dirName : string) (_isVerbose : bool) : M (Store * option Error) :=
  let db := zeroStore in
  v <- getVerbose ;;
  when v (setVerbose _isVerbose ;;;
          println ("checking if our datastore exists in the home directory at: " ++ dirName)) ;;;
  notExist <- os_Stat_IsNotExist dirName ;;
  mk <- (if notExist : bool then
           whenVerbose (println "creating directory because it doesn't exist") ;;;
           os_Mkdir dirName
         else
           whenVerbose (println "datastore exists") ;;;
           ret None) ;;
  match mk with
  | Some err => ret (db, Some err)
  | None =>
      r <- badger_Open dirName ;;
      match r with
      | (_, Some err) => ret (db, Some err)
      | (kvStore, None) =>
          whenVerbose (println "successfully opened data store") ;;;
          ret ({| db := kvStore; isClosed := isClosed db;
                  keys := initKeys; Secret := Secret db |}, None)
      end
  end.

(** The body of Close, run on the method's own copy of the receiver
    ([func (s Store) Close()]); it yields the copy as the body leaves it. *)
Definition Close_body (s : Store) : M Store :=
  if isClosed s then
    println "datastore already closed" ;;;
    ret s
  else
    err <- db_Close ;;
    match err with
    | Some e => println ("datastore failed to closed: " ++ Error_text e)
    | None => ret tt
    end ;;;
    whenVerbose (println "datastore is closed") ;;;
    ret {| db := db s; isClosed := true; keys := keys s; Secret := Secret s |}.

(** Close closes the datastore.  The receiver is passed by value: the
    copy is dropped when the method returns. *)
Definition Close (s : Store) : M unit :=
  Close_body s ;;;
  ret tt.

(** GetSecret fetches app secret *)
Definition GetSecret (s : Store) : M bytes :=
  r <- db_View (
         g <- txn_Get (appSecret (keys s)) ;;
         match g with
         | (_, Some err) => ret ("", Some err)
         | (item, None) =>
             match item_Value item with
             | (_, Some err) => ret ("", Some err)
             | (_secret, None) => ret (_secret, None)
             end
         end) ;;
  ret (fst r).

(** SaveSecret saves the app secret *)
Definition SaveSecret (s : Store) (secret : bytes) : M (option Error) :=
  db_Update (txn_Set (appSecret (keys s)) secret).

(** GetPlexToken fetch and decrypt plex token *)
Definition GetPlexToken (s : Store) : M (string * option Error) :=
  r <- db_View (
         g <- txn_Get (plexToken (keys s)) ;;
         match g with
         | (_, Some err) => ret ("", Some err)
         | (item, None) =>
             match item_Value item with
             | (_, Some err) => ret ("", Some err)
             | (tokenHash, None) =>
                 match decrypt (Secret s) tokenHash with
                 | (_, Some err) =>
                     whenVerbose (println "token decryption failed") ;;;
                     ret ("", Some err)
                 | (_plexToken, None) => ret (_plexToken, None)
                 end
             end
         end) ;;
  match r with
  | (plexToken, Some err) => ret (plexToken, Some err)
  | (plexToken, None) =>
      whenVerbose (println ("Your plex token is " ++ plexToken)) ;;;
      ret (plexToken, None)
  end.

(** SavePlexToken encrypt and save plex token in datastore *)
Definition SavePlexToken (s : Store) (token : string) : M (option Error) :=
  match encrypt (Secret s) token with
  | (_, Some err) => ret (Some err)
  | (tokenHash, None) =>
      whenVerbose (println ("your plex token hash: " ++ tokenHash)) ;;;
      e <- db_Update (txn_Set (plexToken (keys s)) tokenHash) ;;
      match e with
      | Some err => ret (Some err)
      | None =>
          whenVerbose (println "saved token hash to store") ;;;
          ret None
      end
  end.

(** GetPlexPin retrieves plex pin if one was saved *)
Definition GetPlexPin (s : Store) : M (PinResponse * option Error) :=
  db_View (
    g <- txn_Get (plexPin (keys s)) ;;
    match g with
    | (_, Some err) => ret (zeroPin, Some err)
    | (item, None) =>
        match item_Value item with
        | (_, Some err) => ret (zeroPin, Some err)
        | (plexPinBytes, None) =>
            match unmarshalPin plexPinBytes with
            | (_, Some err) => ret (zeroPin, Some err)
            | (plexPinResponse, None) => ret (plexPinResponse, None)
            end
        end
    end).

(** SavePlexPin save plex pin response in datastore *)
Definition SavePlexPin (s : Store) (pin : PinResponse) : M (option Error) :=
  match marshalPin pin with
  | (_, Some err) => ret (Some err)
  | (plexPinByte, None) => db_Update (txn_Set (plexPin (keys s)) plexPinByte)
  end.

(** ClearPlexPin clear plex pin from our store *)
Definition ClearPlexPin (s : Store) : M (option Error) :=
  db_Update (txn_Delete (plexPin (keys s))).

(** GetPlexServer fetches a plex server stored in the datastore *)
Definition GetPlexServer (s : Store) : M (Server * option Error) :=
  db_View (
    g <- txn_Get (plexServer (keys s)) ;;
    match g with
    | (_, Some err) => ret (zeroServer, Some err)
    | (item, None) =>
        match item_Value item with
        | (_, Some err) => ret (zeroServer, Some err)
        | (serializedServer, None) =>
            match UnserializeServer serializedServer with
            | (_, Some err) => ret (zeroServer, Some err)
            | (_plexServer, None) => ret (_plexServer, None)
            end
        end
    end).

(** SavePlexServer saves plex server info in the datastore *)
Definition SavePlexServer (s : Store) (srv : Server) : M (option Error) :=
  match Server_Serialize srv with
  | (_, Some err) => ret (Some err)
  | (serializedServer, None) => db_Update (txn_Set (plexServer (keys s)) serializedServer)
  end.

(** key := append(s.keys.userPrefix, []byte(id)...) *)
Definition userKey (s : Store) (id : string) : bytes :=
  userPrefix (keys s) ++ id.

(** SaveUser saves a user *)
Definition SaveUser (s : Store) (user : User) : M (option Error) :=
  db_Update (
    let key := userKey s (PlexUserID user) in
    match User_Serialize user with
    | (_, Some err) => ret (Some err)
    | (serializedUser, None) => txn_Set key serializedUser
    end).

(** The loop of SaveUsers: [for _, user := range users]. *)
Fixpoint SaveUsers_loop (s : Store) (users : list User) : M (option Error) :=
  match users with
  | [] => ret None
  | user :: rest =>
      let key := userKey s (PlexUserID user) in
      println ("saveusers key: " ++ key) ;;;
      match User_Serialize user with
      | (_, Some err) => ret (Some err)
      | (serializedUser, None) =>
          e <- txn_Set key serializedUser ;;
          match e with
          | Some err => ret (Some err)
          | None => SaveUsers_loop s rest
          end
      end
  end.

(** SaveUsers saves multiple users *)
Definition SaveUsers (s : Store) (users : list User) : M (option Error) :=
  db_Update (SaveUsers_loop s users).

(** GetUser fetches a user via id *)
Definition GetUser (s : Store) (id : string) : M (User * option Error) :=
  db_View (
    let key := userKey s id in
    g <- txn_Get key ;;
    match g with
    | (_, Some err) => ret (zeroUser, Some err)
    | (item, None) =>
        match item_Value item with
        | (_, Some err) => ret (zeroUser, Some err)
        | (serializedUser, None) =>
            match UnserializeUser serializedUser with
            | (_, Some err) => ret (zeroUser, Some err)
            | (_user, None) => ret (_user, None)
            end
        end
    end).

(** The loop of GetAllUsers:
    [for it.Seek(prefix); it.Valid(); it.Next()], on the items left. *)
Fixpoint GetAllUsers_loop (it : KV) (users : gmap string User)
  : M (gmap string User * option Error) :=
  match it with
  | [] => ret (users, None)
  | (itemKey, item) :: rest =>
      println itemKey ;;;
      match item_Value item with
      | (_, Some err) => ret (users, Some err)
      | (serializedUser, None) =>
          match UnserializeUser serializedUser with
          | (_, Some err) => ret (users, Some err)
          | (user, None) => GetAllUsers_loop rest (<[PlexUserID user := user]> users)
          end
      end
  end.

(** GetAllUsers fetches all plex users that are assigned to media *)
Definition GetAllUsers (s : Store) : M (gmap string User * option Error) :=
  db_View (
    let prefix := userPrefix (keys s) in
    it <- it_Seek prefix ;;
    GetAllUsers_loop it ∅).

(** DeleteUser removes a user from the datastore *)
Definition DeleteUser (s : Store) (id : string) : M (option Error) :=
  if String.eqb id "" then ret (Some ErrIDRequired)
  else
    db_Update (
      let key := userKey s id in
      txn_Delete key).

(** The loop of DeleteUsers: [for i := 0; i < idLen; i++]. *)
Fixpoint DeleteUsers_loop (s : Store) (userIDs : list string) : M (option Error) :=
  match userIDs with
  | [] => ret None
  | id :: rest =>
      let key := userKey s id in
      e <- txn_Delete key ;;
      match e with
      | Some err =>
          println ("failed to delete user id " ++ id ++ ": " ++ Error_text err) ;;;
          DeleteUsers_loop s rest
      | None => DeleteUsers_loop s rest
      end
  end.

(** DeleteUsers removes multiple users from the datastore *)
Definition DeleteUsers (s : Store) (userIDs : list string) : M (option Error) :=
  db_Update (DeleteUsers_loop s userIDs).

End Store.

(** ** Engines used to run the store on concrete inputs *)

(** An engine that refuses only what badger always refuses: the empty key. *)
Definition plainEngine : Engine :=
  {| rejectWrite := fun _ e =>
       if String.eqb (eKey e) "" then Some (EngineError "Key cannot be empty") else None;
     rejectCommit := fun _ => None;
     closeError := fun _ => None;
     mkdirError := fun _ => None;
     openError := fun _ => None |}.

(** An engine that moreover refuses the keys longer than [maxKeySize] bytes. *)
Definition boundedEngine (maxKeySize : nat) : Engine :=
  {| rejectWrite := fun _ e =>
       if String.eqb (eKey e) "" then Some (EngineError "Key cannot be empty")
       else if Nat.ltb maxKeySize (String.length (eKey e))
            then Some (EngineError "Key exceeds the size limit")
            else None;
     rejectCommit := fun _ => None;
     closeError := fun _ => None;
     mkdirError := fun _ => None;
     openError := fun _ => None |}.

(** The state of the process when it starts: the flag has its zero value,
    nothing is printed, no call was made. *)
Definition startWorld (ds : gset string) (d : KV) : World :=
  {| isVerbose := false; stdout := []; dirs := ds; disk := d;
     txnUpdate := false; pending := []; calls := [] |}.

(** ** What the theorems speak about *)

(** A store handle as InitDataStore returns it. *)
Definition openStore : Store :=
  {| db := dbEngine; isClosed := false; keys := initKeys; Secret := "" |}.

(** The handle [s] with another secret in memory. *)
Definition withSecret (s : Store) (secret : bytes) : Store :=
  {| db := db s; isClosed := isClosed s; keys := keys s; Secret := secret |}.

(** A computation that leaves the flag [isVerbose] as it found it. *)
Definition keeps_flag {A : Type} (m : M A) : Prop :=
  forall w, isVerbose (snd (m w)) = isVerbose w.

(** The calls a client of the package can make on a store handle. *)
Inductive Op {pins : PlexPin} : Type :=
| CallInitDataStore (dirName : string) (_isVerbose : bool)
| AssignSecret (secret : bytes)             (* s.Secret = secret *)
| CallClose_
| CallGetSecret
| CallSaveSecret (secret : bytes)
| CallGetPlexToken
| CallSavePlexToken (token : string)
| CallGetPlexPin
| CallSavePlexPin (pin : PinResponse)
| CallClearPlexPin
| CallGetPlexServer
| CallSavePlexServer (srv : Server)
| CallSaveUser (user : User)
| CallSaveUsers (users : list User)
| CallGetUser (id : string)
| CallGetAllUsers
| CallDeleteUser (id : string)
| CallDeleteUsers (userIDs : list string).

Section Outcomes.
Context {engine : Engine} {json : JSON} {pins : PlexPin} {cipher : Cipher}.

(** The verdict of the engine on a transaction that makes the single write [e]. *)
Definition verdict (e : Entry) : option Error :=
  match rejectWrite [] e with
  | Some err => Some err
  | None => rejectCommit [e]
  end.

(** The write that saves [user]. *)
Definition save_entry (s : Store) (user : User) : Entry :=
  mkEntry (userKey s (PlexUserID user)) (Some (fst (User_Serialize user))).

(** The first failure that SaveUsers meets on [users] when the transaction
    already holds the writes [es]: a serialization error, or a write that
    the engine refuses. *)
Fixpoint first_failure (s : Store) (es : list Entry) (users : list User) : option Error :=
  match users with
  | [] => None
  | user :: rest =>
      match snd (User_Serialize user) with
      | Some err => Some err
      | None =>
          match rejectWrite es (save_entry s user) with
          | Some err => Some err
          | None => first_failure s (es ++ [save_entry s user])%list rest
          end
      end
  end.

(** What txn.Delete returns for each id of DeleteUsers, in order, when the
    transaction already holds the writes [es]. *)
Fixpoint delete_outcomes (s : Store) (es : list Entry) (userIDs : list string)
  : list (string * option Error) :=
  match userIDs with
  | [] => []
  | id :: rest =>
      let e := mkEntry (userKey s id) None in
      match rejectWrite es e with
      | Some err => (id, Some err) :: delete_outcomes s es rest
      | None => (id, None) :: delete_outcomes s (es ++ [e])%list rest
      end
  end.

(** The ids whose delete succeeded. *)
Fixpoint succeeded (outs : list (string * option Error)) : list string :=
  match outs with
  | [] => []
  | (id, None) :: rest => id :: succeeded rest
  | (_, Some _) :: rest => succeeded rest
  end.

(** The lines printed for the ids whose delete failed. *)
Fixpoint failure_reports (outs : list (string * option Error)) : list string :=
  match outs with
  | [] => []
  | (_, None) :: rest => failure_reports rest
  | (id, Some err) :: rest =>
      ("failed to delete user id " ++ id ++ ": " ++ Error_text err) :: failure_reports rest
  end.

Definition delete_entry (s : Store) (id : string) : Entry :=
  mkEntry (userKey s id) None.

(** One call; the result is the handle the client holds afterwards. *)
Definition step (op : Op) (s : Store) : M Store :=
  match op with
  | CallInitDataStore dirName v => r <- InitDataStore dirName v ;; ret (fst r)
  | AssignSecret secret =>
      ret {| db := db s; isClosed := isClosed s; keys := keys s; Secret := secret |}
  | CallClose_ => Close s ;;; ret s
  | CallGetSecret => GetSecret s ;;; ret s
  | CallSaveSecret secret => SaveSecret s secret ;;; ret s
  | CallGetPlexToken => GetPlexToken s ;;; ret s
  | CallSavePlexToken token => SavePlexToken s token ;;; ret s
  | CallGetPlexPin => GetPlexPin s ;;; ret s
  | CallSavePlexPin pin => SavePlexPin s pin ;;; ret s
  | CallClearPlexPin => ClearPlexPin s ;;; ret s
  | CallGetPlexServer => GetPlexServer s ;;; ret s
  | CallSavePlexServer srv => SavePlexServer s srv ;;; ret s
  | CallSaveUser user => SaveUser s user ;;; ret s
  | CallSaveUsers users => SaveUsers s users ;;; ret s
  | CallGetUser id => GetUser s id ;;; ret s
  | CallGetAllUsers => GetAllUsers s ;;; ret s
  | CallDeleteUser id => DeleteUser s id ;;; ret s
  | CallDeleteUsers userIDs => DeleteUsers s userIDs ;;; ret s
  end.

Fixpoint run (ops : list Op) (s : Store) : M Store :=
  match ops with
  | [] => ret s
  | op :: rest => s' <- step op s ;; run rest s'
  end.

End Outcomes.

(** ** Values and collaborators used to run the store on concrete inputs *)

(** A user whose name is the single byte 0xFF, which is not UTF-8. *)
Definition latin1User : User :=
  mkUser "1" (String (char 255) EmptyString) zeroAssignedMedia false false false false.

(** A user with an escaped byte and a two-byte rune in its strings. *)
Definition sampleUser : User :=
  mkUser "42" "Zoe <zoe@example.org>" (mkAssignedMedia "7" "Le Mépris" EmptyString)
         true false false true.

(** The committed pairs of a store that holds the server identity, the
    user 1, and a record under the key "users". *)
Definition ghostUser : User :=
  mkUser "ghost" "" zeroAssignedMedia false false false false.

Definition user1 : User :=
  mkUser "1" "one" (mkAssignedMedia "m1" "A title" "unwatched") false false false true.

Definition diskWithUsersKey : KV :=
  kv_set "users" (gojson.marshalUser ghostUser)
    (kv_set "user-1" (gojson.marshalUser user1)
       (kv_set "plex-server" (gojson.marshalServer (mkServer "nas" "http://nas:32400")) [])).

(** A marshaller that refuses a user without id.  json.Marshal itself never
    fails on a User; this one exercises the error path of SaveUsers. *)
Definition strictJSON : JSON :=
  {| marshalUser := fun u =>
       if String.eqb (PlexUserID u) EmptyString
       then (EmptyString, Some (MarshalError "json: user without id"))
       else (gojson.marshalUser u, None);
     unmarshalUser := gojson.unmarshalUser;
     marshalServer := fun s => (gojson.marshalServer s, None);
     unmarshalServer := gojson.unmarshalServer |}.

(** A stand-in for plex.PinResponse: the pin, kept as its JSON text. *)
Definition textPin : PlexPin :=
  {| PinResponse := string;
     zeroPin := EmptyString;
     marshalPin := fun p => (p, None);
     unmarshalPin := fun b => (b, None) |}.

(** Modelled from the spec: a cipher that meets the contract of section
    4.2, standing for the package's encrypt and decrypt, whose source is
    not at hand.  The secret is a key of 32 bytes; the representation is
    the key followed by the plaintext, so that decrypt can tell the key.  It
    gives no secrecy and serves to run the store only. *)
Definition toyCipher : Cipher :=
  {| encrypt := fun secret token =>
       if Nat.eqb (String.length secret) 32 then (secret ++ token, None)
       else (EmptyString, Some (EncryptionError "invalid key size"));
     decrypt := fun secret hash =>
       if Nat.eqb (String.length secret) 32 && String.eqb (sliceTo 32 hash) secret
       then (sliceFrom 32 hash, None)
       else (EmptyString, Some (DecryptionError "message authentication failed")) |}.

Definition userA : User :=
  mkUser "A" "alice" (mkAssignedMedia "11" "Alien" "unwatched") false false false true.

Definition userB : User :=
  mkUser "B" "bob" (mkAssignedMedia "12" "Brazil" "unwatched") false false false false.

(** An entry that the marshaller of [strictJSON] refuses. *)
Definition malformedUser : User := zeroUser.

Definition secret32 : string := "0123456789abcdef0123456789abcdef".
Definition other32 : string := "fedcba9876543210fedcba9876543210".

(** ** What the further properties speak about *)

(** What json.Marshal followed by json.Unmarshal makes of a string: a byte
    that does not begin a valid UTF-8 encoding becomes U+FFFD, the other
    bytes are kept. *)
Fixpoint replaceInvalid_loop (fuel : nat) (s : string) : string :=
  match fuel with
  | O => EmptyString
  | S fuel' =>
      match s with
      | EmptyString => EmptyString
      | String c rest =>
          if (byte c <? utf8.RuneSelf)%Z then String c (replaceInvalid_loop fuel' rest)
          else
            let '(r, size) := utf8.DecodeRuneInString s in
            if (r =? utf8.RuneError)%Z && (size =? 1)%nat then
              utf8.EncodeRune utf8.RuneError ++ replaceInvalid_loop fuel' (sliceFrom size s)
            else
              sliceTo size s ++ replaceInvalid_loop fuel' (sliceFrom size s)
      end
  end.

Definition replaceInvalid (s : string) : string :=
  replaceInvalid_loop (String.length s) s.

Definition replaceInvalidMedia (m : AssignedMedia) : AssignedMedia :=
  mkAssignedMedia (replaceInvalid (ID m)) (replaceInvalid (Title m))
                  (replaceInvalid (Status m)).

Definition replaceInvalidUser (u : User) : User :=
  mkUser (replaceInvalid (PlexUserID u)) (replaceInvalid (Name u))
         (replaceInvalidMedia (Media u))
         (StoppingPlayback u) (IsPlaybackStopped u) (RevokeAccess u) (IsFriend u).

Definition replaceInvalidServer (s : Server) : Server :=
  mkServer (replaceInvalid (Server_Name s)) (replaceInvalid (Server_URL s)).

(** The line SaveUsers prints for a user. *)
Definition saveusers_line (s : Store) (u : User) : string :=
  "saveusers key: " ++ userKey s (PlexUserID u).

Section Collected.
Context {json : JSON}.

(** The value of the pair decodes as a user. *)
Definition decodes (kv : string * string) : Prop :=
  snd (UnserializeUser (snd kv)) = None.

(** [users[user.PlexUserID] = user] for the user decoded from a pair. *)
Definition collect (users : gmap string User) (kv : string * string) : gmap string User :=
  let user := fst (UnserializeUser (snd kv)) in
  <[PlexUserID user := user]> users.

(** The users decoded from the pairs, each under its own plexUserID, a
    later pair replacing an earlier one with the same id. *)
Definition collected (items : KV) : gmap string User := foldl collect ∅ items.

End Collected.

(** The keys are in strictly ascending order, as the engine keeps them. *)
Fixpoint ordered (l : KV) : Prop :=
  match l with
  | [] => True
  | (k, _) :: r => Forall (fun kv => String.ltb k (fst kv) = true) r /\ ordered r
  end.

(** The keys that the functions of the package write on a store opened by
    InitDataStore: the four singleton keys and the keys of the users. *)
Definition packageKey (k : bytes) : bool :=
  String.eqb k (appSecret initKeys) || String.eqb k (plexToken initKeys) ||
  String.eqb k (plexPin initKeys) || String.eqb k (plexServer initKeys) ||
  String.prefix (userPrefix initKeys) k.

(** A pair under the key of a user holds the JSON of a user with the id of
    the key. *)
Definition holdsUser (kv : string * string) : Prop :=
  forall id : string, fst kv = userPrefix initKeys ++ id ->
    exists u : User, gojson.unmarshalUser (snd kv) = (u, None) /\ PlexUserID u = id.

(** A call on a store that is open: any call but InitDataStore and Close. *)
Definition storeCall {pins : PlexPin} (op : Op) : bool :=
  match op with
  | CallInitDataStore _ _ | CallClose_ => false
  | _ => true
  end.

(** The users a call saves. *)
Definition savedUsers {pins : PlexPin} (op : Op) : list User :=
  match op with
  | CallSaveUser user => [user]
  | CallSaveUsers users => users
  | _ => []
  end.

Section Writes.
Context {json : JSON} {pins : PlexPin} {cipher : Cipher}.

(** The writes a call may make in its transaction. *)
Definition writes (op : Op) (s : Store) : list Entry :=
  match op with
  | CallSaveSecret secret => [mkEntry (appSecret (keys s)) (Some secret)]
  | CallSavePlexToken token =>
      [mkEntry (plexToken (keys s)) (Some (fst (encrypt (Secret s) token)))]
  | CallSavePlexPin pin => [mkEntry (plexPin (keys s)) (Some (fst (marshalPin pin)))]
  | CallClearPlexPin => [mkEntry (plexPin (keys s)) None]
  | CallSavePlexServer srv =>
      [mkEntry (plexServer (keys s)) (Some (fst (Server_Serialize srv)))]
  | CallSaveUser user => [save_entry s user]
  | CallSaveUsers users => map (save_entry s) users
  | CallDeleteUser id => [delete_entry s id]
  | CallDeleteUsers userIDs => map (delete_entry s) userIDs
  | _ => []
  end.

End Writes.

(** ** The store of package main

    An earlier version of the store, kept in package main: the same
    wrapper with three keys.  Its functions getPlexServer and
    savePlexServer rest on a type and a decoder that are not among the
    sources and are left out. *)

Module main.

Record storeKeys : Type := mkStoreKeys {
  appSecret : bytes;
  plexToken : bytes;
  plexServer : bytes }.

Record store : Type := mkStore {
  db : DBRef;
  isClosed : bool;
  keys : storeKeys;
  secret : bytes }.

Definition zeroStore : store := mkStore dbNil false (mkStoreKeys "" "" "") "".

Section Store.
Context {engine : Engine} {cipher : Cipher}.

Definition initDataStore (dirName : string) : M (store * option Error) :=
  let db := zeroStore in
  whenVerbose
    (println ("checking if our datastore exists in the home directory at: " ++ dirName)) ;;;
  notExist <- os_Stat_IsNotExist dirName ;;
  mk <- (if notExist : bool then
           whenVerbose (println "creating directory because it doesn't exist") ;;;
           os_Mkdir dirName
         else
           whenVerbose (println "datastore already exits") ;;;
           ret None) ;;
  match mk with
  | Some err => ret (db, Some err)
  | None =>
      r <- badger_Open dirName ;;
      match r with
      | (_, Some err) => ret (db, Some err)
      | (kvStore, None) =>
          whenVerbose (println "successfully opened data store") ;;;
          ret ({| db := kvStore; isClosed := isClosed db;
                  keys := {| appSecret := "app-secret";
                             plexToken := "plex-token";
                             plexServer := "plex-server" |};
                  secret := secret db |}, None)
      end
  end.

(** The body of Close, on the method's own copy of the receiver. *)
Definition Close_body (s : store) : M store :=
  if isClosed s then
    println "datastore already closed" ;;;
    ret s
  else
    err <- db_Close ;;
    match err with
    | Some e => println ("datastore failed to closed: " ++ Error_text e)
    | None => ret tt
    end ;;;
    whenVerbose (println "datastore is closed") ;;;
    ret {| db := db s; isClosed := true; keys := keys s; secret := secret s |}.

Definition Close (s : store) : M unit :=
  Close_body s ;;;
  ret tt.





End Store.
End main.

(** The handle of the datastore package that stands for a handle of
    package main: the same engine, flag and secret, the three keys of the
    handle, and the other keys as InitDataStore sets them. *)
Definition toStore (s : main.store) : Store :=
  {| db := main.db s;
     isClosed := main.isClosed s;
     keys := {| appSecret := main.appSecret (main.keys s);
                plexToken := main.plexToken (main.keys s);
                plexPin := plexPin initKeys;
                plexServer := main.plexServer (main.keys s);
                userPrefix := userPrefix initKeys;
                allUsers := allUsers initKeys |};
     Secret := main.secret s |}.

(** ** Lemmas on the committed pairs *)

Lemma string_compare_refl (k : string) : String.compare k k = Eq.
Proof.
  pose proof (String.compare_antisym k k) as H.
  destruct (String.compare k k); simpl in H; congruence.
Qed.

Lemma kv_get_set_eq (k v : string) (l : KV) : kv_get k (kv_set k v l) = Some v.
Proof.
  induction l as [|[k' v'] r IH]; simpl.
  - by rewrite String.eqb_refl.
  - destruct (String.compare k k') eqn:Hc; simpl.
    + by rewrite String.eqb_refl.
    + by rewrite String.eqb_refl.
    + destruct (String.eqb k k') eqn:He; [|done].
      apply String.eqb_eq in He. subst k'.
      by rewrite string_compare_refl in Hc.
Qed.

Lemma kv_get_set_ne (k k0 v : string) (l : KV) :
  k0 <> k -> kv_get k0 (kv_set k v l) = kv_get k0 l.
Proof.
  intros Hne. induction l as [|[k' v'] r IH]; simpl.
  - by rewrite (proj2 (String.eqb_neq k0 k) Hne).
  - destruct (String.compare k k') eqn:Hc; simpl.
    + apply String.compare_eq_iff in Hc. subst k'.
      by rewrite (proj2 (String.eqb_neq k0 k) Hne).
    + by rewrite (proj2 (String.eqb_neq k0 k) Hne).
    + by rewrite IH.
Qed.

Lemma kv_get_delete_eq (k : string) (l : KV) : kv_get k (kv_delete k l) = None.
Proof.
  induction l as [|[k' v'] r IH]; simpl; [done|].
  destruct (String.eqb k k') eqn:He; simpl; [done|]. by rewrite He.
Qed.

Lemma kv_get_delete_ne (k k0 : string) (l : KV) :
  k0 <> k -> kv_get k0 (kv_delete k l) = kv_get k0 l.
Proof.
  intros Hne. induction l as [|[k' v'] r IH]; simpl; [done|].
  destruct (String.eqb k k') eqn:He; simpl.
  - apply String.eqb_eq in He. subst k'.
    by rewrite (proj2 (String.eqb_neq k0 k) Hne).
  - by rewrite IH.
Qed.

Lemma kv_delete_absent (k : string) (l : KV) :
  kv_get k l = None -> kv_delete k l = l.
Proof.
  induction l as [|[k' v'] r IH]; simpl; [done|].
  destruct (String.eqb k k') eqn:He; [done|]. intros H. by rewrite IH.
Qed.

(** A key that the entries only delete is absent once they are applied. *)
Lemma apply_deletes_absent (k : string) (es : list Entry) (l : KV) :
  Forall (fun e => eValue e = None) es ->
  (In (mkEntry k None) es \/ kv_get k l = None) ->
  kv_get k (apply_entries es l) = None.
Proof.
  revert l. induction es as [|e es IH]; intros l Hall Hin; simpl.
  - destruct Hin as [[]|]; done.
  - inversion Hall as [|? ? He Hes]; subst.
    apply IH; [done|].
    unfold apply_entry. rewrite He.
    destruct (String.eqb k (eKey e)) eqn:Hk.
    + apply String.eqb_eq in Hk. subst k. right. apply kv_get_delete_eq.
    + apply String.eqb_neq in Hk.
      destruct Hin as [[Heq|Hin]|Habs].
      * subst e. simpl in Hk. done.
      * by left.
      * right. by rewrite kv_get_delete_ne.
Qed.

(** A key that the entries set, none of them a delete, is present once they
    are applied. *)
Lemma apply_sets_present (k : string) (es : list Entry) (l : KV) :
  Forall (fun e => eValue e <> None) es ->
  (Exists (fun e => eKey e = k) es \/ kv_get k l <> None) ->
  kv_get k (apply_entries es l) <> None.
Proof.
  revert l. induction es as [|e es IH]; intros l Hall Hin; simpl.
  - destruct Hin as [Hex|]; [inversion Hex|done].
  - inversion Hall as [|? ? He Hes]; subst.
    apply IH; [done|].
    unfold apply_entry.
    destruct (eValue e) as [v|] eqn:Hv; [|done].
    destruct (String.eqb k (eKey e)) eqn:Hk.
    + apply String.eqb_eq in Hk. subst k. right. by rewrite kv_get_set_eq.
    + apply String.eqb_neq in Hk.
      destruct Hin as [Hex|Hpres].
      * inversion Hex as [? ? Hhd|? ? Htl]; subst; [done|by left].
      * right. by rewrite kv_get_set_ne.
Qed.

(** ** Transactions of one write *)

Ltac unfold_M :=
  cbv [bind ret when whenVerbose getVerbose setVerbose println
       db_View db_Update txn_Get txn_Set txn_Delete txn_write it_Seek
       db_Close item_Value txn_view os_Stat_IsNotExist os_Mkdir badger_Open
       set_txn finish] in *.

Section OneWrite.
Context {engine : Engine}.

Lemma db_Update_write (e : Entry) (w : World) :
  db_Update (txn_write e) w =
  (verdict e,
   finish (CallUpdate (bool_decide (verdict e = None)))
          (if bool_decide (verdict e = None) then apply_entry (disk w) e else disk w) w).
Proof.
  unfold verdict. unfold_M. simpl.
  destruct (rejectWrite [] e) as [err|] eqn:Hw; simpl; [done|].
  destruct (rejectCommit [e]) as [err|] eqn:Hc; simpl; done.
Qed.

End OneWrite.

(** ** The key namespace *)

Section Keys.
Context {engine : Engine} {json : JSON} {pins : PlexPin} {cipher : Cipher}.

Lemma InitDataStore_keys (dirName : string) (v : bool) (w w' : World) (s : Store) :
  InitDataStore dirName v w = ((s, None), w') ->
  keys s = initKeys /\ db s = dbEngine /\ isClosed s = false /\ Secret s = "".
Proof.
  unfold InitDataStore. unfold_M. simpl. intros Hres.
  repeat case_match; simplify_eq; done.
Qed.

(** C4. The keys derived for two distinct user ids are distinct, the key
    derived for a user id is none of the five fixed keys (app-secret,
    plex-token, plex-pin, plex-server, users), and the fixed keys are
    pairwise distinct: on every store that InitDataStore returns, no two
    logical entities share a key. *)
Theorem key_namespace_collision_free
    (dirName : string) (v : bool) (w w' : World) (s : Store) :
  InitDataStore dirName v w = ((s, None), w') ->
  (forall id1 id2 : string, id1 <> id2 -> userKey s id1 <> userKey s id2) /\
  (forall id : string,
      userKey s id <> appSecret (keys s) /\
      userKey s id <> plexToken (keys s) /\
      userKey s id <> plexPin (keys s) /\
      userKey s id <> plexServer (keys s) /\
      userKey s id <> allUsers (keys s)) /\
  NoDup [appSecret (keys s); plexToken (keys s); plexPin (keys s);
         plexServer (keys s); allUsers (keys s)].
Proof.
  intros Hinit. apply InitDataStore_keys in Hinit as (Hk & _).
  unfold userKey. rewrite Hk. simpl. split; [|split].
  - intros id1 id2 Hne Heq. apply Hne.
    by apply (String.app_inj "user-").
  - intros id. cbv [append]. repeat split; discriminate.
  - by apply (bool_decide_unpack _).
Qed.

End Keys.

(** ** The application secret *)

Section SecretOps.
Context {engine : Engine}.

(** C6. GetSecret returns a byte sequence and no error.  Where the
    app-secret key is absent it returns the empty sequence; after a
    SaveSecret that succeeded it returns the secret saved.  It leaves the
    committed pairs as they are. *)
Theorem GetSecret_absent_is_empty (s : Store) (w : World) :
  (kv_get (appSecret (keys s)) (disk w) = None -> fst (GetSecret s w) = "") /\
  (forall (secret : bytes) (w' : World),
      SaveSecret s secret w = (None, w') -> fst (GetSecret s w') = secret) /\
  disk (snd (GetSecret s w)) = disk w.
Proof.
  split; [|split].
  - intros Habs. unfold GetSecret. unfold_M. simpl. by rewrite Habs.
  - intros secret w' Hsave. unfold SaveSecret, txn_Set in Hsave.
    rewrite db_Update_write in Hsave.
    injection Hsave as Hv Hw. rewrite Hv in Hw.
    rewrite bool_decide_eq_true_2 in Hw by done. subst w'.
    unfold GetSecret. unfold_M. simpl. unfold apply_entry. simpl.
    by rewrite kv_get_set_eq.
  - unfold GetSecret. unfold_M. simpl.
    by destruct (kv_get (appSecret (keys s)) (disk w)).
Qed.

End SecretOps.

(** C6 on a fresh store, before and after SaveSecret. *)
Lemma GetSecret_absent_is_empty_witness :
  fst (GetSecret openStore (startWorld ∅ [])) = "" /\
  fst (GetSecret openStore
         (snd (SaveSecret (engine := plainEngine) openStore "0123456789abcdef"
                 (startWorld ∅ [])))) = "0123456789abcdef".
Proof.
  destruct (GetSecret_absent_is_empty (engine := plainEngine) openStore (startWorld ∅ []))
    as (Habsent & Hsaved & _).
  split.
  - apply Habsent. reflexivity.
  - apply Hsaved. reflexivity.
Defined.

(** ** Deleting one user *)

Section DeleteOne.
Context {engine : Engine}.

(** C8. DeleteUser on the empty id returns the validation error and leaves
    the whole world as it is: no call reaches the engine.  On a non-empty
    id it runs one read-write transaction whose single write deletes the
    derived user key; its error is the verdict of the engine on that write,
    which does not depend on the key being present; when the verdict is nil
    the key is absent afterwards, and a key that was absent leaves the
    committed pairs unchanged. *)
Theorem DeleteUser_validates_before_io (s : Store) (id : string) (w : World) :
  DeleteUser s "" w = (Some ErrIDRequired, w) /\
  (id <> "" ->
   let e := mkEntry (userKey s id) None in
   let err := fst (DeleteUser s id w) in
   let w' := snd (DeleteUser s id w) in
   DeleteUser s id w = db_Update (txn_Delete (userKey s id)) w /\
   err = verdict e /\
   calls w' = (calls w ++ [CallUpdate (bool_decide (err = None))])%list /\
   (err = None ->
      disk w' = kv_delete (userKey s id) (disk w) /\
      kv_get (userKey s id) (disk w') = None) /\
   (err <> None -> disk w' = disk w) /\
   (kv_get (userKey s id) (disk w) = None -> disk w' = disk w)).
Proof.
  split; [done|].
  intros Hid. apply String.eqb_neq in Hid.
  unfold DeleteUser. rewrite Hid. cbv zeta.
  split; [done|].
  unfold txn_Delete. rewrite db_Update_write. simpl.
  split; [done|]. split; [done|].
  destruct (verdict (mkEntry (userKey s id) None)) as [err|] eqn:Hv.
  - rewrite bool_decide_eq_false_2 by done. repeat split; done.
  - rewrite bool_decide_eq_true_2 by done. unfold apply_entry. simpl.
    repeat split; try done.
    + apply kv_get_delete_eq.
    + apply kv_delete_absent.
Qed.

End DeleteOne.

(** C8 on a store that holds the user 7. *)
Lemma DeleteUser_validates_before_io_witness :
  let w := startWorld ∅ [("user-7", "{}")] in
  "7" <> "" /\
  fst (DeleteUser (engine := plainEngine) openStore "7" w) = None /\
  disk (snd (DeleteUser (engine := plainEngine) openStore "7" w)) = [].
Proof.
  intros w.
  assert (Hid : "7" <> "") by discriminate.
  destruct (DeleteUser_validates_before_io (engine := plainEngine) openStore "7" w)
    as (_ & Hrun).
  destruct (Hrun Hid) as (_ & Herr & _ & Hok & _).
  split; [exact Hid|]. split; [exact Herr|].
  apply (Hok Herr).
Defined.

(** ** The verbose flag *)

Create HintDb flag discriminated.

Lemma keeps_ret {A : Type} (a : A) : keeps_flag (ret a).
Proof. done. Qed.

Lemma keeps_bind {A B : Type} (m : M A) (k : A -> M B) :
  keeps_flag m -> (forall a, keeps_flag (k a)) -> keeps_flag (bind m k).
Proof.
  intros Hm Hk w. unfold bind. specialize (Hm w).
  destruct (m w) as [a w1]. simpl in Hm. by rewrite Hk.
Qed.

Lemma keeps_println (line : string) : keeps_flag (println line).
Proof. done. Qed.

Lemma keeps_getVerbose : keeps_flag getVerbose.
Proof. done. Qed.

Lemma keeps_when (b : bool) (m : M unit) : keeps_flag m -> keeps_flag (when b m).
Proof. destruct b; done. Qed.

Lemma keeps_whenVerbose (m : M unit) : keeps_flag m -> keeps_flag (whenVerbose m).
Proof. intros Hm. apply keeps_bind; [done|]. intros a. by apply keeps_when. Qed.

Lemma keeps_txn_Get (key : string) : keeps_flag (txn_Get key).
Proof. intros w. unfold txn_Get. by case_match. Qed.

Lemma keeps_it_Seek (prefix : string) : keeps_flag (it_Seek prefix).
Proof. done. Qed.

Lemma keeps_db_View {A : Type} (fn : M (A * option Error)) :
  keeps_flag fn -> keeps_flag (db_View fn).
Proof.
  intros Hfn w. unfold db_View. specialize (Hfn (set_txn false [] w)).
  destruct (fn (set_txn false [] w)) as [r w1]. done.
Qed.

Section FlagEngine.
Context {engine : Engine}.

Lemma keeps_txn_write (e : Entry) : keeps_flag (txn_write e).
Proof. intros w. unfold txn_write. by repeat case_match. Qed.

Lemma keeps_txn_Set (key val : string) : keeps_flag (txn_Set key val).
Proof. apply keeps_txn_write. Qed.

Lemma keeps_txn_Delete (key : string) : keeps_flag (txn_Delete key).
Proof. apply keeps_txn_write. Qed.

Lemma keeps_db_Update (fn : M (option Error)) :
  keeps_flag fn -> keeps_flag (db_Update fn).
Proof.
  intros Hfn w. unfold db_Update. specialize (Hfn (set_txn true [] w)).
  destruct (fn (set_txn true [] w)) as [r w1]. by repeat case_match.
Qed.

Lemma keeps_db_Close : keeps_flag db_Close.
Proof. done. Qed.

End FlagEngine.

#[local] Hint Resolve keeps_ret keeps_println keeps_getVerbose keeps_when
  keeps_whenVerbose keeps_txn_Get keeps_it_Seek keeps_db_View keeps_txn_write
  keeps_txn_Set keeps_txn_Delete keeps_db_Update keeps_db_Close : flag.

(** Splits a computation along its binds and case distinctions. *)
Ltac keeps_step :=
  match goal with
  | |- keeps_flag (bind _ _) => apply keeps_bind; [|intros ?]
  | |- keeps_flag (match ?x with _ => _ end) => destruct x
  | |- keeps_flag (if ?x then _ else _) => destruct x
  | |- keeps_flag (let _ := _ in _) => cbv zeta
  end.

Ltac keeps_auto := repeat keeps_step; auto with flag.

Section FlagStore.
Context {engine : Engine} {json : JSON} {pins : PlexPin} {cipher : Cipher}.

Lemma keeps_Close (s : Store) : keeps_flag (Close s).
Proof. unfold Close, Close_body. keeps_auto. Qed.

Lemma keeps_GetSecret (s : Store) : keeps_flag (GetSecret s).
Proof. unfold GetSecret. keeps_auto. apply keeps_db_View. keeps_auto. Qed.

Lemma keeps_SaveSecret (s : Store) (secret : string) : keeps_flag (SaveSecret s secret).
Proof. unfold SaveSecret. keeps_auto. Qed.

Lemma keeps_GetPlexToken (s : Store) : keeps_flag (GetPlexToken s).
Proof. unfold GetPlexToken. keeps_auto. apply keeps_db_View. keeps_auto. Qed.

Lemma keeps_SavePlexToken (s : Store) (token : string) :
  keeps_flag (SavePlexToken s token).
Proof. unfold SavePlexToken. keeps_auto. Qed.

Lemma keeps_GetPlexPin (s : Store) : keeps_flag (GetPlexPin s).
Proof. unfold GetPlexPin. apply keeps_db_View. keeps_auto. Qed.

Lemma keeps_SavePlexPin (s : Store) (pin : PinResponse) : keeps_flag (SavePlexPin s pin).
Proof. unfold SavePlexPin. keeps_auto. Qed.

Lemma keeps_ClearPlexPin (s : Store) : keeps_flag (ClearPlexPin s).
Proof. unfold ClearPlexPin. keeps_auto. Qed.

Lemma keeps_GetPlexServer (s : Store) : keeps_flag (GetPlexServer s).
Proof. unfold GetPlexServer. apply keeps_db_View. keeps_auto. Qed.

Lemma keeps_SavePlexServer (s : Store) (srv : Server) : keeps_flag (SavePlexServer s srv).
Proof. unfold SavePlexServer. keeps_auto. Qed.

Lemma keeps_SaveUser (s : Store) (user : User) : keeps_flag (SaveUser s user).
Proof. unfold SaveUser. apply keeps_db_Update. keeps_auto. Qed.

Lemma keeps_SaveUsers_loop (s : Store) (users : list User) :
  keeps_flag (SaveUsers_loop s users).
Proof. induction users as [|user rest IH]; simpl; keeps_auto. Qed.

Lemma keeps_SaveUsers (s : Store) (users : list User) : keeps_flag (SaveUsers s users).
Proof. unfold SaveUsers. apply keeps_db_Update, keeps_SaveUsers_loop. Qed.

Lemma keeps_GetUser (s : Store) (id : string) : keeps_flag (GetUser s id).
Proof. unfold GetUser. apply keeps_db_View. keeps_auto. Qed.

Lemma keeps_GetAllUsers_loop (it : KV) (users : gmap string User) :
  keeps_flag (GetAllUsers_loop it users).
Proof.
  revert users. induction it as [|[k v] rest IH]; intros users; simpl; keeps_auto.
Qed.

Lemma keeps_GetAllUsers (s : Store) : keeps_flag (GetAllUsers s).
Proof.
  unfold GetAllUsers. apply keeps_db_View. keeps_auto. apply keeps_GetAllUsers_loop.
Qed.

Lemma keeps_DeleteUser (s : Store) (id : string) : keeps_flag (DeleteUser s id).
Proof. unfold DeleteUser. keeps_auto. Qed.

Lemma keeps_DeleteUsers_loop (s : Store) (userIDs : list string) :
  keeps_flag (DeleteUsers_loop s userIDs).
Proof. induction userIDs as [|id rest IH]; simpl; keeps_auto. Qed.

Lemma keeps_DeleteUsers (s : Store) (userIDs : list string) :
  keeps_flag (DeleteUsers s userIDs).
Proof. unfold DeleteUsers. apply keeps_db_Update, keeps_DeleteUsers_loop. Qed.

Lemma InitDataStore_flag_off (dirName : string) (v : bool) (w : World) :
  isVerbose w = false ->
  isVerbose (snd (InitDataStore dirName v w)) = false /\
  stdout (snd (InitDataStore dirName v w)) = stdout w.
Proof.
  intros Hoff. unfold InitDataStore. unfold_M. simpl. rewrite Hoff. simpl.
  repeat case_match; simplify_eq; simpl in *; try done; congruence.
Qed.

End FlagStore.

Section Client.
Context {engine : Engine} {json : JSON} {pins : PlexPin} {cipher : Cipher}.

Lemma step_flag_off (op : Op) (s : Store) (w : World) :
  isVerbose w = false -> isVerbose (snd (step op s w)) = false.
Proof.
  intros Hoff.
  assert (Hk : forall (A : Type) (m : M A),
             keeps_flag m -> isVerbose (snd ((m ;;; ret s) w)) = false).
  { intros A m Hm. rewrite <- Hoff. apply (keeps_bind m (fun _ => ret s)); auto with flag. }
  destruct op; simpl;
    try (apply Hk;
         eauto using keeps_Close, keeps_GetSecret, keeps_SaveSecret, keeps_GetPlexToken,
           keeps_SavePlexToken, keeps_GetPlexPin, keeps_SavePlexPin, keeps_ClearPlexPin,
           keeps_GetPlexServer, keeps_SavePlexServer, keeps_SaveUser, keeps_SaveUsers,
           keeps_GetUser, keeps_GetAllUsers, keeps_DeleteUser, keeps_DeleteUsers).
  - unfold bind, ret.
    pose proof (InitDataStore_flag_off dirName _isVerbose w Hoff) as [Hflag _].
    by destruct (InitDataStore dirName _isVerbose w).
  - done.
Qed.

(** C10. The flag [isVerbose] is false when the process starts.
    InitDataStore, whatever its directory name and its [_isVerbose]
    argument, leaves a false flag false and prints nothing; and after any
    sequence of calls on the store the flag is still false. *)
Theorem verbose_flag_is_inert (dirName : string) (_isVerbose : bool) (w : World) :
  (forall (ds : gset string) (d : KV), isVerbose (startWorld ds d) = false) /\
  (isVerbose w = false ->
   isVerbose (snd (InitDataStore dirName _isVerbose w)) = false /\
   stdout (snd (InitDataStore dirName _isVerbose w)) = stdout w) /\
  (isVerbose w = false ->
   forall (ops : list Op) (s : Store), isVerbose (snd (run ops s w)) = false).
Proof.
  split; [done|]. split.
  - apply InitDataStore_flag_off.
  - intros Hoff ops. revert w Hoff.
    induction ops as [|op rest IH]; intros w Hoff s; simpl; [done|].
    unfold bind. pose proof (step_flag_off op s w Hoff) as Hstep.
    destruct (step op s w) as [s' w1]. by apply IH.
Qed.

End Client.

(** ** Closing the store *)

Section CloseOps.
Context {engine : Engine}.

(** The copy of the receiver that the body of Close works on is marked as
    closed when the body ends. *)
Lemma Close_body_marks_copy (s : Store) (w : World) :
  isClosed (fst (Close_body s w)) = true.
Proof.
  unfold Close_body. destruct (isClosed s) eqn:Hc; unfold_M; simpl; [done|].
  by repeat case_match.
Qed.

(** On a handle whose [isClosed] field is false, Close calls the engine's
    Close, and never prints that the store was already closed. *)
Lemma Close_open_handle (s : Store) (w : World) :
  isClosed s = false ->
  calls (snd (Close s w)) = (calls w ++ [CallClose])%list /\
  (In "datastore already closed" (stdout (snd (Close s w))) ->
   In "datastore already closed" (stdout w)).
Proof.
  intros Hopen. unfold Close, Close_body. rewrite Hopen. unfold_M. simpl.
  destruct (closeError (calls w)) as [e|]; destruct (isVerbose w); simpl;
    (split; [done|]); rewrite ?in_app_iff; simpl;
    intuition (try done); exfalso; cbv [append] in *; discriminate.
Qed.

End CloseOps.

(** C7, as the code has it.  A store is opened and closed twice through the
    same handle.  Close has a value receiver, so the handle the client
    holds keeps [isClosed = false]: the second call does not report that
    the store is already closed, it calls the engine's Close again. *)
Theorem Close_twice_closes_engine_twice :
  let r := InitDataStore (engine := plainEngine) "data" false (startWorld ∅ []) in
  let s := fst (fst r) in
  let w1 := snd (Close (engine := plainEngine) s (snd r)) in
  let w2 := snd (Close (engine := plainEngine) s w1) in
  snd (fst r) = None /\
  isClosed s = false /\
  calls w1 = [CallClose] /\
  calls w2 = [CallClose; CallClose] /\
  stdout w2 = [].
Proof. vm_compute. done. Qed.

(** ** Batches *)

Section Batches.
Context {engine : Engine} {json : JSON}.

Lemma SaveUsers_loop_spec (s : Store) (users : list User) (w : World) :
  txnUpdate w = true ->
  let r := SaveUsers_loop s users w in
  fst r = first_failure s (pending w) users /\
  disk (snd r) = disk w /\ calls (snd r) = calls w /\
  (fst r = None -> pending (snd r) = (pending w ++ map (save_entry s) users)%list).
Proof.
  revert w. induction users as [|user rest IH]; intros w Hupd; simpl.
  - repeat split; try done. intros _. by rewrite app_nil_r.
  - unfold_M. simpl.
    assert (Hse : save_entry s user =
                  mkEntry (userKey s (PlexUserID user)) (Some (fst (User_Serialize user))))
      by done.
    destruct (User_Serialize user) as [b [err|]] eqn:Hser; simpl in *; [done|].
    rewrite Hse, Hupd.
    destruct (rejectWrite (pending w) _) as [err|] eqn:Hrej; simpl; [done|].
    match goal with |- context [SaveUsers_loop s rest ?w1] =>
      specialize (IH w1 eq_refl); simpl in IH; destruct IH as (IH1 & IH2 & IH3 & IH4) end.
    repeat split; try done.
    intros Hok. rewrite (IH4 Hok). by rewrite <- app_assoc.
Qed.

Lemma first_failure_at (s : Store) (es : list Entry) (us1 us2 : list User) (u : User) :
  (snd (User_Serialize u) <> None \/
   rejectWrite (es ++ map (save_entry s) us1)%list (save_entry s u) <> None) ->
  first_failure s es (us1 ++ u :: us2)%list <> None.
Proof.
  revert es. induction us1 as [|v us1 IH]; intros es Hfail; simpl.
  - rewrite app_nil_r in Hfail.
    destruct (snd (User_Serialize u)); [done|].
    destruct (rejectWrite es (save_entry s u)); [done|].
    by destruct Hfail.
  - destruct (snd (User_Serialize v)); [done|].
    destruct (rejectWrite es (save_entry s v)); [done|].
    apply IH. simpl in Hfail. by rewrite <- app_assoc.
Qed.

Lemma GetUser_absent (s : Store) (id : string) (w : World) :
  pending w = [] ->
  kv_get (userKey s id) (disk w) = None ->
  fst (GetUser s id w) = (zeroUser, Some ErrKeyNotFound).
Proof.
  intros Hp Habs. unfold GetUser. unfold_M. simpl. by rewrite Habs.
Qed.

(** C1. SaveUsers runs one read-write transaction.  The error it returns
    is the first failure of the batch, a serialization error or a refused
    write, or else, when no element fails, the verdict of the commit on the
    writes of the whole batch: it returns nil exactly when no element fails
    and the commit is accepted.  When it returns an error the committed
    pairs are those before the call; when it returns nil they are those
    before the call with the whole batch written, and the key of every user
    of the batch holds a record.  A failure on any element makes the call
    return an error.  In particular, after SaveUsers on users followed by
    an entry whose serialization fails, GetUser on the id of any of these
    users, absent before the call, returns NotFound. *)
Theorem SaveUsers_all_or_nothing (s : Store) (users : list User) (w : World) :
  let err := fst (SaveUsers s users w) in
  let w' := snd (SaveUsers s users w) in
  err = match first_failure s [] users with
        | Some e => Some e
        | None => rejectCommit (map (save_entry s) users)
        end /\
  (err = None ->
   forall u : User, In u users ->
     kv_get (userKey s (PlexUserID u)) (disk w') <> None) /\
  calls w' = (calls w ++ [CallUpdate (bool_decide (err = None))])%list /\
  (err <> None -> disk w' = disk w) /\
  (err = None -> disk w' = apply_entries (map (save_entry s) users) (disk w)) /\
  (forall (us1 us2 : list User) (u : User),
      users = (us1 ++ u :: us2)%list ->
      snd (User_Serialize u) <> None \/
      rejectWrite (map (save_entry s) us1) (save_entry s u) <> None ->
      err <> None) /\
  (forall (valid : list User) (malformed v : User),
      users = (valid ++ [malformed])%list ->
      snd (User_Serialize malformed) <> None ->
      In v valid ->
      kv_get (userKey s (PlexUserID v)) (disk w) = None ->
      fst (GetUser s (PlexUserID v) w') = (zeroUser, Some ErrKeyNotFound)).
Proof.
  cbv zeta. unfold SaveUsers, db_Update.
  pose proof (SaveUsers_loop_spec s users (set_txn true [] w) eq_refl) as Hloop.
  cbv zeta in Hloop. simpl in Hloop.
  destruct (SaveUsers_loop s users (set_txn true [] w)) as [e w1] eqn:Hrun.
  simpl in Hloop. destruct Hloop as (Hfst & Hdisk & Hcalls & Hpend).
  assert (Hat : forall us1 us2 u, users = (us1 ++ u :: us2)%list ->
            snd (User_Serialize u) <> None \/
            rejectWrite (map (save_entry s) us1) (save_entry s u) <> None ->
            e <> None).
  { intros us1 us2 u -> Hfail. rewrite Hfst. by apply first_failure_at. }
  assert (Hget : forall v, kv_get (userKey s (PlexUserID v)) (disk w) = None ->
            forall c, fst (GetUser s (PlexUserID v) (finish c (disk w) w1)) =
                      (zeroUser, Some ErrKeyNotFound)).
  { intros v Habs c. by apply GetUser_absent. }
  assert (Hheld : forall u, In u users ->
            kv_get (userKey s (PlexUserID u))
                   (apply_entries (map (save_entry s) users) (disk w)) <> None).
  { intros u Hin. apply apply_sets_present.
    - apply List.Forall_forall. intros x Hx.
      apply in_map_iff in Hx. by destruct Hx as (u' & <- & _).
    - left. apply List.Exists_exists. exists (save_entry s u).
      split; [by apply in_map|done]. }
  rewrite <- Hfst.
  destruct e as [e|]; simpl.
  - rewrite Hdisk, Hcalls.
    refine (conj _ (conj _ (conj _ (conj _ (conj _ (conj _ _)))))); try done.
    intros valid malformed v _ _ _ Habs. by apply Hget.
  - rewrite (Hpend eq_refl). simpl.
    destruct (rejectCommit (map (save_entry s) users)) as [e|] eqn:Hc; simpl;
      rewrite ?Hdisk, ?Hcalls;
      (refine (conj _ (conj _ (conj _ (conj _ (conj _ (conj _ _)))))); try done).
    + intros valid malformed v _ _ _ Habs. by apply Hget.
    + intros valid malformed v Hu Hser _ _. exfalso.
      apply (Hat valid [] malformed Hu); [by left|done].
Qed.

Lemma DeleteUsers_loop_spec (s : Store) (userIDs : list string) (w : World) :
  txnUpdate w = true ->
  let r := DeleteUsers_loop s userIDs w in
  let outs := delete_outcomes s (pending w) userIDs in
  fst r = None /\
  disk (snd r) = disk w /\ calls (snd r) = calls w /\
  pending (snd r) = (pending w ++ map (delete_entry s) (succeeded outs))%list /\
  stdout (snd r) = (stdout w ++ failure_reports outs)%list.
Proof.
  revert w. induction userIDs as [|id rest IH]; intros w Hupd; simpl.
  - by rewrite !app_nil_r.
  - unfold_M. simpl. rewrite Hupd.
    destruct (rejectWrite (pending w) _) as [err|] eqn:Hrej; simpl.
    + match goal with |- context [DeleteUsers_loop s rest ?w1] =>
        specialize (IH w1 Hupd); simpl in IH;
        destruct IH as (IH1 & IH2 & IH3 & IH4 & IH5) end.
      repeat split; try done.
      rewrite IH5. by rewrite <- app_assoc.
    + match goal with |- context [DeleteUsers_loop s rest ?w1] =>
        specialize (IH w1 eq_refl); simpl in IH;
        destruct IH as (IH1 & IH2 & IH3 & IH4 & IH5) end.
      repeat split; try done.
      rewrite IH4. by rewrite <- app_assoc.
Qed.

(** C5. DeleteUsers runs one read-write transaction.  A delete that fails
    is reported on standard output and the loop goes on with the next id;
    the error of the call is the verdict of the commit on the deletes that
    succeeded, never the error of a delete; and when the call returns nil,
    every id whose delete succeeded is absent afterwards. *)
Theorem DeleteUsers_best_effort (s : Store) (userIDs : list string) (w : World) :
  let outs := delete_outcomes s [] userIDs in
  let err := fst (DeleteUsers s userIDs w) in
  let w' := snd (DeleteUsers s userIDs w) in
  map fst outs = userIDs /\
  err = rejectCommit (map (delete_entry s) (succeeded outs)) /\
  calls w' = (calls w ++ [CallUpdate (bool_decide (err = None))])%list /\
  stdout w' = (stdout w ++ failure_reports outs)%list /\
  (err = None ->
   forall id : string, In id (succeeded outs) ->
     kv_get (userKey s id) (disk w') = None).
Proof.
  cbv zeta. split.
  { generalize (@nil Entry). induction userIDs as [|id rest IH]; intros es; simpl; [done|].
    destruct (rejectWrite es _); simpl; by rewrite IH. }
  unfold DeleteUsers, db_Update.
  pose proof (DeleteUsers_loop_spec s userIDs (set_txn true [] w) eq_refl) as Hloop.
  cbv zeta in Hloop. simpl in Hloop.
  destruct (DeleteUsers_loop s userIDs (set_txn true [] w)) as [e w1] eqn:Hrun.
  simpl in Hloop. destruct Hloop as (-> & Hdisk & Hcalls & Hpend & Hout).
  rewrite Hpend.
  destruct (rejectCommit _) as [e|] eqn:Hc; simpl; rewrite ?Hcalls, ?Hout;
    repeat split; try done.
  intros _ id Hin. rewrite Hdisk.
  apply apply_deletes_absent.
  - apply List.Forall_forall. intros e He. apply in_map_iff in He as (i & <- & _). done.
  - left. apply in_map_iff. by exists id.
Qed.

End Batches.

(** ** The plex token *)

Section Token.
Context {engine : Engine} {cipher : Cipher} {laws : CipherLaws cipher}.

Lemma SavePlexToken_spec (s : Store) (token : string) (w : World) :
  let err := fst (SavePlexToken s token w) in
  let w' := snd (SavePlexToken s token w) in
  match encrypt (Secret s) token with
  | (_, Some e) => err = Some e /\ w' = w
  | (hash, None) =>
      err = verdict (mkEntry (plexToken (keys s)) (Some hash)) /\
      pending w' = [] /\
      disk w' = (if bool_decide (err = None)
                 then kv_set (plexToken (keys s)) hash (disk w) else disk w)
  end.
Proof.
  cbv zeta. unfold SavePlexToken, verdict.
  destruct (encrypt (Secret s) token) as [hash [e|]]; [done|].
  unfold_M. simpl.
  destruct (isVerbose w) eqn:Hv; simpl;
    destruct (rejectWrite [] _) as [e|]; simpl; try done;
    destruct (rejectCommit _) as [e|]; simpl; rewrite ?Hv; done.
Qed.

Lemma GetPlexToken_reads (s : Store) (w : World) (hash : string) :
  pending w = [] ->
  kv_get (plexToken (keys s)) (disk w) = Some hash ->
  fst (GetPlexToken s w) =
  match decrypt (Secret s) hash with
  | (_, Some err) => ("", Some err)
  | (plain, None) => (plain, None)
  end.
Proof.
  intros Hp Hget. unfold GetPlexToken. unfold_M. simpl. rewrite Hget.
  destruct (decrypt (Secret s) hash) as [plain [err|]]; simpl.
  - by destruct (isVerbose w).
  - by destruct (isVerbose w).
Qed.

(** C3. After a SavePlexToken(t) that succeeded, GetPlexToken with the
    same secret in memory returns t and no error, and GetPlexToken with any
    other secret in memory returns no plaintext and a DecryptionError.  The
    only pair the call writes is the plex-token key with the ciphertext
    that encrypt returned; when encrypt fails nothing is written. *)
Theorem token_confidentiality (s : Store) (t : string) (w : World) :
  let err := fst (SavePlexToken s t w) in
  let w' := snd (SavePlexToken s t w) in
  (err = None ->
   fst (GetPlexToken s w') = (t, None) /\
   (forall secret' : bytes, secret' <> Secret s ->
      exists msg, fst (GetPlexToken (withSecret s secret') w') =
                  ("", Some (DecryptionError msg))) /\
   (exists hash, encrypt (Secret s) t = (hash, None) /\
                 disk w' = kv_set (plexToken (keys s)) hash (disk w))) /\
  (snd (encrypt (Secret s) t) <> None -> err <> None /\ w' = w).
Proof.
  cbv zeta.
  pose proof (SavePlexToken_spec s t w) as Hspec. cbv zeta in Hspec.
  destruct (encrypt (Secret s) t) as [hash [e|]] eqn:Henc; simpl.
  - destruct Hspec as [-> ->]. done.
  - destruct Hspec as (Herr & Hpend & Hdisk).
    split; [|done]. intros Hok. rewrite Hok in Hdisk.
    rewrite bool_decide_eq_true_2 in Hdisk by done.
    assert (Hget : kv_get (plexToken (keys s)) (disk (snd (SavePlexToken s t w))) = Some hash).
    { rewrite Hdisk. apply kv_get_set_eq. }
    split; [|split].
    + rewrite (GetPlexToken_reads s _ hash Hpend Hget).
      by rewrite (decrypt_encrypt _ _ _ Henc).
    + intros secret' Hne.
      rewrite (GetPlexToken_reads (withSecret s secret') _ hash Hpend Hget). simpl.
      destruct (decrypt_other_secret _ _ _ _ Henc Hne) as (plain & msg & ->).
      by exists msg.
    + by exists hash.
Qed.

End Token.

(** ** UTF-8: a sequence that decodes to a rune encodes back to itself *)

Module utf8_facts.
Import utf8.
Local Open Scope Z_scope.

(** Bits that do not overlap add up. *)
Lemma lor_disjoint_add (a b k : Z) :
  0 <= k -> a mod 2 ^ k = 0 -> 0 <= b < 2 ^ k -> Z.lor a b = a + b.
Proof.
  intros Hk Ha Hb.
  assert (Hland : Z.land a b = 0).
  { apply Z.bits_inj'. intros i Hi. rewrite Z.land_spec, Z.bits_0.
    destruct (Z.lt_ge_cases i k) as [Hlt|Hge].
    - rewrite <- (Z.mod_pow2_bits_low a k i) by lia. rewrite Ha, Z.bits_0. done.
    - rewrite <- (Z.mod_small b (2 ^ k)) by lia.
      rewrite Z.mod_pow2_bits_high by lia. apply andb_false_r. }
  rewrite <- (Z.add_lor_land a b), Hland. lia.
Qed.

Lemma land_maskx (b : Z) : Z.land b maskx = b mod 64.
Proof. change maskx with (Z.ones 6). by rewrite Z.land_ones. Qed.

Lemma land_mask2 (b : Z) : Z.land b mask2 = b mod 32.
Proof. change mask2 with (Z.ones 5). by rewrite Z.land_ones. Qed.

Lemma land_mask3 (b : Z) : Z.land b mask3 = b mod 16.
Proof. change mask3 with (Z.ones 4). by rewrite Z.land_ones. Qed.

Lemma land_mask4 (b : Z) : Z.land b mask4 = b mod 8.
Proof. change mask4 with (Z.ones 3). by rewrite Z.land_ones. Qed.

Lemma dec2_arith (s0 s1 : Z) : dec2 s0 s1 = (s0 mod 32) * 64 + s1 mod 64.
Proof.
  unfold dec2. rewrite land_mask2, land_maskx, Z.shiftl_mul_pow2 by lia.
  apply (lor_disjoint_add _ _ 6); [lia| |].
  - change (2 ^ 6) with 64. by rewrite Z.mod_mul.
  - change (2 ^ 6) with 64. apply Z.mod_pos_bound. lia.
Qed.

Lemma dec3_arith (s0 s1 s2 : Z) :
  dec3 s0 s1 s2 = (s0 mod 16) * 4096 + (s1 mod 64) * 64 + s2 mod 64.
Proof.
  unfold dec3. rewrite land_mask3, !land_maskx, !Z.shiftl_mul_pow2 by lia.
  change (2 ^ 12) with 4096. change (2 ^ 6) with 64.
  pose proof (Z.mod_pos_bound s1 64 ltac:(lia)).
  pose proof (Z.mod_pos_bound s2 64 ltac:(lia)).
  rewrite (lor_disjoint_add (s0 mod 16 * 4096) (s1 mod 64 * 64) 12); [|lia| |].
  - apply (lor_disjoint_add _ _ 6); [lia| |].
    + change (2 ^ 6) with 64.
      replace (s0 mod 16 * 4096 + s1 mod 64 * 64) with ((s0 mod 16 * 64 + s1 mod 64) * 64) by lia.
      by rewrite Z.mod_mul.
    + change (2 ^ 6) with 64. lia.
  - change (2 ^ 12) with 4096. by rewrite Z.mod_mul.
  - change (2 ^ 12) with 4096. lia.
Qed.

Lemma dec4_arith (s0 s1 s2 s3 : Z) :
  dec4 s0 s1 s2 s3 =
  (s0 mod 8) * 262144 + (s1 mod 64) * 4096 + (s2 mod 64) * 64 + s3 mod 64.
Proof.
  unfold dec4. rewrite land_mask4, !land_maskx, !Z.shiftl_mul_pow2 by lia.
  change (2 ^ 18) with 262144. change (2 ^ 12) with 4096. change (2 ^ 6) with 64.
  pose proof (Z.mod_pos_bound s1 64 ltac:(lia)).
  pose proof (Z.mod_pos_bound s2 64 ltac:(lia)).
  pose proof (Z.mod_pos_bound s3 64 ltac:(lia)).
  rewrite (lor_disjoint_add (s0 mod 8 * 262144) (s1 mod 64 * 4096) 18); [|lia| |].
  - rewrite (lor_disjoint_add (s0 mod 8 * 262144 + s1 mod 64 * 4096) (s2 mod 64 * 64) 12);
      [|lia| |].
    + apply (lor_disjoint_add _ _ 6); [lia| |].
      * change (2 ^ 6) with 64.
        replace (s0 mod 8 * 262144 + s1 mod 64 * 4096 + s2 mod 64 * 64)
          with ((s0 mod 8 * 4096 + s1 mod 64 * 64 + s2 mod 64) * 64) by lia.
        by rewrite Z.mod_mul.
      * change (2 ^ 6) with 64. lia.
    + change (2 ^ 12) with 4096.
      replace (s0 mod 8 * 262144 + s1 mod 64 * 4096)
        with ((s0 mod 8 * 64 + s1 mod 64) * 4096) by lia.
      by rewrite Z.mod_mul.
    + change (2 ^ 12) with 4096. lia.
  - change (2 ^ 18) with 262144. by rewrite Z.mod_mul.
  - change (2 ^ 18) with 262144. lia.
Qed.

(** A lead byte or a continuation byte, put together from its tag and its
    payload. *)
Lemma lor_tag (tag payload k b : Z) :
  0 <= k -> tag mod 2 ^ k = 0 -> 0 <= payload < 2 ^ k -> tag + payload = b ->
  Z.lor tag payload = b.
Proof. intros Hk Ht Hp <-. by apply (lor_disjoint_add _ _ k). Qed.

Lemma EncodeRune_dec2 (s0 s1 : Z) :
  0xC2 <= s0 <= 0xDF -> 0x80 <= s1 <= 0xBF ->
  EncodeRune (dec2 s0 s1) = String (char s0) (String (char s1) EmptyString).
Proof.
  intros H0 H1. rewrite dec2_arith. unfold EncodeRune.
  set (r := s0 mod 32 * 64 + s1 mod 64).
  assert (Hr : 0x80 <= r <= 0x7FF) by (subst r; Z.div_mod_to_equations; lia).
  unfold rune1Max, rune2Max.
  destruct (Z.leb_spec r 0x7F); [lia|].
  destruct (Z.leb_spec r 0x7FF); [|lia].
  rewrite land_maskx, Z.shiftr_div_pow2 by lia. change (2 ^ 6) with 64.
  f_equal; [|f_equal]; f_equal.
  - apply (lor_tag _ _ 5); [lia|done| |]; subst r; unfold t2;
      change (2 ^ 5) with 32; Z.div_mod_to_equations; lia.
  - apply (lor_tag _ _ 6); [lia|done| |]; subst r; unfold tx;
      change (2 ^ 6) with 64; Z.div_mod_to_equations; lia.
Qed.

Lemma EncodeRune_dec3 (s0 s1 s2 : Z) :
  0xE0 <= s0 <= 0xEF -> 0x80 <= s1 <= 0xBF -> 0x80 <= s2 <= 0xBF ->
  (s0 = 0xE0 -> 0xA0 <= s1) -> (s0 = 0xED -> s1 <= 0x9F) ->
  EncodeRune (dec3 s0 s1 s2) =
  String (char s0) (String (char s1) (String (char s2) EmptyString)).
Proof.
  intros H0 H1 H2 Hlo Hhi. rewrite dec3_arith. unfold EncodeRune.
  set (r := s0 mod 16 * 4096 + s1 mod 64 * 64 + s2 mod 64).
  assert (Hr : 0x800 <= r <= 0xFFFF /\ ~ (0xD800 <= r <= 0xDFFF)).
  { subst r. Z.div_mod_to_equations. lia. }
  unfold rune1Max, rune2Max, rune3Max, MaxRune, surrogateMin, surrogateMax.
  destruct (Z.leb_spec r 0x7F); [lia|].
  destruct (Z.leb_spec r 0x7FF); [lia|].
  destruct (Z.ltb_spec 0x10FFFF r); [lia|]. simpl.
  replace ((55296 <=? r) && (r <=? 57343)) with false by (symmetry; apply andb_false_iff; lia).
  destruct (Z.leb_spec r 0xFFFF); [|lia].
  rewrite !land_maskx, !Z.shiftr_div_pow2 by lia.
  change (2 ^ 6) with 64. change (2 ^ 12) with 4096.
  f_equal; [|f_equal; [|f_equal]]; f_equal.
  - apply (lor_tag _ _ 4); [lia|done| |]; subst r; unfold t3;
      change (2 ^ 4) with 16; Z.div_mod_to_equations; lia.
  - apply (lor_tag _ _ 6); [lia|done| |]; subst r; unfold tx;
      change (2 ^ 6) with 64; Z.div_mod_to_equations; lia.
  - apply (lor_tag _ _ 6); [lia|done| |]; subst r; unfold tx;
      change (2 ^ 6) with 64; Z.div_mod_to_equations; lia.
Qed.

Lemma EncodeRune_dec4 (s0 s1 s2 s3 : Z) :
  0xF0 <= s0 <= 0xF4 -> 0x80 <= s1 <= 0xBF -> 0x80 <= s2 <= 0xBF -> 0x80 <= s3 <= 0xBF ->
  (s0 = 0xF0 -> 0x90 <= s1) -> (s0 = 0xF4 -> s1 <= 0x8F) ->
  EncodeRune (dec4 s0 s1 s2 s3) =
  String (char s0) (String (char s1) (String (char s2) (String (char s3) EmptyString))).
Proof.
  intros H0 H1 H2 H3 Hlo Hhi. rewrite dec4_arith. unfold EncodeRune.
  set (r := s0 mod 8 * 262144 + s1 mod 64 * 4096 + s2 mod 64 * 64 + s3 mod 64).
  assert (Hr : 0x10000 <= r <= 0x10FFFF).
  { subst r. Z.div_mod_to_equations. lia. }
  unfold rune1Max, rune2Max, rune3Max, MaxRune, surrogateMin, surrogateMax.
  destruct (Z.leb_spec r 0x7F); [lia|].
  destruct (Z.leb_spec r 0x7FF); [lia|].
  destruct (Z.ltb_spec 0x10FFFF r); [lia|]. simpl.
  replace ((55296 <=? r) && (r <=? 57343)) with false by (symmetry; apply andb_false_iff; lia).
  destruct (Z.leb_spec r 0xFFFF); [lia|].
  rewrite !land_maskx, !Z.shiftr_div_pow2 by lia.
  change (2 ^ 6) with 64. change (2 ^ 12) with 4096. change (2 ^ 18) with 262144.
  f_equal; [|f_equal; [|f_equal; [|f_equal]]]; f_equal.
  - apply (lor_tag _ _ 3); [lia|done| |]; subst r; unfold t4;
      change (2 ^ 3) with 8; Z.div_mod_to_equations; lia.
  - apply (lor_tag _ _ 6); [lia|done| |]; subst r; unfold tx;
      change (2 ^ 6) with 64; Z.div_mod_to_equations; lia.
  - apply (lor_tag _ _ 6); [lia|done| |]; subst r; unfold tx;
      change (2 ^ 6) with 64; Z.div_mod_to_equations; lia.
  - apply (lor_tag _ _ 6); [lia|done| |]; subst r; unfold tx;
      change (2 ^ 6) with 64; Z.div_mod_to_equations; lia.
Qed.

Lemma byte_range (c : ascii) : 0 <= byte c < 256.
Proof.
  unfold byte. pose proof (N_ascii_bounded c). lia.
Qed.

Lemma char_byte (c : ascii) : char (byte c) = c.
Proof.
  unfold char, byte.
  assert (H : Z.land (Z.of_N (N_of_ascii c)) 255 = Z.of_N (N_of_ascii c)).
  { change 255 with (Z.ones 8). rewrite Z.land_ones by lia.
    apply Z.mod_small. pose proof (N_ascii_bounded c). lia. }
  rewrite H, N2Z.id. apply ascii_N_embedding.
Qed.

Lemma append_cons (c : ascii) (s t : string) : String c s ++ t = String c (s ++ t).
Proof. done. Qed.

Lemma append_nil (t : string) : EmptyString ++ t = t.
Proof. done. Qed.


Lemma first_cases (b : Z) :
  0x80 <= b < 256 ->
  ((b < 0xC2 \/ 0xF5 <= b) /\ first b = xx) \/
  (0xC2 <= b <= 0xDF /\ first b = s1) \/
  (b = 0xE0 /\ first b = s2) \/
  ((0xE1 <= b <= 0xEC \/ 0xEE <= b <= 0xEF) /\ first b = s3) \/
  (b = 0xED /\ first b = s4) \/
  (b = 0xF0 /\ first b = s5) \/
  (0xF1 <= b <= 0xF3 /\ first b = s6) \/
  (b = 0xF4 /\ first b = s7).
Proof.
  intros Hb. unfold first.
  repeat match goal with
  | |- context [if ?x <? ?y then _ else _] => destruct (Z.ltb_spec x y); try lia
  | |- context [if ?x =? ?y then _ else _] => destruct (Z.eqb_spec x y); try lia
  end; intuition lia.
Qed.

(** Decides the tests of decodeRune once the entry of the table is known. *)
Ltac decide_tests :=
  cbv [as_ xx s1 s2 s3 s4 s5 s6 s7];
  repeat match goal with
  | |- context [Z.land (Zpos ?p) 7] =>
      let v := eval vm_compute in (Z.land (Zpos p) 7) in
      change (Z.land (Zpos p) 7) with v
  | |- context [Z.shiftr (Zpos ?p) 4] =>
      let v := eval vm_compute in (Z.shiftr (Zpos p) 4) in
      change (Z.shiftr (Zpos p) 4) with v
  | |- context [Z.to_nat (Zpos ?p)] =>
      let v := eval vm_compute in (Z.to_nat (Zpos p)) in
      change (Z.to_nat (Zpos p)) with v
  | |- context [acceptRanges ?k] =>
      let v := eval vm_compute in (acceptRanges k) in
      change (acceptRanges k) with v
  end;
  cbv [locb hicb fst snd orb];
  repeat match goal with
  | |- context [if ?x <? ?y then _ else _] => destruct (Z.ltb_spec x y); try lia
  | |- context [if ?x =? ?y then _ else _] => destruct (Z.eqb_spec x y); try lia
  | |- context [if ?x <=? ?y then _ else _] => destruct (Z.leb_spec x y); try lia
  | |- context [if (?x <? ?y)%nat then _ else _] => destruct (Nat.ltb_spec x y); try lia
  | |- context [if (?x <=? ?y)%nat then _ else _] => destruct (Nat.leb_spec x y); try lia
  end.

Lemma decodeRune_seq2 (n : nat) (b0 b1 b2 b3 : Z) :
  seq2 b0 b1 -> (2 <= n)%nat -> decodeRune n b0 b1 b2 b3 = (dec2 b0 b1, 2%nat).
Proof.
  intros (H0 & H1) Hn. unfold decodeRune. cbv zeta.
  destruct (first_cases b0) as [[? Hf]|[[? Hf]|[[? Hf]|[[? Hf]|[[? Hf]|[[? Hf]|[[? Hf]|[? Hf]]]]]]]];
    try lia; rewrite Hf; decide_tests; done.
Qed.

Lemma decodeRune_seq3 (n : nat) (b0 b1 b2 b3 : Z) :
  seq3 b0 b1 b2 -> (3 <= n)%nat -> decodeRune n b0 b1 b2 b3 = (dec3 b0 b1 b2, 3%nat).
Proof.
  intros (H0 & H1 & H2 & Hlo & Hhi) Hn. unfold decodeRune. cbv zeta.
  destruct (first_cases b0) as [[? Hf]|[[? Hf]|[[? Hf]|[[? Hf]|[[? Hf]|[[? Hf]|[[? Hf]|[? Hf]]]]]]]];
    try lia; rewrite Hf; decide_tests; done.
Qed.

Lemma decodeRune_seq4 (n : nat) (b0 b1 b2 b3 : Z) :
  seq4 b0 b1 b2 b3 -> (4 <= n)%nat -> decodeRune n b0 b1 b2 b3 = (dec4 b0 b1 b2 b3, 4%nat).
Proof.
  intros (H0 & H1 & H2 & H3 & Hlo & Hhi) Hn. unfold decodeRune. cbv zeta.
  destruct (first_cases b0) as [[? Hf]|[[? Hf]|[[? Hf]|[[? Hf]|[[? Hf]|[[? Hf]|[[? Hf]|[? Hf]]]]]]]];
    try lia; rewrite Hf; decide_tests; done.
Qed.

Lemma decodeRune_inv (n : nat) (b0 b1 b2 b3 r : Z) (size : nat) :
  0x80 <= b0 < 256 ->
  decodeRune n b0 b1 b2 b3 = (r, size) ->
  ~ (r = RuneError /\ size = 1%nat) ->
  (size = 2%nat /\ (2 <= n)%nat /\ seq2 b0 b1 /\ r = dec2 b0 b1) \/
  (size = 3%nat /\ (3 <= n)%nat /\ seq3 b0 b1 b2 /\ r = dec3 b0 b1 b2) \/
  (size = 4%nat /\ (4 <= n)%nat /\ seq4 b0 b1 b2 b3 /\ r = dec4 b0 b1 b2 b3).
Proof.
  intros Hb0 Hdec Hok. revert Hdec. unfold decodeRune, seq2, seq3, seq4. cbv zeta.
  destruct (first_cases b0 Hb0)
    as [[? Hf]|[[? Hf]|[[? Hf]|[[? Hf]|[[? Hf]|[[? Hf]|[[? Hf]|[? Hf]]]]]]]];
    rewrite Hf; decide_tests; intros Hdec; injection Hdec as <- <-;
    try (exfalso; apply Hok; done).
  all: first [ left; split; [done|]; split; [lia|]; split; [lia|done]
             | right; left; split; [done|]; split; [lia|]; split; [lia|done]
             | right; right; split; [done|]; split; [lia|]; split; [lia|done] ].
Qed.

End utf8_facts.

(** ** encoding/json: Unmarshal reads back what Marshal wrote *)

Module json_facts.
Import utf8 json gojson utf8_facts.

Section Strings.
Local Open Scope Z_scope.

Lemma length_append (s t : string) :
  String.length (s ++ t) = (String.length s + String.length t)%nat.
Proof. induction s as [|c s IH]; [done|]. rewrite append_cons. simpl. by rewrite IH. Qed.

Lemma append_assoc (s t u : string) : (s ++ t) ++ u = s ++ (t ++ u).
Proof. induction s as [|c s IH]; [done|]. rewrite !append_cons. by rewrite IH. Qed.

Lemma sliceTo_sliceFrom (n : nat) (s : string) : sliceTo n s ++ sliceFrom n s = s.
Proof.
  revert s. induction n as [|n IH]; intros [|c s]; simpl; try done.
  rewrite append_cons. by rewrite IH.
Qed.

Lemma length_sliceTo (n : nat) (s : string) :
  (n <= String.length s)%nat -> String.length (sliceTo n s) = n.
Proof.
  revert s. induction n as [|n IH]; intros [|c s] H; simpl in *; try done; try lia.
  rewrite IH; lia.
Qed.

Lemma length_sliceFrom (n : nat) (s : string) :
  String.length (sliceFrom n s) = (String.length s - n)%nat.
Proof.
  revert s. induction n as [|n IH]; intros [|c s]; simpl; done.
Qed.

Lemma sliceFrom_append (n : nat) (s t : string) :
  String.length s = n -> sliceFrom n (s ++ t) = t.
Proof.
  revert s. induction n as [|n IH]; intros [|c s] H; rewrite ?append_nil, ?append_cons; simpl in *; try done.
  simpl. apply IH. lia.
Qed.

(** The runes that DecodeRuneInString finds at a byte that is not ASCII. *)
Lemma DecodeRuneInString_valid (c0 : ascii) (rest : string) (r : Z) (size : nat) :
  0x80 <= byte c0 ->
  DecodeRuneInString (String c0 rest) = (r, size) ->
  ~ (r = RuneError /\ size = 1%nat) ->
  (2 <= size <= String.length (String c0 rest))%nat /\
  EncodeRune r = sliceTo size (String c0 rest) /\
  forall t, DecodeRuneInString (sliceTo size (String c0 rest) ++ t) = (r, size).
Proof.
  intros Hb0 Hdec Hok.
  pose proof (byte_range c0) as Hr0.
  unfold DecodeRuneInString in Hdec. simpl in Hdec.
  change (byteAt (String c0 rest) 0) with (byte c0) in Hdec.
  apply decodeRune_inv in Hdec; [|lia|done].
  destruct Hdec as [(-> & Hn & Hseq & ->)|[(-> & Hn & Hseq & ->)|(-> & Hn & Hseq & ->)]].
  - destruct rest as [|c1 rest]; [simpl in Hn; lia|].
    change (byteAt (String c0 (String c1 rest)) 1) with (byte c1) in *.
    split; [simpl; lia|]. split.
    + destruct Hseq. rewrite EncodeRune_dec2 by done. simpl. by rewrite !char_byte.
    + intros t. simpl sliceTo. rewrite !append_cons, append_nil.
      unfold DecodeRuneInString. simpl.
      change (byteAt (String c0 (String c1 t)) 0) with (byte c0).
      change (byteAt (String c0 (String c1 t)) 1) with (byte c1).
      apply decodeRune_seq2; [done|lia].
  - destruct rest as [|c1 [|c2 rest]]; try (simpl in Hn; lia).
    change (byteAt (String c0 (String c1 (String c2 rest))) 1) with (byte c1) in *.
    change (byteAt (String c0 (String c1 (String c2 rest))) 2) with (byte c2) in *.
    split; [simpl; lia|]. split.
    + destruct Hseq as (? & ? & ? & ? & ?).
      rewrite EncodeRune_dec3 by done. simpl. by rewrite !char_byte.
    + intros t. simpl sliceTo. rewrite !append_cons, append_nil.
      unfold DecodeRuneInString. simpl.
      change (byteAt (String c0 (String c1 (String c2 t))) 0) with (byte c0).
      change (byteAt (String c0 (String c1 (String c2 t))) 1) with (byte c1).
      change (byteAt (String c0 (String c1 (String c2 t))) 2) with (byte c2).
      apply decodeRune_seq3; [done|lia].
  - destruct rest as [|c1 [|c2 [|c3 rest]]]; try (simpl in Hn; lia).
    change (byteAt (String c0 (String c1 (String c2 (String c3 rest)))) 1) with (byte c1) in *.
    change (byteAt (String c0 (String c1 (String c2 (String c3 rest)))) 2) with (byte c2) in *.
    change (byteAt (String c0 (String c1 (String c2 (String c3 rest)))) 3) with (byte c3) in *.
    split; [simpl; lia|]. split.
    + destruct Hseq as (? & ? & ? & ? & ? & ?).
      rewrite EncodeRune_dec4 by done. simpl. by rewrite !char_byte.
    + intros t. simpl sliceTo. rewrite !append_cons, append_nil.
      unfold DecodeRuneInString. simpl.
      change (byteAt (String c0 (String c1 (String c2 (String c3 t)))) 0) with (byte c0).
      change (byteAt (String c0 (String c1 (String c2 (String c3 t)))) 1) with (byte c1).
      change (byteAt (String c0 (String c1 (String c2 (String c3 t)))) 2) with (byte c2).
      change (byteAt (String c0 (String c1 (String c2 (String c3 t)))) 3) with (byte c3).
      apply decodeRune_seq4; [done|lia].
Qed.

Lemma DecodeRuneInString_ascii (c0 : ascii) (rest : string) :
  byte c0 < 0x80 -> DecodeRuneInString (String c0 rest) = (byte c0, 1%nat).
Proof.
  intros Hb. pose proof (byte_range c0).
  unfold DecodeRuneInString. simpl.
  change (byteAt (String c0 rest) 0) with (byte c0).
  unfold decodeRune, first. cbv zeta.
  destruct (Z.ltb_spec (byte c0) 128); [|lia]. done.
Qed.

Lemma string_loop_ascii (n : nat) (c : ascii) (rest : string) :
  byte c < 0x80 ->
  string_loop (S n) (String c rest) = asciiPiece c ++ string_loop n rest.
Proof.
  intros Hb. simpl. unfold RuneSelf.
  destruct (Z.ltb_spec (byte c) 128); [done|lia].
Qed.

Lemma unquote_loop_step (m : nat) (s : string) :
  unquote_loop (S m) s =
  let emit (piece : string) (rest : string) :=
    match unquote_loop m rest with
    | Some (d, r) => Some (piece ++ d, r)
    | None => None
    end in
  match s with
  | EmptyString => None
  | String c rest =>
      let b := byte c in
      if b =? byte quote then Some (EmptyString, rest)
      else if b =? byte backslash then
        match rest with
        | EmptyString => None
        | String e rest' =>
            let eb := byte e in
            if (eb =? byte quote) || (eb =? byte backslash) || (eb =? byte "/")
            then emit (String e EmptyString) rest'
            else if eb =? byte "b" then emit (String (char 8) EmptyString) rest'
            else if eb =? byte "f" then emit (String (char 12) EmptyString) rest'
            else if eb =? byte "n" then emit (String (char 10) EmptyString) rest'
            else if eb =? byte "r" then emit (String (char 13) EmptyString) rest'
            else if eb =? byte "t" then emit (String (char 9) EmptyString) rest'
            else if eb =? byte "u" then
              let rr := getu4 s in
              if rr <? 0 then None
              else
                let after := sliceFrom 6 s in
                if utf16_IsSurrogate rr then
                  let dec := utf16_DecodeRune rr (getu4 after) in
                  if negb (dec =? 0xFFFD) then emit (utf8.EncodeRune dec) (sliceFrom 6 after)
                  else emit (utf8.EncodeRune 0xFFFD) after
                else emit (utf8.EncodeRune rr) after
            else None
        end
      else if b <? 32 then None
      else if b <? utf8.RuneSelf then emit (String c EmptyString) rest
      else
        let '(rr, size) := utf8.DecodeRuneInString s in
        emit (utf8.EncodeRune rr) (sliceFrom size s)
  end.
Proof. done. Qed.

(** Unquoting what string_loop wrote for an ASCII byte gives the byte. *)
Lemma unquote_asciiPiece (m : nat) (c : ascii) (X : string) :
  byte c < 0x80 ->
  unquote_loop (S m) (asciiPiece c ++ X) =
  match unquote_loop m X with
  | Some (d, r) => Some (String c d, r)
  | None => None
  end.
Proof.
  intros Hb. rewrite unquote_loop_step.
  destruct c as [[] [] [] [] [] [] [] []];
    try (exfalso; vm_compute in Hb; discriminate);
    cbv -[unquote_loop]; reflexivity.
Qed.

Lemma unquote_rune (m : nat) (c : ascii) (Y : string) :
  0x80 <= byte c ->
  unquote_loop (S m) (String c Y) =
  let '(rr, size) := DecodeRuneInString (String c Y) in
  match unquote_loop m (sliceFrom size (String c Y)) with
  | Some (d, r) => Some (EncodeRune rr ++ d, r)
  | None => None
  end.
Proof.
  intros Hb. rewrite unquote_loop_step. cbv zeta.
  change (byte quote) with 34. change (byte backslash) with 92. unfold RuneSelf.
  destruct (Z.eqb_spec (byte c) 34); [lia|].
  destruct (Z.eqb_spec (byte c) 92); [lia|].
  destruct (Z.ltb_spec (byte c) 32); [lia|].
  destruct (Z.ltb_spec (byte c) 128); [lia|]. done.
Qed.

(** The escapes of the line separator and of the paragraph separator. *)
Lemma unquote_separator (m : nat) (r : Z) (X : string) :
  r = 0x2028 \/ r = 0x2029 ->
  unquote_loop (S m)
    (String backslash ("u202" ++ String (hexDigit (Z.land r 0xF)) EmptyString) ++ X) =
  match unquote_loop m X with
  | Some (d, rest) => Some (EncodeRune r ++ d, rest)
  | None => None
  end.
Proof.
  intros [-> | ->]; rewrite unquote_loop_step; cbv -[unquote_loop]; reflexivity.
Qed.

Lemma unquote_loop_quote (m : nat) (rest : string) :
  unquote_loop (S m) (String quote rest) = Some (EmptyString, rest).
Proof. done. Qed.

(** Unquoting what string_loop wrote for a valid string gives the string. *)
Lemma unquote_string_loop (n : nat) :
  forall s : string,
    (String.length s <= n)%nat ->
    ValidString_loop n s = true ->
    forall (m : nat) (rest : string),
      (String.length (string_loop n s) < m)%nat ->
      unquote_loop m (string_loop n s ++ String quote rest) = Some (s, rest).
Proof.
  induction n as [|n IH]; intros s Hlen Hvalid m rest Hm.
  { destruct s; [|simpl in Hlen; lia]. simpl. rewrite append_nil.
    destruct m; [simpl in Hm; lia|]. apply unquote_loop_quote. }
  destruct s as [|c s].
  { simpl. rewrite append_nil.
    destruct m; [simpl in Hm; lia|]. apply unquote_loop_quote. }
  simpl in Hlen.
  destruct (Z.lt_ge_cases (byte c) 0x80) as [Hascii|Hrune].
  - rewrite string_loop_ascii in * by done.
    simpl in Hvalid. rewrite DecodeRuneInString_ascii in Hvalid by done.
    pose proof (byte_range c).
    replace ((byte c =? RuneError) && (1 =? 1)%nat) with false in Hvalid
      by (symmetry; apply andb_false_iff; left; apply Z.eqb_neq; unfold RuneError; lia).
    simpl in Hvalid.
    rewrite length_append in Hm.
    assert (Hpiece : (1 <= String.length (asciiPiece c))%nat).
    { unfold asciiPiece. cbv zeta. repeat case_match; simpl; lia. }
    destruct m as [|m]; [lia|].
    rewrite append_assoc, unquote_asciiPiece by done.
    rewrite IH; [done|lia|done|lia].
  - simpl in Hvalid. simpl string_loop in *.
    unfold RuneSelf in *.
    destruct (Z.ltb_spec (byte c) 128); [lia|].
    destruct (DecodeRuneInString (String c s)) as [r size] eqn:Hdec.
    destruct ((r =? RuneError) && (size =? 1)%nat) eqn:Herr; [done|].
    assert (Hok : ~ (r = RuneError /\ size = 1%nat)).
    { intros [-> ->]. by rewrite Z.eqb_refl in Herr. }
    destruct (DecodeRuneInString_valid c s r size Hrune Hdec Hok) as (Hsize & Henc & Hpre).
    simpl String.length in Hsize.
    assert (Hrest : (String.length (sliceFrom size (String c s)) <= n)%nat).
    { rewrite length_sliceFrom. simpl. lia. }
    assert (Htake : String.length (sliceTo size (String c s)) = size).
    { apply length_sliceTo. simpl. lia. }
    destruct ((r =? 0x2028) || (r =? 0x2029)) eqn:Hsep.
    + rewrite length_append in Hm. simpl String.length in Hm.
      destruct m as [|m]; [lia|].
      rewrite append_assoc, unquote_separator
        by (apply orb_true_iff in Hsep as [?%Z.eqb_eq|?%Z.eqb_eq]; auto).
      rewrite IH; [|done|done|].
      * by rewrite Henc, sliceTo_sliceFrom.
      * simpl in Hm. lia.
    + rewrite length_append, Htake in Hm.
      destruct m as [|m]; [lia|].
      rewrite append_assoc.
      set (Y := string_loop n (sliceFrom size (String c s)) ++ String quote rest).
      assert (Hhead : sliceTo size (String c s) ++ Y =
                      String c (sliceTo (Nat.pred size) s ++ Y)).
      { destruct size as [|k]; [lia|]. done. }
      pose proof (Hpre Y) as HdecY.
      assert (HdropY : sliceFrom size (sliceTo size (String c s) ++ Y) = Y)
        by (by apply sliceFrom_append).
      rewrite Hhead in *. rewrite unquote_rune by done.
      rewrite HdecY, HdropY. subst Y.
      rewrite IH; [|done|done|lia].
      by rewrite Henc, sliceTo_sliceFrom.
Qed.

Lemma unquote_encoded (s rest : string) :
  ValidString s = true ->
  unquote (string_loop (String.length s) s ++ String quote rest) = Some (s, rest).
Proof.
  intros Hvalid. unfold unquote.
  apply unquote_string_loop; [done|done|].
  rewrite length_append. simpl. lia.
Qed.

End Strings.

Lemma append_nil_r (s : string) : s ++ EmptyString = s.
Proof. induction s as [|c s IH]; [done|]. by rewrite append_cons, IH. Qed.

(** *** Parsing what Marshal wrote *)

Lemma parseValue_step (f : nat) (s : string) :
  parseValue (S f) s =
  match skipSpace s with
  | EmptyString => None
  | String c rest =>
      let b := byte c in
      if b =? byte "{" then
        match skipSpace rest with
        | EmptyString => None
        | String c' rest' =>
            if byte c' =? byte "}" then Some (JObject [], rest')
            else
              match parseMembers f rest with
              | Some (ms, r) => Some (JObject ms, r)
              | None => None
              end
        end
      else if b =? byte "[" then
        match skipSpace rest with
        | EmptyString => None
        | String c' rest' =>
            if byte c' =? byte "]" then Some (JArray [], rest')
            else
              match parseElements f rest with
              | Some (vs, r) => Some (JArray vs, r)
              | None => None
              end
        end
      else if b =? byte quote then
        match unquote rest with
        | Some (str, r) => Some (JString str, r)
        | None => None
        end
      else if b =? byte "t" then
        match stripPrefix "rue" rest with
        | Some r => Some (JBool true, r)
        | None => None
        end
      else if b =? byte "f" then
        match stripPrefix "alse" rest with
        | Some r => Some (JBool false, r)
        | None => None
        end
      else if b =? byte "n" then
        match stripPrefix "ull" rest with
        | Some r => Some (JNull, r)
        | None => None
        end
      else if (b =? byte "-") || isDigit b then
        match scanNumber (String c rest) with
        | Some r => Some (JNumber, r)
        | None => None
        end
      else None
  end%Z.
Proof. done. Qed.

Lemma parseMembers_step (f : nat) (s : string) :
  parseMembers (S f) s =
  match skipSpace s with
  | EmptyString => None
  | String q rest =>
      if (byte q =? byte quote)%Z then
        match unquote rest with
        | None => None
        | Some (key, r1) =>
            match skipSpace r1 with
            | EmptyString => None
            | String colon r2 =>
                if (byte colon =? byte ":")%Z then
                  match parseValue f r2 with
                  | None => None
                  | Some (v, r3) =>
                      match skipSpace r3 with
                      | EmptyString => None
                      | String sep r4 =>
                          if (byte sep =? byte ",")%Z then
                            match parseMembers f r4 with
                            | Some (ms, r5) => Some ((key, v) :: ms, r5)
                            | None => None
                            end
                          else if (byte sep =? byte "}")%Z then Some ([(key, v)], r4)
                          else None
                      end
                  end
                else None
            end
        end
      else None
  end.
Proof. done. Qed.

Lemma skipSpace_cons (c : ascii) (r : string) :
  isSpace (byte c) = false -> skipSpace (String c r) = String c r.
Proof. intros H. simpl. by rewrite H. Qed.

(** Replaces the tests on known bytes by their values. *)
Ltac eval_tests :=
  cbv zeta;
  repeat match goal with
  | |- context [if ?c then _ else _] =>
      let v := eval vm_compute in c in
      match v with
      | true => change c with true
      | false => change c with false
      end; cbv iota
  end.

Lemma parseValue_encodeString (f : nat) (s rest : string) :
  ValidString s = true ->
  parseValue (S f) (encodeString s ++ rest) = Some (JString s, rest).
Proof.
  intros Hvalid. unfold encodeString.
  rewrite append_cons, append_assoc, append_cons, append_nil.
  rewrite parseValue_step, skipSpace_cons by done. eval_tests.
  by rewrite unquote_encoded.
Qed.

Lemma parseValue_encodeBool (f : nat) (b : bool) (rest : string) :
  parseValue (S f) (encodeBool b ++ rest) = Some (JBool b, rest).
Proof.
  rewrite parseValue_step.
  destruct b; unfold encodeBool; rewrite !append_cons, append_nil;
    rewrite skipSpace_cons by done; eval_tests; done.
Qed.

Lemma unquote_fieldName (name X : string) :
  plainName name = true ->
  unquote (name ++ String quote (":" ++ X)) = Some (name, ":" ++ X).
Proof.
  intros Hplain. apply andb_true_iff in Hplain as [Hvalid Heq].
  apply String.eqb_eq in Heq.
  rewrite <- Heq at 1. by apply unquote_encoded.
Qed.

Lemma fieldName_append (name X : string) :
  fieldName name ++ X = String quote (name ++ String quote (":" ++ X)).
Proof.
  unfold fieldName. by rewrite append_cons, append_assoc, append_cons.
Qed.

Lemma parseMembers_more (f : nat) (name X M : string) (v : value)
    (ms : list (string * value)) (r : string) :
  plainName name = true ->
  parseValue f X = Some (v, "," ++ M) ->
  parseMembers f M = Some (ms, r) ->
  parseMembers (S f) (fieldName name ++ X) = Some ((name, v) :: ms, r).
Proof.
  intros Hplain Hv Hms. rewrite fieldName_append.
  rewrite parseMembers_step, skipSpace_cons by done. eval_tests.
  rewrite unquote_fieldName by done.
  rewrite append_cons, append_nil, skipSpace_cons by done. eval_tests.
  rewrite Hv, append_cons, append_nil, skipSpace_cons by done. eval_tests.
  by rewrite Hms.
Qed.

Lemma parseMembers_last (f : nat) (name X rest : string) (v : value) :
  plainName name = true ->
  parseValue f X = Some (v, "}" ++ rest) ->
  parseMembers (S f) (fieldName name ++ X) = Some ([(name, v)], rest).
Proof.
  intros Hplain Hv. rewrite fieldName_append.
  rewrite parseMembers_step, skipSpace_cons by done. eval_tests.
  rewrite unquote_fieldName by done.
  rewrite append_cons, append_nil, skipSpace_cons by done. eval_tests.
  rewrite Hv, append_cons, append_nil, skipSpace_cons by done. eval_tests.
  done.
Qed.

Lemma parseValue_object (f : nat) (name X : string)
    (ms : list (string * value)) (r : string) :
  parseMembers f (fieldName name ++ X) = Some (ms, r) ->
  parseValue (S f) ("{" ++ fieldName name ++ X) = Some (JObject ms, r).
Proof.
  intros Hms. rewrite append_cons, append_nil.
  rewrite parseValue_step, skipSpace_cons by done. eval_tests.
  rewrite Hms. rewrite fieldName_append, skipSpace_cons by done. eval_tests.
  done.
Qed.

Lemma parseValue_marshalAssignedMedia (f : nat) (m : AssignedMedia) (rest : string) :
  validMedia m ->
  parseValue (5 + f) (marshalAssignedMedia m ++ rest) =
  Some (JObject [("id", JString (ID m)); ("title", JString (Title m));
                 ("status", JString (Status m))], rest).
Proof.
  intros (H1 & H2 & H3). unfold marshalAssignedMedia.
  rewrite !append_assoc. change (5 + f)%nat with (S (S (S (S (S f))))).
  apply parseValue_object.
  eapply parseMembers_more; [done|by apply parseValue_encodeString|].
  eapply parseMembers_more; [done|by apply parseValue_encodeString|].
  eapply parseMembers_last; [done|by apply parseValue_encodeString].
Qed.

Lemma parseValue_marshalUser (f : nat) (u : User) (rest : string) :
  validUser u ->
  parseValue (9 + f) (marshalUser u ++ rest) =
  Some (JObject
          [("plexUserID", JString (PlexUserID u));
           ("plexUsername", JString (Name u));
           ("assignedMedia",
            JObject [("id", JString (ID (Media u))); ("title", JString (Title (Media u)));
                     ("status", JString (Status (Media u)))]);
           ("stoppingPlayback", JBool (StoppingPlayback u));
           ("playbackIsStopped", JBool (IsPlaybackStopped u));
           ("revokeAccess", JBool (RevokeAccess u));
           ("isFriend", JBool (IsFriend u))], rest).
Proof.
  intros (H1 & H2 & H3). unfold marshalUser.
  rewrite !append_assoc. change (9 + f)%nat with (S (S (S (S (S (S (S (S (S f))))))))).
  apply parseValue_object.
  eapply parseMembers_more; [done|by apply parseValue_encodeString|].
  eapply parseMembers_more; [done|by apply parseValue_encodeString|].
  eapply parseMembers_more; [done|by apply (parseValue_marshalAssignedMedia f)|].
  eapply parseMembers_more; [done|by apply parseValue_encodeBool|].
  eapply parseMembers_more; [done|by apply parseValue_encodeBool|].
  eapply parseMembers_more; [done|by apply parseValue_encodeBool|].
  eapply parseMembers_last; [done|by apply parseValue_encodeBool].
Qed.

Lemma parseValue_marshalServer (f : nat) (s : Server) (rest : string) :
  validServer s ->
  parseValue (4 + f) (marshalServer s ++ rest) =
  Some (JObject [("name", JString (Server_Name s)); ("url", JString (Server_URL s))], rest).
Proof.
  intros (H1 & H2). unfold marshalServer.
  rewrite !append_assoc. change (4 + f)%nat with (S (S (S (S f)))).
  apply parseValue_object.
  eapply parseMembers_more; [done|by apply parseValue_encodeString|].
  eapply parseMembers_last; [done|by apply parseValue_encodeString].
Qed.

Lemma parse_whole (data : string) (k : nat) (v : value) :
  (k <= String.length data)%nat ->
  (forall f, parseValue (k + f) (data ++ EmptyString) = Some (v, EmptyString)) ->
  parse data = Some v.
Proof.
  intros Hlen Hparse. unfold parse.
  replace (S (String.length data)) with (k + (S (String.length data) - k))%nat by lia.
  rewrite <- (append_nil_r data) at 2. by rewrite Hparse.
Qed.

Lemma length_marshalUser (u : User) : (9 <= String.length (marshalUser u))%nat.
Proof.
  unfold marshalUser. rewrite !length_append. unfold fieldName. simpl. lia.
Qed.

Lemma length_marshalServer (s : Server) : (4 <= String.length (marshalServer s))%nat.
Proof.
  unfold marshalServer. rewrite !length_append. unfold fieldName. simpl. lia.
Qed.

(** Unmarshal gives back the user, and the server, that Marshal wrote. *)
Lemma unmarshalUser_marshalUser (u : User) :
  validUser u -> unmarshalUser (marshalUser u) = (u, None).
Proof.
  intros Hvalid. unfold unmarshalUser.
  rewrite (parse_whole _ 9 _ (length_marshalUser u)
             (fun f => parseValue_marshalUser f u EmptyString Hvalid)).
  destruct u as [id name [mid title status] b1 b2 b3 b4]. reflexivity.
Qed.

Lemma unmarshalServer_marshalServer (s : Server) :
  validServer s -> unmarshalServer (marshalServer s) = (s, None).
Proof.
  intros Hvalid. unfold unmarshalServer.
  rewrite (parse_whole _ 4 _ (length_marshalServer s)
             (fun f => parseValue_marshalServer f s EmptyString Hvalid)).
  destruct s as [name url]. reflexivity.
Qed.

Lemma byte_inj (c d : ascii) : byte c = byte d -> c = d.
Proof. intros H. by rewrite <- (char_byte c), <- (char_byte d), H. Qed.

(** The first byte of a JSON text tells the kind of its value. *)
Lemma parse_first_byte (data : string) (v : value) :
  parse data = Some v ->
  exists c rest, skipSpace data = String c rest /\
    match v with
    | JObject _ => c = "{"%char
    | JNull => c = "n"%char
    | _ => c <> "{"%char /\ c <> "n"%char
    end.
Proof.
  unfold parse. rewrite parseValue_step.
  destruct (skipSpace data) as [|c rest]; [done|]. cbv zeta.
  intros H. exists c, rest. split; [done|].
  revert H.
  destruct (Z.eqb_spec (byte c) (byte "{")) as [E1|E1].
  { apply byte_inj in E1. subst c. intros H. by repeat case_match; simplify_eq. }
  destruct (Z.eqb_spec (byte c) (byte "[")) as [E2|E2].
  { apply byte_inj in E2. subst c. intros H. by repeat case_match; simplify_eq. }
  destruct (Z.eqb_spec (byte c) (byte quote)) as [E3|E3].
  { apply byte_inj in E3. subst c. intros H. by repeat case_match; simplify_eq. }
  destruct (Z.eqb_spec (byte c) (byte "t")) as [E4|E4].
  { apply byte_inj in E4. subst c. intros H. by repeat case_match; simplify_eq. }
  destruct (Z.eqb_spec (byte c) (byte "f")) as [E5|E5].
  { apply byte_inj in E5. subst c. intros H. by repeat case_match; simplify_eq. }
  destruct (Z.eqb_spec (byte c) (byte "n")) as [E6|E6].
  { apply byte_inj in E6. subst c. intros H. by repeat case_match; simplify_eq. }
  intros H. repeat case_match; simplify_eq.
  split; intros ->; done.
Qed.

Lemma unmarshalUser_first_byte (data : string) :
  snd (unmarshalUser data) = None ->
  exists c rest, skipSpace data = String c rest /\ (c = "{"%char \/ c = "n"%char).
Proof.
  unfold unmarshalUser. destruct (parse data) as [v|] eqn:Hp; [|done].
  destruct (parse_first_byte data v Hp) as (c & rest & Hs & Hv).
  intros Herr. exists c, rest. split; [done|].
  destruct v; simpl in Herr; try done; auto.
Qed.

Lemma unmarshalServer_first_byte (data : string) :
  snd (unmarshalServer data) = None ->
  exists c rest, skipSpace data = String c rest /\ (c = "{"%char \/ c = "n"%char).
Proof.
  unfold unmarshalServer. destruct (parse data) as [v|] eqn:Hp; [|done].
  destruct (parse_first_byte data v Hp) as (c & rest & Hs & Hv).
  intros Herr. exists c, rest. split; [done|].
  destruct v; simpl in Herr; try done; auto.
Qed.

End json_facts.

(** ** encoding/json: what comes back of a string that is not UTF-8 *)

Module replace_facts.
Import utf8 json gojson utf8_facts json_facts.

Section Strings.
Local Open Scope Z_scope.

Lemma unquote_replacement (m : nat) (X : string) :
  unquote_loop (S m) (String backslash "ufffd" ++ X) =
  match unquote_loop m X with
  | Some (d, rest) => Some (EncodeRune RuneError ++ d, rest)
  | None => None
  end.
Proof. rewrite unquote_loop_step. cbv -[unquote_loop]. reflexivity. Qed.

(** Unquoting what string_loop wrote gives the string with its invalid
    bytes replaced. *)
Lemma unquote_string_loop_any (n : nat) :
  forall s : string,
    (String.length s <= n)%nat ->
    forall (m : nat) (rest : string),
      (String.length (string_loop n s) < m)%nat ->
      unquote_loop m (string_loop n s ++ String quote rest) =
      Some (replaceInvalid_loop n s, rest).
Proof.
  induction n as [|n IH]; intros s Hlen m rest Hm.
  { destruct s; [|simpl in Hlen; lia]. simpl. rewrite append_nil.
    destruct m; [simpl in Hm; lia|]. apply unquote_loop_quote. }
  destruct s as [|c s].
  { simpl. rewrite append_nil.
    destruct m; [simpl in Hm; lia|]. apply unquote_loop_quote. }
  simpl in Hlen.
  destruct (Z.lt_ge_cases (byte c) 0x80) as [Hascii|Hrune].
  - rewrite string_loop_ascii in * by done.
    simpl replaceInvalid_loop. unfold RuneSelf.
    destruct (Z.ltb_spec (byte c) 128); [|lia].
    rewrite length_append in Hm.
    assert (Hpiece : (1 <= String.length (asciiPiece c))%nat).
    { unfold asciiPiece. cbv zeta. repeat case_match; simpl; lia. }
    destruct m as [|m]; [lia|].
    rewrite append_assoc, unquote_asciiPiece by done.
    rewrite IH; [done|lia|lia].
  - simpl string_loop in *. simpl replaceInvalid_loop.
    unfold RuneSelf in *.
    destruct (Z.ltb_spec (byte c) 128); [lia|].
    destruct (DecodeRuneInString (String c s)) as [r size] eqn:Hdec.
    destruct ((r =? RuneError) && (size =? 1)%nat) eqn:Herr.
    + apply andb_true_iff in Herr as [_ Hsize]. apply Nat.eqb_eq in Hsize. subst size.
      simpl sliceFrom in *.
      rewrite length_append in Hm. simpl String.length in Hm.
      destruct m as [|m]; [lia|].
      rewrite append_assoc, unquote_replacement.
      rewrite IH; [done|lia|simpl in Hm; lia].
    + assert (Hok : ~ (r = RuneError /\ size = 1%nat)).
      { intros [-> ->]. by rewrite Z.eqb_refl in Herr. }
      destruct (DecodeRuneInString_valid c s r size Hrune Hdec Hok) as (Hsize & Henc & Hpre).
      simpl String.length in Hsize.
      assert (Hrest : (String.length (sliceFrom size (String c s)) <= n)%nat).
      { rewrite length_sliceFrom. simpl. lia. }
      assert (Htake : String.length (sliceTo size (String c s)) = size).
      { apply length_sliceTo. simpl. lia. }
      destruct ((r =? 0x2028) || (r =? 0x2029)) eqn:Hsep.
      * rewrite length_append in Hm. simpl String.length in Hm.
        destruct m as [|m]; [lia|].
        rewrite append_assoc, unquote_separator
          by (apply orb_true_iff in Hsep as [?%Z.eqb_eq|?%Z.eqb_eq]; auto).
        rewrite IH; [|done|].
        -- by rewrite Henc.
        -- simpl in Hm. lia.
      * rewrite length_append, Htake in Hm.
        destruct m as [|m]; [lia|].
        rewrite append_assoc.
        set (Y := string_loop n (sliceFrom size (String c s)) ++ String quote rest).
        assert (Hhead : sliceTo size (String c s) ++ Y =
                        String c (sliceTo (Nat.pred size) s ++ Y)).
        { destruct size as [|k]; [lia|]. done. }
        pose proof (Hpre Y) as HdecY.
        assert (HdropY : sliceFrom size (sliceTo size (String c s) ++ Y) = Y)
          by (by apply sliceFrom_append).
        rewrite Hhead in *. rewrite unquote_rune by done.
        rewrite HdecY, HdropY. subst Y.
        rewrite IH; [|done|lia].
        by rewrite Henc.
Qed.

Lemma unquote_encoded_any (s rest : string) :
  unquote (string_loop (String.length s) s ++ String quote rest) =
  Some (replaceInvalid s, rest).
Proof.
  unfold unquote, replaceInvalid.
  apply unquote_string_loop_any; [done|].
  rewrite length_append. simpl. lia.
Qed.

(** A valid string is kept as it is. *)
Lemma replaceInvalid_loop_valid (n : nat) (s : string) :
  ValidString_loop n s = true -> (String.length s <= n)%nat -> replaceInvalid_loop n s = s.
Proof.
  revert s. induction n as [|n IH]; intros [|c s] Hvalid Hlen; try done.
  { simpl in Hlen. lia. }
  simpl in Hvalid. simpl replaceInvalid_loop. simpl in Hlen.
  destruct (Z.lt_ge_cases (byte c) 0x80) as [Hascii|Hrune].
  - unfold RuneSelf. destruct (Z.ltb_spec (byte c) 128); [|lia].
    rewrite DecodeRuneInString_ascii in Hvalid by done.
    pose proof (byte_range c).
    replace ((byte c =? RuneError) && (1 =? 1)%nat) with false in Hvalid
      by (symmetry; apply andb_false_iff; left; apply Z.eqb_neq; unfold RuneError; lia).
    simpl in Hvalid. rewrite IH; [done|done|lia].
  - unfold RuneSelf. destruct (Z.ltb_spec (byte c) 128); [lia|].
    destruct (DecodeRuneInString (String c s)) as [r size] eqn:Hdec.
    destruct ((r =? RuneError) && (size =? 1)%nat) eqn:Herr; [done|].
    assert (Hok : ~ (r = RuneError /\ size = 1%nat)).
    { intros [-> ->]. by rewrite Z.eqb_refl in Herr. }
    destruct (DecodeRuneInString_valid c s r size Hrune Hdec Hok) as (Hsize & _ & _).
    simpl String.length in Hsize.
    rewrite IH; [by rewrite sliceTo_sliceFrom|done|].
    rewrite length_sliceFrom. simpl. lia.
Qed.

Lemma replaceInvalid_valid (s : string) : ValidString s = true -> replaceInvalid s = s.
Proof. intros H. by apply replaceInvalid_loop_valid. Qed.

End Strings.

Lemma parseValue_encodeString_any (f : nat) (s rest : string) :
  parseValue (S f) (encodeString s ++ rest) = Some (JString (replaceInvalid s), rest).
Proof.
  unfold encodeString.
  rewrite append_cons, append_assoc, append_cons, append_nil.
  rewrite parseValue_step, skipSpace_cons by done. eval_tests.
  by rewrite unquote_encoded_any.
Qed.

Lemma parseValue_marshalAssignedMedia_any (f : nat) (m : AssignedMedia) (rest : string) :
  parseValue (5 + f) (marshalAssignedMedia m ++ rest) =
  Some (JObject [("id", JString (replaceInvalid (ID m)));
                 ("title", JString (replaceInvalid (Title m)));
                 ("status", JString (replaceInvalid (Status m)))], rest).
Proof.
  unfold marshalAssignedMedia.
  rewrite !append_assoc. change (5 + f)%nat with (S (S (S (S (S f))))).
  apply parseValue_object.
  eapply parseMembers_more; [done|by apply parseValue_encodeString_any|].
  eapply parseMembers_more; [done|by apply parseValue_encodeString_any|].
  eapply parseMembers_last; [done|by apply parseValue_encodeString_any].
Qed.

Lemma parseValue_marshalUser_any (f : nat) (u : User) (rest : string) :
  parseValue (9 + f) (marshalUser u ++ rest) =
  Some (JObject
          [("plexUserID", JString (replaceInvalid (PlexUserID u)));
           ("plexUsername", JString (replaceInvalid (Name u)));
           ("assignedMedia",
            JObject [("id", JString (replaceInvalid (ID (Media u))));
                     ("title", JString (replaceInvalid (Title (Media u))));
                     ("status", JString (replaceInvalid (Status (Media u))))]);
           ("stoppingPlayback", JBool (StoppingPlayback u));
           ("playbackIsStopped", JBool (IsPlaybackStopped u));
           ("revokeAccess", JBool (RevokeAccess u));
           ("isFriend", JBool (IsFriend u))], rest).
Proof.
  unfold marshalUser.
  rewrite !append_assoc. change (9 + f)%nat with (S (S (S (S (S (S (S (S (S f))))))))).
  apply parseValue_object.
  eapply parseMembers_more; [done|by apply parseValue_encodeString_any|].
  eapply parseMembers_more; [done|by apply parseValue_encodeString_any|].
  eapply parseMembers_more; [done|by apply (parseValue_marshalAssignedMedia_any f)|].
  eapply parseMembers_more; [done|by apply parseValue_encodeBool|].
  eapply parseMembers_more; [done|by apply parseValue_encodeBool|].
  eapply parseMembers_more; [done|by apply parseValue_encodeBool|].
  eapply parseMembers_last; [done|by apply parseValue_encodeBool].
Qed.

Lemma parseValue_marshalServer_any (f : nat) (s : Server) (rest : string) :
  parseValue (4 + f) (marshalServer s ++ rest) =
  Some (JObject [("name", JString (replaceInvalid (Server_Name s)));
                 ("url", JString (replaceInvalid (Server_URL s)))], rest).
Proof.
  unfold marshalServer.
  rewrite !append_assoc. change (4 + f)%nat with (S (S (S (S f)))).
  apply parseValue_object.
  eapply parseMembers_more; [done|by apply parseValue_encodeString_any|].
  eapply parseMembers_last; [done|by apply parseValue_encodeString_any].
Qed.

(** Unmarshal gives back the user, and the server, that Marshal wrote, with
    the invalid bytes of their strings replaced. *)
Lemma unmarshalUser_marshalUser_any (u : User) :
  unmarshalUser (marshalUser u) = (replaceInvalidUser u, None).
Proof.
  unfold unmarshalUser.
  rewrite (parse_whole _ 9 _ (length_marshalUser u)
             (fun f => parseValue_marshalUser_any f u EmptyString)).
  destruct u as [id name [mid title status] b1 b2 b3 b4]. reflexivity.
Qed.

Lemma unmarshalServer_marshalServer_any (s : Server) :
  unmarshalServer (marshalServer s) = (replaceInvalidServer s, None).
Proof.
  unfold unmarshalServer.
  rewrite (parse_whole _ 4 _ (length_marshalServer s)
             (fun f => parseValue_marshalServer_any f s EmptyString)).
  destruct s as [name url]. reflexivity.
Qed.

Lemma replaceInvalidUser_valid (u : User) : validUser u -> replaceInvalidUser u = u.
Proof.
  intros (H1 & H2 & H3 & H4 & H5). destruct u as [id name [mid title status] b1 b2 b3 b4].
  unfold replaceInvalidUser, replaceInvalidMedia. simpl in *.
  by rewrite !replaceInvalid_valid.
Qed.

Lemma replaceInvalidServer_valid (s : Server) : validServer s -> replaceInvalidServer s = s.
Proof.
  intros (H1 & H2). destruct s as [name url].
  unfold replaceInvalidServer. simpl in *. by rewrite !replaceInvalid_valid.
Qed.

Section Validity.
Local Open Scope Z_scope.

Lemma DecodeRuneInString_replacement (t : string) :
  DecodeRuneInString (EncodeRune RuneError ++ t) = (RuneError, 3%nat).
Proof.
  change (EncodeRune RuneError) with (String (char 0xEF) (String (char 0xBF) (String (char 0xBD) EmptyString))).
  rewrite !append_cons, append_nil.
  unfold DecodeRuneInString. simpl String.length. cbv iota.
  change (byteAt _ 0) with 0xEF. change (byteAt _ 1) with 0xBF. change (byteAt _ 2) with 0xBD.
  simpl Nat.ltb. cbv iota.
  rewrite (decodeRune_seq3 _ 0xEF 0xBF 0xBD); [done| |lia].
  unfold seq3. lia.
Qed.

Lemma ValidString_loop_step (k : nat) (c : ascii) (t : string) :
  ValidString_loop (S k) (String c t) =
  let '(r, size) := DecodeRuneInString (String c t) in
  if (r =? RuneError) && (size =? 1)%nat then false
  else ValidString_loop k (sliceFrom size (String c t)).
Proof. done. Qed.

Lemma replaceInvalid_loop_ValidString (n : nat) :
  forall (s : string) (k : nat),
    (String.length s <= n)%nat ->
    (String.length (replaceInvalid_loop n s) <= k)%nat ->
    ValidString_loop k (replaceInvalid_loop n s) = true.
Proof.
  induction n as [|n IH]; intros s k Hlen Hk.
  { by destruct k. }
  destruct s as [|c s]; [by destruct k|].
  simpl in Hlen. simpl replaceInvalid_loop in *.
  destruct (Z.lt_ge_cases (byte c) 0x80) as [Hascii|Hrune].
  - unfold RuneSelf in *. destruct (Z.ltb_spec (byte c) 128); [|lia].
    simpl in Hk. destruct k as [|k]; [lia|].
    simpl ValidString_loop. rewrite DecodeRuneInString_ascii by done.
    pose proof (byte_range c).
    replace ((byte c =? RuneError) && (1 =? 1)%nat) with false
      by (symmetry; apply andb_false_iff; left; apply Z.eqb_neq; unfold RuneError; lia).
    simpl. apply IH; lia.
  - unfold RuneSelf in *. destruct (Z.ltb_spec (byte c) 128); [lia|].
    destruct (DecodeRuneInString (String c s)) as [r size] eqn:Hdec.
    destruct ((r =? RuneError) && (size =? 1)%nat) eqn:Herr.
    + apply andb_true_iff in Herr as [_ Hsize]. apply Nat.eqb_eq in Hsize. subst size.
      simpl sliceFrom in *.
      set (T := replaceInvalid_loop n s) in *.
      rewrite length_append in Hk. change (String.length (EncodeRune RuneError)) with 3%nat in Hk.
      destruct k as [|k]; [lia|].
      assert (Hcons : exists c0 t0, EncodeRune RuneError ++ T = String c0 t0).
      { change (EncodeRune RuneError) with (String (char 0xEF) (String (char 0xBF) (String (char 0xBD) EmptyString))).
        rewrite append_cons. eauto. }
      destruct Hcons as (c0 & t0 & Hcons).
      rewrite Hcons, ValidString_loop_step, <- Hcons.
      rewrite DecodeRuneInString_replacement. simpl andb. cbv iota.
      rewrite sliceFrom_append by done.
      subst T. apply IH; lia.
    + assert (Hok : ~ (r = RuneError /\ size = 1%nat)).
      { intros [-> ->]. by rewrite Z.eqb_refl in Herr. }
      destruct (DecodeRuneInString_valid c s r size Hrune Hdec Hok) as (Hsize & Henc & Hpre).
      simpl String.length in Hsize.
      assert (Htake : String.length (sliceTo size (String c s)) = size).
      { apply length_sliceTo. simpl. lia. }
      set (T := replaceInvalid_loop n (sliceFrom size (String c s))) in *.
      rewrite length_append, Htake in Hk.
      destruct k as [|k]; [lia|].
      assert (Hcons : exists t0, sliceTo size (String c s) ++ T = String c t0).
      { destruct size as [|j]; [lia|]. simpl. rewrite append_cons. eauto. }
      destruct Hcons as (t0 & Hcons).
      rewrite Hcons, ValidString_loop_step, <- Hcons.
      rewrite Hpre, Herr.
      rewrite sliceFrom_append by done.
      subst T. apply IH; [|lia]. rewrite length_sliceFrom. simpl. lia.
Qed.

Lemma replaceInvalid_ValidString (s : string) : ValidString (replaceInvalid s) = true.
Proof. unfold ValidString, replaceInvalid. by apply replaceInvalid_loop_ValidString. Qed.

End Validity.

End replace_facts.

(** ** The codec of the package, over encoding/json *)

Section Codec.
Import json_facts replace_facts.
#[local] Existing Instance goJSON.

(** C9, as the code has it.  For every user and every server whose strings
    are valid UTF-8, empty strings and false booleans included, Serialize
    returns no error and Unserialize gives the value back with no error.
    Bytes that are not a JSON text fail to decode with a syntax error, and
    bytes that decode without error begin, after white space, with an
    opening brace or with the n of null.  For every user and every server,
    valid UTF-8 or not, Unserialize of what Serialize wrote returns no
    error and the value with each byte of its string fields that does not
    begin a valid UTF-8 encoding replaced by U+FFFD, the booleans as they
    are; replacing leaves a string that is valid UTF-8 as it is, and puts
    the three bytes of U+FFFD for a byte that does not begin a valid
    encoding. *)
Theorem codec_round_trip (u : User) (v : Server) (data : bytes) :
  (gojson.validUser u -> UnserializeUser (fst (User_Serialize u)) = (u, None)) /\
  (gojson.validServer v -> UnserializeServer (fst (Server_Serialize v)) = (v, None)) /\
  snd (User_Serialize u) = None /\
  snd (Server_Serialize v) = None /\
  (json.parse data = None ->
   exists msg, snd (UnserializeUser data) = Some (SyntaxError msg) /\
               snd (UnserializeServer data) = Some (SyntaxError msg)) /\
  (snd (UnserializeUser data) = None \/ snd (UnserializeServer data) = None ->
   exists c rest, json.skipSpace data = String c rest /\
                  (c = "{"%char \/ c = "n"%char)) /\
  UnserializeUser (fst (User_Serialize u)) = (replaceInvalidUser u, None) /\
  UnserializeServer (fst (Server_Serialize v)) = (replaceInvalidServer v, None) /\
  (forall str : string, utf8.ValidString str = true -> replaceInvalid str = str) /\
  (forall (c : ascii) (rest : string),
      (utf8.RuneSelf <= byte c)%Z ->
      utf8.DecodeRuneInString (String c rest) = (utf8.RuneError, 1%nat) ->
      replaceInvalid (String c rest) =
      utf8.EncodeRune utf8.RuneError ++ replaceInvalid rest) /\
  (forall (c : ascii) (rest : string),
      (byte c < utf8.RuneSelf)%Z ->
      replaceInvalid (String c rest) = String c (replaceInvalid rest)).
Proof.
  unfold UnserializeUser, UnserializeServer, User_Serialize, Server_Serialize. simpl.
  split; [apply unmarshalUser_marshalUser|].
  split; [apply unmarshalServer_marshalServer|].
  split; [done|]. split; [done|]. split; [|split; [|split; [|split; [|split; [|split]]]]].
  - intros Hp. exists "invalid JSON input".
    unfold gojson.unmarshalUser, gojson.unmarshalServer. by rewrite Hp.
  - intros [H|H].
    + by apply unmarshalUser_first_byte.
    + by apply unmarshalServer_first_byte.
  - apply unmarshalUser_marshalUser_any.
  - apply unmarshalServer_marshalServer_any.
  - apply replaceInvalid_valid.
  - intros c rest Hc Hdec. unfold replaceInvalid. simpl String.length.
    cbn [replaceInvalid_loop]. rewrite Hdec.
    destruct (Z.ltb_spec (byte c) utf8.RuneSelf) as [Hlt|_]; [lia|].
    by rewrite Z.eqb_refl.
  - intros c rest Hc. unfold replaceInvalid. simpl String.length.
    cbn [replaceInvalid_loop].
    by destruct (Z.ltb_spec (byte c) utf8.RuneSelf) as [_|Hge]; [|lia].
Qed.

End Codec.

(** C9 fails on a string that is not UTF-8: json.Marshal writes the byte
    0xFF as the escape of U+FFFD, and Unmarshal reads the three bytes of
    U+FFFD back. *)
Lemma codec_round_trip_invalid_utf8 :
  UnserializeUser (json := goJSON) (fst (User_Serialize (json := goJSON) latin1User))
  <> (latin1User, None).
Proof. vm_compute. discriminate. Qed.

(** C9 on a user with escaped and multi-byte characters, on the zero user
    and the zero server, on a truncated text, and on the user whose name is
    the byte 0xFF, which comes back as the three bytes of U+FFFD. *)
Lemma codec_round_trip_witness :
  (gojson.validUser sampleUser /\
   UnserializeUser (json := goJSON) (fst (User_Serialize (json := goJSON) sampleUser))
   = (sampleUser, None)) /\
  (gojson.validUser zeroUser /\
   UnserializeUser (json := goJSON) (fst (User_Serialize (json := goJSON) zeroUser))
   = (zeroUser, None)) /\
  (gojson.validServer zeroServer /\
   UnserializeServer (json := goJSON) (fst (Server_Serialize (json := goJSON) zeroServer))
   = (zeroServer, None)) /\
  (json.parse "{" = None /\
   exists msg, snd (UnserializeUser (json := goJSON) "{") = Some (SyntaxError msg)) /\
  ((utf8.RuneSelf <= byte (char 255))%Z /\
   utf8.DecodeRuneInString (String (char 255) EmptyString) = (utf8.RuneError, 1%nat) /\
   UnserializeUser (json := goJSON) (fst (User_Serialize (json := goJSON) latin1User))
   = (replaceInvalidUser latin1User, None) /\
   Name (replaceInvalidUser latin1User)
   = String (char 239) (String (char 191) (String (char 189) EmptyString))).
Proof.
  assert (Vu : gojson.validUser sampleUser) by (repeat split; vm_compute; reflexivity).
  assert (Vz : gojson.validUser zeroUser) by (repeat split; vm_compute; reflexivity).
  assert (Vs : gojson.validServer zeroServer) by (repeat split; vm_compute; reflexivity).
  assert (Hp : json.parse "{" = None) by (vm_compute; reflexivity).
  assert (Hc : (utf8.RuneSelf <= byte (char 255))%Z) by (vm_compute; discriminate).
  assert (Hd : utf8.DecodeRuneInString (String (char 255) EmptyString)
               = (utf8.RuneError, 1%nat)) by (vm_compute; reflexivity).
  split; [split; [exact Vu|]|split; [split; [exact Vz|]|split; [split; [exact Vs|]|
    split; [split; [exact Hp|]|split; [exact Hc|split; [exact Hd|split]]]]]].
  - exact (proj1 (codec_round_trip sampleUser zeroServer "{") Vu).
  - exact (proj1 (codec_round_trip zeroUser zeroServer "{") Vz).
  - exact (proj1 (proj2 (codec_round_trip zeroUser zeroServer "{")) Vs).
  - destruct (proj1 (proj2 (proj2 (proj2 (proj2 (codec_round_trip zeroUser zeroServer "{"))))) Hp)
      as (msg & Hmsg & _).
    by exists msg.
  - exact (proj1 (proj2 (proj2 (proj2 (proj2 (proj2 (proj2
             (codec_round_trip latin1User zeroServer "{")))))))).
  - destruct (codec_round_trip latin1User zeroServer "{")
      as (_ & _ & _ & _ & _ & _ & _ & _ & _ & Hbyte & _).
    exact (Hbyte (char 255) EmptyString Hc Hd).
Defined.

(** ** GetAllUsers *)

Section Scan.
Context {json : JSON}.

(** Seek drops the pairs whose key is below the prefix, up to the first key
    that is not. *)
Lemma seek_suffix (prefix : string) (l : KV) :
  exists below : KV,
    l = (below ++ seek prefix l)%list /\
    Forall (fun kv => String.ltb (fst kv) prefix = true) below.
Proof.
  induction l as [|[k v] r (below & Hl & Hbelow)]; simpl.
  - by exists [].
  - destruct (String.ltb k prefix) eqn:Hk.
    + exists ((k, v) :: below). split; [by rewrite Hl at 1|]. by constructor.
    + by exists [].
Qed.

Lemma GetAllUsers_loop_visits (it : KV) (users : gmap string User) (w : World) :
  snd (fst (GetAllUsers_loop it users w)) = None ->
  stdout (snd (GetAllUsers_loop it users w)) = (stdout w ++ map fst it)%list.
Proof.
  revert users w. induction it as [|[k v] rest IH]; intros users w; simpl.
  - by rewrite app_nil_r.
  - unfold_M. simpl.
    destruct (UnserializeUser v) as [user [err|]]; simpl; [done|].
    intros Hok. rewrite (IH _ _ Hok). simpl. by rewrite <- app_assoc.
Qed.

(** When GetAllUsers returns no error it has visited every pair from the
    first key that is not below the prefix to the last key of the engine,
    whether the key has the prefix or not. *)
Lemma GetAllUsers_visits_to_the_end (s : Store) (w : World) :
  snd (fst (GetAllUsers s w)) = None ->
  stdout (snd (GetAllUsers s w)) =
  (stdout w ++ map fst (seek (userPrefix (keys s)) (disk w)))%list.
Proof.
  unfold GetAllUsers. unfold_M. simpl.
  pose proof (GetAllUsers_loop_visits (seek (userPrefix (keys s)) (disk w)) ∅
                (set_txn false [] w)) as Hloop.
  unfold set_txn in Hloop.
  destruct (GetAllUsers_loop _ _ _) as [[users err] w1]. simpl in *.
  intros Hok. by apply Hloop.
Qed.

End Scan.

(** C2, as the code has it.  The loop of GetAllUsers goes on while the
    iterator is valid, not while the key has the prefix: on this store the
    key "users", which does not begin with "user-", is scanned too and its
    record is returned among the users.  The server identity, whose key is
    below the prefix, is not scanned. *)
Theorem GetAllUsers_scans_past_prefix :
  let w := startWorld ∅ diskWithUsersKey in
  String.prefix "user-" "users" = false /\
  map fst diskWithUsersKey = ["plex-server"; "user-1"; "users"] /\
  fst (GetAllUsers (json := goJSON) openStore w) =
    (<["ghost" := ghostUser]> (<["1" := user1]> ∅), None) /\
  stdout (snd (GetAllUsers (json := goJSON) openStore w)) = ["user-1"; "users"].
Proof. vm_compute. done. Qed.

(** ** The cipher used on concrete inputs meets its contract *)

Lemma sliceTo_append (s t : string) : sliceTo (String.length s) (s ++ t) = s.
Proof.
  induction s as [|c s IH].
  - by destruct t.
  - change (String c s ++ t) with (String c (s ++ t)). simpl. by rewrite IH.
Qed.

Lemma toyCipher_laws : CipherLaws toyCipher.
Proof.
  split; cbv [encrypt decrypt toyCipher].
  - intros secret token hash.
    destruct (Nat.eqb_spec (String.length secret) 32) as [Hlen|]; [|done].
    intros [= <-].
    assert (Hto : sliceTo 32 (secret ++ token) = secret)
      by (rewrite <- Hlen; apply sliceTo_append).
    rewrite Hto, String.eqb_refl. cbv [andb].
    by rewrite json_facts.sliceFrom_append.
  - intros secret secret' token hash.
    destruct (Nat.eqb_spec (String.length secret) 32) as [Hlen|]; [|done].
    intros [= <-] Hne.
    assert (Hto : sliceTo 32 (secret ++ token) = secret)
      by (rewrite <- Hlen; apply sliceTo_append).
    rewrite Hto.
    destruct (String.eqb_spec secret secret') as [->|_]; [done|].
    rewrite andb_false_r. eauto.
Qed.

(** ** The claims on concrete inputs *)

(** C1 on two users followed by an entry that fails to serialize, on an
    empty store, and on the two users alone: the first batch returns the
    error of the serialization and writes nothing, the second returns nil
    and both users hold a record. *)
Lemma SaveUsers_all_or_nothing_witness :
  let w := startWorld ∅ [] in
  let w' := snd (SaveUsers (engine := plainEngine) (json := strictJSON) openStore
                   [userA; userB; malformedUser] w) in
  let ok := SaveUsers (engine := plainEngine) (json := strictJSON) openStore
              [userA; userB] w in
  disk w' = [] /\
  fst (GetUser (json := strictJSON) openStore "A" w') = (zeroUser, Some ErrKeyNotFound) /\
  fst (SaveUsers (engine := plainEngine) (json := strictJSON) openStore
         [userA; userB; malformedUser] w)
  = snd (User_Serialize (json := strictJSON) malformedUser) /\
  snd (User_Serialize (json := strictJSON) malformedUser) <> None /\
  fst ok = None /\
  disk (snd ok)
  = [("user-A", fst (User_Serialize (json := strictJSON) userA));
     ("user-B", fst (User_Serialize (json := strictJSON) userB))] /\
  kv_get "user-A" (disk (snd ok)) <> None /\
  kv_get "user-B" (disk (snd ok)) <> None.
Proof.
  intros w w' ok.
  destruct (SaveUsers_all_or_nothing (engine := plainEngine) (json := strictJSON)
              openStore [userA; userB; malformedUser] w)
    as (Herr & _ & _ & Hkeep & _ & _ & Hget).
  destruct (SaveUsers_all_or_nothing (engine := plainEngine) (json := strictJSON)
              openStore [userA; userB] w)
    as (Hnil & Hheld & _ & _ & Hwritten & _ & _).
  assert (Hok : fst ok = None) by exact Hnil.
  refine (conj _ (conj _ (conj _ (conj _ (conj Hok (conj _ (conj _ _))))))).
  - apply Hkeep. vm_compute. discriminate.
  - apply (Hget [userA; userB] malformedUser userA).
    + reflexivity.
    + vm_compute. discriminate.
    + left. reflexivity.
    + reflexivity.
  - exact Herr.
  - vm_compute. discriminate.
  - exact (Hwritten Hok).
  - apply (Hheld Hok userA). left. reflexivity.
  - apply (Hheld Hok userB). right. left. reflexivity.
Defined.

(** C3 on a token saved under one secret and read under another. *)
Lemma token_confidentiality_witness :
  let s := withSecret openStore secret32 in
  let w := startWorld ∅ [] in
  let w' := snd (SavePlexToken (engine := plainEngine) (cipher := toyCipher) s "tok3n" w) in
  fst (GetPlexToken (cipher := toyCipher) s w') = ("tok3n", None) /\
  exists msg, fst (GetPlexToken (cipher := toyCipher) (withSecret s other32) w')
              = (EmptyString, Some (DecryptionError msg)).
Proof.
  intros s w w'.
  destruct (token_confidentiality (engine := plainEngine) (laws := toyCipher_laws)
              s "tok3n" w) as (Hok & _).
  destruct (Hok eq_refl) as (Hsame & Hother & _).
  split; [exact Hsame|].
  apply (Hother other32). discriminate.
Defined.

(** C4 on the store that InitDataStore opens. *)
Lemma key_namespace_collision_free_witness :
  InitDataStore (engine := plainEngine) "data" true (startWorld ∅ []) =
    ((openStore, None),
     snd (InitDataStore (engine := plainEngine) "data" true (startWorld ∅ []))) /\
  userKey openStore "1" <> userKey openStore "2" /\
  userKey openStore "s" <> allUsers (keys openStore).
Proof.
  assert (Hr : InitDataStore (engine := plainEngine) "data" true (startWorld ∅ []) =
               ((openStore, None),
                snd (InitDataStore (engine := plainEngine) "data" true (startWorld ∅ []))))
    by (vm_compute; reflexivity).
  destruct (key_namespace_collision_free (engine := plainEngine) _ _ _ _ _ Hr)
    as (Hdistinct & Hfixed & _).
  split; [exact Hr|]. split.
  - apply Hdistinct. discriminate.
  - apply (Hfixed "s").
Defined.

(** C5 on three ids: one present, one whose key the engine refuses, one
    absent. *)
Lemma DeleteUsers_best_effort_witness :
  let w := startWorld ∅ [("user-X", "{}")] in
  let r := DeleteUsers (engine := boundedEngine 10) openStore
             ["X"; "an-id-that-is-too-long"; "Y"] w in
  fst r = None /\
  kv_get "user-X" (disk (snd r)) = None /\
  stdout (snd r) =
    ["failed to delete user id an-id-that-is-too-long: Key exceeds the size limit"].
Proof.
  intros w r.
  destruct (DeleteUsers_best_effort (engine := boundedEngine 10) openStore
              ["X"; "an-id-that-is-too-long"; "Y"] w)
    as (_ & Herr & _ & Hout & Hgone).
  split; [exact Herr|]. split.
  - apply (Hgone Herr "X"). left. reflexivity.
  - exact Hout.
Defined.

(** C10 on a session that opens the store with [_isVerbose = true]. *)
Lemma verbose_flag_is_inert_witness :
  let w := startWorld ∅ [] in
  isVerbose (snd (InitDataStore (engine := plainEngine) "data" true w)) = false /\
  isVerbose
    (snd (run (engine := plainEngine) (json := goJSON) (pins := textPin)
              (cipher := toyCipher)
              [CallInitDataStore "data" true; AssignSecret secret32;
               CallSavePlexToken "tok3n"; CallGetPlexToken; CallSaveUser userA;
               CallGetAllUsers; CallClose_]
              zeroStore w)) = false.
Proof.
  intros w.
  destruct (verbose_flag_is_inert (engine := plainEngine) (json := goJSON)
              (pins := textPin) (cipher := toyCipher) "data" true w)
    as (_ & Hinit & Hrun).
  split.
  - apply Hinit. reflexivity.
  - apply Hrun. reflexivity.
Defined.

(** * Further properties of the store *)

(** ** Opening the store *)

Section Opening.
Context {engine : Engine}.

Ltac init_cases dirName v w :=
  unfold InitDataStore; unfold_M; simpl;
  let Hv := fresh "Hv" in
  let Hd := fresh "Hd" in
  destruct (isVerbose w) eqn:Hv; destruct v; simpl; rewrite ?Hv; simpl;
  (destruct (bool_decide (dirName ∉ dirs w)) eqn:Hd;
   [apply bool_decide_eq_true_1 in Hd|apply bool_decide_eq_false_1 in Hd]);
  simpl; rewrite ?Hv; simpl;
  try (destruct (mkdirError dirName) eqn:?; simpl; rewrite ?Hv; simpl);
  destruct (openError dirName) eqn:?; simpl; rewrite ?Hv; simpl.

(** X1. InitDataStore returns a nil error together with the open handle
    (the six keys, not closed, no secret), or an error together with the
    zero Store.  On a directory that exists Mkdir is not called and the
    error is that of badger.Open; on a directory that does not exist the
    error of Mkdir comes first and Open is then not attempted. *)
Theorem InitDataStore_outcome (dirName : string) (v : bool) (w : World) :
  let r := fst (InitDataStore dirName v w) in
  (snd r = None -> fst r = openStore) /\
  (snd r <> None -> fst r = zeroStore) /\
  (dirName ∈ dirs w -> snd r = openError dirName) /\
  (dirName ∉ dirs w ->
   snd r = match mkdirError dirName with
           | Some e => Some e
           | None => openError dirName
           end).
Proof.
  cbv zeta. init_cases dirName v w.
  all: repeat split; try done; congruence.
Qed.

(** X2. InitDataStore does not touch the engine: the committed pairs and
    the calls made on the engine are as before.  It creates the directory
    when it is missing and Mkdir succeeds, and leaves it in place when Open
    fails afterwards.  After a nil error the directory exists.  The flag
    can only be lowered: it is set afterwards only when it was set before
    and [_isVerbose] is true. *)
Theorem InitDataStore_world (dirName : string) (v : bool) (w : World) :
  let r := fst (InitDataStore dirName v w) in
  let w' := snd (InitDataStore dirName v w) in
  disk w' = disk w /\ calls w' = calls w /\ pending w' = pending w /\
  dirs w' = (if bool_decide (dirName ∉ dirs w)
             then match mkdirError dirName with
                  | Some _ => dirs w
                  | None => {[dirName]} ∪ dirs w
                  end
             else dirs w) /\
  isVerbose w' = isVerbose w && v /\
  (snd r = None -> dirName ∈ dirs w').
Proof.
  cbv zeta. init_cases dirName v w.
  all: repeat split; try done.
  all: try (rewrite bool_decide_eq_true_2 by done; done).
  all: try (rewrite bool_decide_eq_false_2 by done; done).
  all: try set_solver.
  all: try (intros _; by apply dec_stable).
Qed.

End Opening.

(** X1 on a directory that does not exist, with an engine whose Open fails. *)
Lemma InitDataStore_outcome_witness :
  let failing : Engine :=
    {| rejectWrite := fun _ _ => None; rejectCommit := fun _ => None;
       closeError := fun _ => None; mkdirError := fun _ => None;
       openError := fun _ => Some (EngineError "Cannot acquire directory lock") |} in
  let w := startWorld ∅ [] in
  ("data" ∉ dirs w) /\
  fst (InitDataStore (engine := failing) "data" false w) =
    (zeroStore, Some (EngineError "Cannot acquire directory lock")) /\
  fst (fst (InitDataStore (engine := plainEngine) "data" false w)) = openStore.
Proof.
  intros failing w.
  assert (Hmissing : "data" ∉ dirs w) by set_solver.
  destruct (InitDataStore_outcome (engine := failing) "data" false w)
    as (_ & Hzero & _ & Herr).
  destruct (InitDataStore_outcome (engine := plainEngine) "data" false w)
    as (Hopen & _ & _ & Hok).
  specialize (Herr Hmissing). specialize (Hok Hmissing). simpl in Herr, Hok.
  split; [exact Hmissing|]. split.
  - apply injective_projections; [|exact Herr].
    apply Hzero. rewrite Herr. discriminate.
  - apply Hopen. exact Hok.
Defined.

(** X2 on a directory that does not exist. *)
Lemma InitDataStore_world_witness :
  let w := startWorld ∅ [("app-secret", "s3cret")] in
  let r := InitDataStore (engine := plainEngine) "data" true w in
  snd (fst r) = None /\
  ("data" ∈ dirs (snd r)) /\
  disk (snd r) = [("app-secret", "s3cret")] /\
  isVerbose (snd r) = false.
Proof.
  intros w r.
  destruct (InitDataStore_world (engine := plainEngine) "data" true w)
    as (Hdisk & _ & _ & _ & Hflag & Hdir).
  assert (Hok : snd (fst r) = None) by reflexivity.
  split; [exact Hok|]. split; [exact (Hdir Hok)|]. split; [exact Hdisk|exact Hflag].
Defined.

(** ** Closing the store, once more *)

Section Closing.
Context {engine : Engine}.

(** X3. Close leaves the committed pairs, the directories and the flag as
    they are and returns nothing.  On a handle marked as closed it prints
    that the store is already closed and makes no call on the engine.  On
    any other handle it calls the engine's Close once; an error of that
    call is printed, not returned, and in verbose mode the line that the
    datastore is closed is printed even when the engine's Close failed. *)
Theorem Close_reports_on_stdout (s : Store) (w : World) :
  db s = dbEngine ->
  let w' := snd (Close s w) in
  disk w' = disk w /\
  dirs w' = dirs w /\
  isVerbose w' = isVerbose w /\
  (isClosed s = true ->
   calls w' = calls w /\
   stdout w' = (stdout w ++ ["datastore already closed"])%list) /\
  (isClosed s = false ->
   calls w' = (calls w ++ [CallClose])%list /\
   stdout w' =
     (stdout w ++
      match closeError (calls w) with
      | Some e => [("datastore failed to closed: " ++ Error_text e)%string]
      | None => []
      end ++
      (if isVerbose w then ["datastore is closed"] else []))%list).
Proof.
  intros _. cbv zeta. unfold Close, Close_body.
  destruct (isClosed s); unfold_M; simpl.
  - repeat split; done.
  - destruct (closeError (calls w)) as [e|]; simpl; destruct (isVerbose w); simpl;
      rewrite ?app_nil_r, <- ?app_assoc; repeat split; done.
Qed.

End Closing.

(** X3 on an engine whose Close fails. *)
Lemma Close_reports_on_stdout_witness :
  let failing : Engine :=
    {| rejectWrite := fun _ _ => None; rejectCommit := fun _ => None;
       closeError := fun _ => Some (EngineError "sync failed");
       mkdirError := fun _ => None; openError := fun _ => None |} in
  let w := startWorld ∅ [("app-secret", "s3cret")] in
  db openStore = dbEngine /\
  stdout (snd (Close (engine := failing) openStore w)) =
    ["datastore failed to closed: sync failed"] /\
  disk (snd (Close (engine := failing) openStore w)) = [("app-secret", "s3cret")].
Proof.
  intros failing w.
  destruct (Close_reports_on_stdout (engine := failing) openStore w eq_refl)
    as (Hdisk & _ & _ & _ & Hopen).
  destruct (Hopen eq_refl) as [_ Hout].
  split; [reflexivity|]. split; [exact Hout|exact Hdisk].
Defined.

(** ** More on the committed pairs *)

Lemma apply_entries_app (es1 es2 : list Entry) (l : KV) :
  apply_entries (es1 ++ es2) l = apply_entries es2 (apply_entries es1 l).
Proof. unfold apply_entries. apply fold_left_app. Qed.

(** A key that no entry names keeps its value. *)
Lemma apply_entries_frame (k : string) (es : list Entry) (l : KV) :
  Forall (fun e => eKey e <> k) es ->
  kv_get k (apply_entries es l) = kv_get k l.
Proof.
  revert l. induction es as [|e es IH]; intros l Hall; simpl; [done|].
  inversion Hall as [|? ? He Hes]; subst.
  rewrite IH by done. unfold apply_entry.
  destruct (eValue e).
  - apply kv_get_set_ne. congruence.
  - apply kv_get_delete_ne. congruence.
Qed.

(** The last value set for a key is the one read. *)
Lemma apply_entries_last_set (k v : string) (es1 es2 : list Entry) (l : KV) :
  Forall (fun e => eKey e <> k) es2 ->
  kv_get k (apply_entries (es1 ++ mkEntry k (Some v) :: es2) l) = Some v.
Proof.
  intros Hlater. rewrite apply_entries_app. simpl.
  rewrite apply_entries_frame by done.
  unfold apply_entry. simpl. apply kv_get_set_eq.
Qed.

Lemma kv_delete_set (k v : string) (l : KV) :
  kv_delete k (kv_set k v l) = kv_delete k l.
Proof.
  induction l as [|[k' v'] r IH]; simpl.
  - by rewrite String.eqb_refl.
  - destruct (String.compare k k') eqn:Hc; simpl.
    + apply String.compare_eq_iff in Hc. subst k'. by rewrite String.eqb_refl.
    + by rewrite String.eqb_refl.
    + by rewrite IH.
Qed.

Lemma kv_get_In (k v : string) (l : KV) : kv_get k l = Some v -> In (k, v) l.
Proof.
  induction l as [|[k' v'] r IH]; simpl; [done|].
  destruct (String.eqb_spec k k') as [->|Hne].
  - intros [= ->]. by left.
  - intros H. right. by apply IH.
Qed.

(** ** What each call reads and writes *)

Ltac open_op :=
  unfold SaveSecret, SavePlexToken, SavePlexPin, ClearPlexPin, SavePlexServer, SaveUser,
    DeleteUser, GetSecret, GetPlexToken, GetPlexPin, GetPlexServer, GetUser,
    userKey in *;
  unfold_M; simpl in *.

Section Effects.
Context {engine : Engine} {json : JSON} {pins : PlexPin} {cipher : Cipher}.

Lemma userKey_inj (s : Store) (id1 id2 : string) :
  userKey s id1 = userKey s id2 -> id1 = id2.
Proof. apply String.app_inj. Qed.

Lemma DeleteUsers_disk (s : Store) (userIDs : list string) (w : World) :
  disk (snd (DeleteUsers s userIDs w)) =
  match fst (DeleteUsers s userIDs w) with
  | Some _ => disk w
  | None =>
      apply_entries (map (delete_entry s) (succeeded (delete_outcomes s [] userIDs)))
                    (disk w)
  end.
Proof.
  unfold DeleteUsers, db_Update.
  pose proof (DeleteUsers_loop_spec s userIDs (set_txn true [] w) eq_refl) as Hloop.
  cbv zeta in Hloop. simpl in Hloop.
  destruct (DeleteUsers_loop s userIDs (set_txn true [] w)) as [e w1] eqn:Hrun.
  simpl in Hloop. destruct Hloop as (-> & Hdisk & Hcalls & Hpend & Hout).
  rewrite Hpend.
  destruct (rejectCommit _) as [e|] eqn:Hc; simpl; by rewrite ?Hdisk.
Qed.

Lemma SaveUsers_disk (s : Store) (users : list User) (w : World) :
  disk (snd (SaveUsers s users w)) =
  match fst (SaveUsers s users w) with
  | Some _ => disk w
  | None => apply_entries (map (save_entry s) users) (disk w)
  end.
Proof.
  unfold SaveUsers, db_Update.
  pose proof (SaveUsers_loop_spec s users (set_txn true [] w) eq_refl) as Hloop.
  cbv zeta in Hloop. simpl in Hloop.
  destruct (SaveUsers_loop s users (set_txn true [] w)) as [e w1] eqn:Hrun.
  simpl in Hloop. destruct Hloop as (Hfst & Hdisk & Hcalls & Hpend).
  destruct e as [e|]; simpl; [done|].
  rewrite (Hpend eq_refl). simpl.
  destruct (rejectCommit _) as [e|] eqn:Hc; simpl; by rewrite ?Hdisk.
Qed.

Lemma succeeded_in (s : Store) (es : list Entry) (userIDs : list string) (id : string) :
  In id (succeeded (delete_outcomes s es userIDs)) -> In id userIDs.
Proof.
  revert es. induction userIDs as [|i rest IH]; intros es; simpl; [done|].
  destruct (rejectWrite es _); simpl.
  - intros H. right. by apply (IH es).
  - intros [->|H]; [by left|]. right. by apply (IH _ H).
Qed.

Lemma GetAllUsers_loop_world (it : KV) (users : gmap string User) (w : World) :
  let w' := snd (GetAllUsers_loop it users w) in
  disk w' = disk w /\ calls w' = calls w /\ dirs w' = dirs w /\ isVerbose w' = isVerbose w.
Proof.
  revert users w. induction it as [|[k v] rest IH]; intros users w; simpl; [done|].
  unfold_M. simpl.
  destruct (UnserializeUser v) as [user [err|]]; simpl; [done|].
  match goal with |- context [GetAllUsers_loop rest ?m ?w1] =>
    destruct (IH m w1) as (H1 & H2 & H3 & H4) end.
  by rewrite H1, H2, H3, H4.
Qed.

(** X4. The six functions that read leave the committed pairs and the
    directories as they are, and each makes exactly one View call on the
    engine. *)
Theorem reads_leave_store_untouched (s : Store) (id : string) (w : World) :
  db s = dbEngine ->
  let untouched {A : Type} (m : M A) :=
    disk (snd (m w)) = disk w /\
    calls (snd (m w)) = (calls w ++ [CallView])%list /\
    dirs (snd (m w)) = dirs w in
  untouched (GetSecret s) /\
  untouched (GetPlexToken s) /\
  untouched (GetPlexPin s) /\
  untouched (GetPlexServer s) /\
  untouched (GetUser s id) /\
  untouched (GetAllUsers s).
Proof.
  intros _. cbv zeta.
  split; [|split; [|split; [|split; [|split]]]].
  6: { unfold GetAllUsers. unfold_M. simpl.
       match goal with |- context [GetAllUsers_loop ?it ?m ?w1] =>
         destruct (GetAllUsers_loop_world it m w1) as (H1 & H2 & H3 & H4);
         destruct (GetAllUsers_loop it m w1) as [r w2] end.
       simpl in *. by rewrite H1, H2, H3. }
  all: open_op; destruct (kv_get _ (disk w)); simpl; try done.
  all: repeat case_match; simplify_eq; simpl; done.
Qed.

(** X5. A getter whose key is absent returns the zero value of its type
    with ErrKeyNotFound.  Whenever GetPlexToken, GetPlexPin, GetPlexServer
    or GetUser returns an error, the value it returns is the zero value: a
    record that fails to decode is not returned in part. *)
Theorem getters_fail_with_zero_value (s : Store) (id : string) (w : World) :
  db s = dbEngine ->
  ((kv_get (plexToken (keys s)) (disk w) = None ->
    fst (GetPlexToken s w) = ("", Some ErrKeyNotFound)) /\
   (kv_get (plexPin (keys s)) (disk w) = None ->
    fst (GetPlexPin s w) = (zeroPin, Some ErrKeyNotFound)) /\
   (kv_get (plexServer (keys s)) (disk w) = None ->
    fst (GetPlexServer s w) = (zeroServer, Some ErrKeyNotFound)) /\
   (kv_get (userKey s id) (disk w) = None ->
    fst (GetUser s id w) = (zeroUser, Some ErrKeyNotFound))) /\
  ((snd (fst (GetPlexToken s w)) <> None -> fst (fst (GetPlexToken s w)) = "") /\
   (snd (fst (GetPlexPin s w)) <> None -> fst (fst (GetPlexPin s w)) = zeroPin) /\
   (snd (fst (GetPlexServer s w)) <> None -> fst (fst (GetPlexServer s w)) = zeroServer) /\
   (snd (fst (GetUser s id w)) <> None -> fst (fst (GetUser s id w)) = zeroUser)).
Proof.
  intros _. split.
  - repeat split; open_op; by intros ->.
  - repeat split; open_op; destruct (kv_get _ (disk w)); simpl; try done.
    all: repeat case_match; simplify_eq; simpl; done.
Qed.

(** X6. A write that returns an error changes nothing: after SaveSecret,
    SavePlexToken, SavePlexPin, ClearPlexPin, SavePlexServer, SaveUser,
    DeleteUser or DeleteUsers has returned an error, the committed pairs
    are those before the call. *)
Theorem failed_write_changes_nothing
    (s : Store) (secret : bytes) (token : string) (pin : PinResponse) (srv : Server)
    (user : User) (id : string) (userIDs : list string) (w : World) :
  db s = dbEngine ->
  let atomic (m : M (option Error)) := fst (m w) <> None -> disk (snd (m w)) = disk w in
  atomic (SaveSecret s secret) /\
  atomic (SavePlexToken s token) /\
  atomic (SavePlexPin s pin) /\
  atomic (ClearPlexPin s) /\
  atomic (SavePlexServer s srv) /\
  atomic (SaveUser s user) /\
  atomic (DeleteUser s id) /\
  atomic (DeleteUsers s userIDs).
Proof.
  intros _. cbv zeta.
  repeat split.
  8: { intros Herr. rewrite DeleteUsers_disk. by destruct (fst (DeleteUsers s userIDs w)). }
  all: open_op; repeat case_match; simplify_eq; simpl in *; try done.
Qed.

Lemma SaveSecret_frame (s : Store) (secret k : bytes) (w : World) :
  k <> appSecret (keys s) ->
  kv_get k (disk (snd (SaveSecret s secret w))) = kv_get k (disk w).
Proof.
  intros Hk. unfold SaveSecret, txn_Set. rewrite db_Update_write. simpl.
  case_bool_decide; [|done]. by apply kv_get_set_ne.
Qed.

Lemma SavePlexToken_frame (s : Store) (token : string) (k : bytes) (w : World) :
  k <> plexToken (keys s) ->
  kv_get k (disk (snd (SavePlexToken s token w))) = kv_get k (disk w).
Proof.
  intros Hk. open_op. repeat case_match; simplify_eq; simpl in *; try done.
  all: by apply kv_get_set_ne.
Qed.

Lemma SavePlexPin_frame (s : Store) (pin : PinResponse) (k : bytes) (w : World) :
  k <> plexPin (keys s) ->
  kv_get k (disk (snd (SavePlexPin s pin w))) = kv_get k (disk w).
Proof.
  intros Hk. unfold SavePlexPin. destruct (marshalPin pin) as [b [e|]]; [done|].
  unfold txn_Set. rewrite db_Update_write. simpl.
  case_bool_decide; [|done]. by apply kv_get_set_ne.
Qed.

Lemma ClearPlexPin_frame (s : Store) (k : bytes) (w : World) :
  k <> plexPin (keys s) ->
  kv_get k (disk (snd (ClearPlexPin s w))) = kv_get k (disk w).
Proof.
  intros Hk. unfold ClearPlexPin, txn_Delete. rewrite db_Update_write. simpl.
  case_bool_decide; [|done]. by apply kv_get_delete_ne.
Qed.

Lemma SavePlexServer_frame (s : Store) (srv : Server) (k : bytes) (w : World) :
  k <> plexServer (keys s) ->
  kv_get k (disk (snd (SavePlexServer s srv w))) = kv_get k (disk w).
Proof.
  intros Hk. unfold SavePlexServer. destruct (Server_Serialize srv) as [b [e|]]; [done|].
  unfold txn_Set. rewrite db_Update_write. simpl.
  case_bool_decide; [|done]. by apply kv_get_set_ne.
Qed.

Lemma SaveUser_frame (s : Store) (user : User) (k : bytes) (w : World) :
  k <> userKey s (PlexUserID user) ->
  kv_get k (disk (snd (SaveUser s user w))) = kv_get k (disk w).
Proof.
  intros Hk. unfold SaveUser. cbv zeta.
  destruct (User_Serialize user) as [b [e|]]; [done|].
  unfold txn_Set. rewrite db_Update_write. simpl.
  case_bool_decide; [|done]. by apply kv_get_set_ne.
Qed.

Lemma DeleteUser_frame (s : Store) (id : string) (k : bytes) (w : World) :
  k <> userKey s id ->
  kv_get k (disk (snd (DeleteUser s id w))) = kv_get k (disk w).
Proof.
  intros Hk. unfold DeleteUser. destruct (String.eqb id ""); [done|]. cbv zeta.
  unfold txn_Delete. rewrite db_Update_write. simpl.
  case_bool_decide; [|done]. by apply kv_get_delete_ne.
Qed.

Lemma SaveUsers_frame (s : Store) (users : list User) (k : string) (w : World) :
  (forall u, In u users -> k <> userKey s (PlexUserID u)) ->
  kv_get k (disk (snd (SaveUsers s users w))) = kv_get k (disk w).
Proof.
  intros Hk. rewrite SaveUsers_disk.
  destruct (fst (SaveUsers s users w)); [done|].
  apply apply_entries_frame. apply List.Forall_forall.
  intros e He. apply in_map_iff in He as (u & <- & Hu). simpl.
  intros Heq. by apply (Hk u Hu).
Qed.

Lemma DeleteUsers_frame (s : Store) (userIDs : list string) (k : string) (w : World) :
  (forall i, In i userIDs -> k <> userKey s i) ->
  kv_get k (disk (snd (DeleteUsers s userIDs w))) = kv_get k (disk w).
Proof.
  intros Hk. rewrite DeleteUsers_disk.
  destruct (fst (DeleteUsers s userIDs w)); [done|].
  apply apply_entries_frame. apply List.Forall_forall.
  intros e He. apply in_map_iff in He as (i & <- & Hi). simpl.
  intros Heq. apply (Hk i); [|done]. by apply succeeded_in in Hi.
Qed.

(** X7. Each write touches the key of its own entity only: whatever its
    outcome, every other key holds afterwards what it held before.  For
    the batches the keys concerned are those of the users, or of the ids,
    of the batch. *)
Theorem writes_touch_one_key
    (s : Store) (secret : bytes) (token : string) (pin : PinResponse) (srv : Server)
    (user : User) (id : string) (users : list User) (userIDs : list string)
    (k : bytes) (w : World) :
  db s = dbEngine ->
  let untouched (m : M (option Error)) :=
    kv_get k (disk (snd (m w))) = kv_get k (disk w) in
  (k <> appSecret (keys s) -> untouched (SaveSecret s secret)) /\
  (k <> plexToken (keys s) -> untouched (SavePlexToken s token)) /\
  (k <> plexPin (keys s) -> untouched (SavePlexPin s pin) /\ untouched (ClearPlexPin s)) /\
  (k <> plexServer (keys s) -> untouched (SavePlexServer s srv)) /\
  (k <> userKey s (PlexUserID user) -> untouched (SaveUser s user)) /\
  (k <> userKey s id -> untouched (DeleteUser s id)) /\
  ((forall u, In u users -> k <> userKey s (PlexUserID u)) -> untouched (SaveUsers s users)) /\
  ((forall i, In i userIDs -> k <> userKey s i) -> untouched (DeleteUsers s userIDs)).
Proof.
  intros _. cbv zeta.
  repeat split; intros;
  eauto using SaveSecret_frame, SavePlexToken_frame, SavePlexPin_frame, ClearPlexPin_frame,
    SavePlexServer_frame, SaveUser_frame, DeleteUser_frame, SaveUsers_frame,
    DeleteUsers_frame.
Qed.

(** What a getter returns depends on the value under its key only. *)
Lemma GetSecret_reads_key (s : Store) (w1 w2 : World) :
  kv_get (appSecret (keys s)) (disk w1) = kv_get (appSecret (keys s)) (disk w2) ->
  fst (GetSecret s w1) = fst (GetSecret s w2).
Proof. open_op. intros ->. by destruct (kv_get _ (disk w2)). Qed.

Lemma GetPlexToken_reads_key (s : Store) (w1 w2 : World) :
  kv_get (plexToken (keys s)) (disk w1) = kv_get (plexToken (keys s)) (disk w2) ->
  fst (GetPlexToken s w1) = fst (GetPlexToken s w2).
Proof.
  open_op. intros ->.
  destruct (kv_get _ (disk w2)); simpl; [|done].
  destruct (decrypt _ _) as [p [e|]]; simpl;
    destruct (isVerbose w1), (isVerbose w2); done.
Qed.

Lemma GetPlexPin_reads_key (s : Store) (w1 w2 : World) :
  kv_get (plexPin (keys s)) (disk w1) = kv_get (plexPin (keys s)) (disk w2) ->
  fst (GetPlexPin s w1) = fst (GetPlexPin s w2).
Proof.
  open_op. intros ->. destruct (kv_get _ (disk w2)); simpl; [|done].
  match goal with |- context [let (_, _) := ?x in _] => by destruct x as [? [?|]] end.
Qed.

Lemma GetPlexServer_reads_key (s : Store) (w1 w2 : World) :
  kv_get (plexServer (keys s)) (disk w1) = kv_get (plexServer (keys s)) (disk w2) ->
  fst (GetPlexServer s w1) = fst (GetPlexServer s w2).
Proof.
  open_op. intros ->. destruct (kv_get _ (disk w2)); simpl; [|done].
  match goal with |- context [let (_, _) := ?x in _] => by destruct x as [? [?|]] end.
Qed.

Lemma GetUser_reads_key (s : Store) (id : string) (w1 w2 : World) :
  kv_get (userKey s id) (disk w1) = kv_get (userKey s id) (disk w2) ->
  fst (GetUser s id w1) = fst (GetUser s id w2).
Proof.
  open_op. intros ->. destruct (kv_get _ (disk w2)); simpl; [|done].
  match goal with |- context [let (_, _) := ?x in _] => by destruct x as [? [?|]] end.
Qed.

(** X8. On a store opened by InitDataStore the entities do not interfere:
    a write to one singleton leaves what the getters of the other
    singletons and GetUser return unchanged; a write to users leaves what
    the getters of the four singletons return unchanged; and a write to
    users leaves what GetUser returns for any other id unchanged. *)
Theorem entities_do_not_interfere
    (s : Store) (secret : bytes) (token : string) (pin : PinResponse) (srv : Server)
    (user : User) (id id' : string) (users : list User) (userIDs : list string)
    (w : World) :
  keys s = initKeys -> db s = dbEngine ->
  let sameSecret (m : M (option Error)) :=
    fst (GetSecret s (snd (m w))) = fst (GetSecret s w) in
  let sameToken (m : M (option Error)) :=
    fst (GetPlexToken s (snd (m w))) = fst (GetPlexToken s w) in
  let samePin (m : M (option Error)) :=
    fst (GetPlexPin s (snd (m w))) = fst (GetPlexPin s w) in
  let sameServer (m : M (option Error)) :=
    fst (GetPlexServer s (snd (m w))) = fst (GetPlexServer s w) in
  let sameUser (m : M (option Error)) :=
    fst (GetUser s id (snd (m w))) = fst (GetUser s id w) in
  let sameSingletons (m : M (option Error)) :=
    sameSecret m /\ sameToken m /\ samePin m /\ sameServer m in
  (sameToken (SaveSecret s secret) /\ samePin (SaveSecret s secret) /\
   sameServer (SaveSecret s secret) /\ sameUser (SaveSecret s secret)) /\
  (sameSecret (SavePlexToken s token) /\ samePin (SavePlexToken s token) /\
   sameServer (SavePlexToken s token) /\ sameUser (SavePlexToken s token)) /\
  (sameSecret (SavePlexPin s pin) /\ sameToken (SavePlexPin s pin) /\
   sameServer (SavePlexPin s pin) /\ sameUser (SavePlexPin s pin)) /\
  (sameSecret (ClearPlexPin s) /\ sameToken (ClearPlexPin s) /\
   sameServer (ClearPlexPin s) /\ sameUser (ClearPlexPin s)) /\
  (sameSecret (SavePlexServer s srv) /\ sameToken (SavePlexServer s srv) /\
   samePin (SavePlexServer s srv) /\ sameUser (SavePlexServer s srv)) /\
  (sameSingletons (SaveUser s user) /\ sameSingletons (SaveUsers s users) /\
   sameSingletons (DeleteUser s id') /\ sameSingletons (DeleteUsers s userIDs)) /\
  (id <> PlexUserID user -> sameUser (SaveUser s user)) /\
  (id <> id' -> sameUser (DeleteUser s id')) /\
  (~ In id (map PlexUserID users) -> sameUser (SaveUsers s users)) /\
  (~ In id userIDs -> sameUser (DeleteUsers s userIDs)).
Proof.
  intros Hkeys _. cbv zeta.
  assert (Hfixed : forall i,
            userKey s i <> appSecret (keys s) /\ userKey s i <> plexToken (keys s) /\
            userKey s i <> plexPin (keys s) /\ userKey s i <> plexServer (keys s)).
  { intros i. unfold userKey. rewrite Hkeys. cbv [append]. simpl. repeat split; discriminate. }
  assert (Hne : forall i j, i <> j -> userKey s i <> userKey s j).
  { intros i j Hij Heq. by apply Hij, (userKey_inj s). }
  assert (Hdistinct : appSecret (keys s) <> plexToken (keys s) /\
                      appSecret (keys s) <> plexPin (keys s) /\
                      appSecret (keys s) <> plexServer (keys s) /\
                      plexToken (keys s) <> plexPin (keys s) /\
                      plexToken (keys s) <> plexServer (keys s) /\
                      plexPin (keys s) <> plexServer (keys s)).
  { rewrite Hkeys. simpl. repeat split; discriminate. }
  destruct Hdistinct as (D1 & D2 & D3 & D4 & D5 & D6).
  repeat split.
  all: first [apply GetSecret_reads_key | apply GetPlexToken_reads_key
             | apply GetPlexPin_reads_key | apply GetPlexServer_reads_key
             | intros; apply GetUser_reads_key].
  all: first [apply SaveSecret_frame | apply SavePlexToken_frame | apply SavePlexPin_frame
             | apply ClearPlexPin_frame | apply SavePlexServer_frame | apply SaveUser_frame
             | apply DeleteUser_frame
             | apply SaveUsers_frame; intros u Hu
             | apply DeleteUsers_frame; intros i Hi].
  all: try done; try congruence.
  all: try (by apply Hfixed).
  all: try (apply not_eq_sym; by apply Hfixed).
  all: try (by apply Hne).
  - apply Hne. intros ->. apply H. apply in_map_iff. by exists u.
  - apply Hne. by intros ->.
Qed.

(** X9. Without the verbose flag the functions that read or write one
    entity print nothing; this includes GetPlexToken, which prints the
    token it decrypted in verbose mode only. *)
Theorem silent_without_verbose
    (s : Store) (secret : bytes) (token : string) (pin : PinResponse) (srv : Server)
    (user : User) (id : string) (w : World) :
  db s = dbEngine ->
  isVerbose w = false ->
  let silent {A : Type} (m : M A) := stdout (snd (m w)) = stdout w in
  silent (GetSecret s) /\ silent (SaveSecret s secret) /\
  silent (GetPlexToken s) /\ silent (SavePlexToken s token) /\
  silent (GetPlexPin s) /\ silent (SavePlexPin s pin) /\ silent (ClearPlexPin s) /\
  silent (GetPlexServer s) /\ silent (SavePlexServer s srv) /\
  silent (GetUser s id) /\ silent (SaveUser s user) /\ silent (DeleteUser s id).
Proof.
  intros _ Hoff. cbv zeta.
  repeat split; open_op; rewrite ?Hoff; simpl.
  all: repeat case_match; simplify_eq; simpl in *; rewrite ?Hoff; try done.
  all: congruence.
Qed.

(** X10. In verbose mode a GetPlexToken that succeeds prints the token it
    decrypted, one that fails to decrypt prints that decryption failed, and
    a SavePlexToken that succeeds prints the ciphertext and then that it
    was saved. *)
Theorem verbose_token_output (s : Store) (token : string) (w : World) :
  db s = dbEngine ->
  isVerbose w = true ->
  (forall t : string,
      fst (GetPlexToken s w) = (t, None) ->
      stdout (snd (GetPlexToken s w)) = (stdout w ++ [("Your plex token is " ++ t)%string])%list) /\
  (forall hash : string,
      kv_get (plexToken (keys s)) (disk w) = Some hash ->
      snd (decrypt (Secret s) hash) <> None ->
      stdout (snd (GetPlexToken s w)) = (stdout w ++ ["token decryption failed"])%list) /\
  (fst (SavePlexToken s token w) = None ->
   stdout (snd (SavePlexToken s token w)) =
     (stdout w ++ [("your plex token hash: " ++ fst (encrypt (Secret s) token))%string;
                   "saved token hash to store"])%list).
Proof.
  intros _ Hon. split; [|split].
  - intros t. open_op. rewrite ?Hon.
    destruct (kv_get _ (disk w)); simpl; [|done].
    destruct (decrypt _ _) as [p [e|]]; simpl; rewrite ?Hon; simpl; [done|].
    by intros [= ->].
  - intros hash Hget Hdec. open_op. rewrite Hget. simpl.
    destruct (decrypt _ _) as [p [e|]]; simpl in *; rewrite ?Hon; simpl; done.
  - open_op. destruct (encrypt _ _) as [hash [e|]]; simpl; [done|].
    rewrite Hon. simpl.
    destruct (rejectWrite [] _) as [e|]; simpl; [done|].
    destruct (rejectCommit _) as [e|]; simpl; [done|].
    rewrite Hon. simpl. intros _. by rewrite <- app_assoc.
Qed.

End Effects.

(** X4 on a store that holds users. *)
Lemma reads_leave_store_untouched_witness :
  let w := startWorld ∅ diskWithUsersKey in
  db openStore = dbEngine /\
  disk (snd (GetAllUsers (json := goJSON) openStore w)) = diskWithUsersKey /\
  calls (snd (GetUser (json := goJSON) openStore "1" w)) = [CallView].
Proof.
  intros w.
  destruct (reads_leave_store_untouched (json := goJSON) (pins := textPin)
              (cipher := toyCipher) openStore "1" w eq_refl)
    as (_ & _ & _ & _ & (_ & Hcalls & _) & (Hdisk & _)).
  split; [reflexivity|]. split; [exact Hdisk|exact Hcalls].
Defined.

(** X5 on a store that holds, under the key of the user 7, bytes that are
    not the JSON of a user. *)
Lemma getters_fail_with_zero_value_witness :
  let w := startWorld ∅ [("user-7", "[1]")] in
  db openStore = dbEngine /\
  fst (GetUser (json := goJSON) openStore "9" w) = (zeroUser, Some ErrKeyNotFound) /\
  snd (fst (GetUser (json := goJSON) openStore "7" w)) <> None /\
  fst (fst (GetUser (json := goJSON) openStore "7" w)) = zeroUser.
Proof.
  intros w.
  destruct (getters_fail_with_zero_value (json := goJSON) (pins := textPin)
              (cipher := toyCipher) openStore "9" w eq_refl) as ((_ & _ & _ & Hmissing) & _).
  destruct (getters_fail_with_zero_value (json := goJSON) (pins := textPin)
              (cipher := toyCipher) openStore "7" w eq_refl) as (_ & (_ & _ & _ & Hzero)).
  assert (Herr : snd (fst (GetUser (json := goJSON) openStore "7" w)) <> None)
    by (vm_compute; discriminate).
  split; [reflexivity|]. split; [apply Hmissing; reflexivity|].
  split; [exact Herr|exact (Hzero Herr)].
Defined.

(** X6 on a user whose key the engine refuses. *)
Lemma failed_write_changes_nothing_witness :
  let w := startWorld ∅ [("user-A", "{}")] in
  let longUser := mkUser "an-id-that-is-too-long" "" zeroAssignedMedia false false false false in
  db openStore = dbEngine /\
  fst (SaveUser (engine := boundedEngine 10) (json := goJSON) openStore longUser w) <> None /\
  disk (snd (SaveUser (engine := boundedEngine 10) (json := goJSON) openStore longUser w)) =
    [("user-A", "{}")].
Proof.
  intros w longUser.
  destruct (failed_write_changes_nothing (engine := boundedEngine 10) (json := goJSON)
              (pins := textPin) (cipher := toyCipher) openStore "" "" "" zeroServer longUser
              "" [] w eq_refl) as (_ & _ & _ & _ & _ & Hsave & _).
  assert (Herr : fst (SaveUser (engine := boundedEngine 10) (json := goJSON)
                        openStore longUser w) <> None) by (vm_compute; discriminate).
  split; [reflexivity|]. split; [exact Herr|exact (Hsave Herr)].
Defined.

(** X7 on the application secret while a user is saved. *)
Lemma writes_touch_one_key_witness :
  let w := startWorld ∅ [("app-secret", "s3cret")] in
  db openStore = dbEngine /\
  "app-secret" <> userKey openStore (PlexUserID userA) /\
  kv_get "app-secret"
    (disk (snd (SaveUser (engine := plainEngine) (json := goJSON) openStore userA w))) =
  Some "s3cret".
Proof.
  intros w.
  destruct (writes_touch_one_key (engine := plainEngine) (json := goJSON) (pins := textPin)
              (cipher := toyCipher) openStore "" "" "" zeroServer userA "" [] []
              "app-secret" w eq_refl) as (_ & _ & _ & _ & Hsave & _).
  assert (Hne : "app-secret" <> userKey openStore (PlexUserID userA)) by discriminate.
  split; [reflexivity|]. split; [exact Hne|exact (Hsave Hne)].
Defined.

(** X8 on a store that holds a secret and the user B, while the user A is
    saved. *)
Lemma entities_do_not_interfere_witness :
  let w := startWorld ∅ [("app-secret", "s3cret"); ("user-B", gojson.marshalUser userB)] in
  let w' := snd (SaveUser (engine := plainEngine) (json := goJSON) openStore userA w) in
  keys openStore = initKeys /\ db openStore = dbEngine /\ "B" <> PlexUserID userA /\
  fst (GetSecret openStore w') = fst (GetSecret openStore w) /\
  fst (GetUser (json := goJSON) openStore "B" w') = fst (GetUser (json := goJSON) openStore "B" w).
Proof.
  intros w w'.
  destruct (entities_do_not_interfere (engine := plainEngine) (json := goJSON)
              (pins := textPin) (cipher := toyCipher) openStore "" "" "" zeroServer userA
              "B" "" [] [] w eq_refl eq_refl)
    as (_ & _ & _ & _ & _ & ((Hsecret & _) & _) & Hother & _).
  assert (Hne : "B" <> PlexUserID userA) by discriminate.
  split; [reflexivity|]. split; [reflexivity|]. split; [exact Hne|].
  split; [exact Hsecret|exact (Hother Hne)].
Defined.

(** X9 on a token read by a process that has just started. *)
Lemma silent_without_verbose_witness :
  let s := withSecret openStore secret32 in
  let w := startWorld ∅ [("plex-token", secret32 ++ "tok3n")] in
  db s = dbEngine /\ isVerbose w = false /\
  fst (GetPlexToken (cipher := toyCipher) s w) = ("tok3n", None) /\
  stdout (snd (GetPlexToken (cipher := toyCipher) s w)) = [].
Proof.
  intros s w.
  destruct (silent_without_verbose (engine := plainEngine) (json := goJSON) (pins := textPin)
              (cipher := toyCipher) s "" "" "" zeroServer zeroUser "" w eq_refl eq_refl)
    as (_ & _ & Hget & _).
  split; [reflexivity|]. split; [reflexivity|]. split; [reflexivity|exact Hget].
Defined.

(** X10 on a token read in verbose mode. *)
Lemma verbose_token_output_witness :
  let s := withSecret openStore secret32 in
  let w := {| isVerbose := true; stdout := []; dirs := ∅;
              disk := [("plex-token", secret32 ++ "tok3n")];
              txnUpdate := false; pending := []; calls := [] |} in
  db s = dbEngine /\ isVerbose w = true /\
  fst (GetPlexToken (cipher := toyCipher) s w) = ("tok3n", None) /\
  stdout (snd (GetPlexToken (cipher := toyCipher) s w)) = ["Your plex token is tok3n"].
Proof.
  intros s w.
  destruct (verbose_token_output (engine := plainEngine) (cipher := toyCipher) s "" w
              eq_refl eq_refl) as (Hget & _).
  assert (Hok : fst (GetPlexToken (cipher := toyCipher) s w) = ("tok3n", None))
    by reflexivity.
  split; [reflexivity|]. split; [reflexivity|]. split; [exact Hok|exact (Hget _ Hok)].
Defined.

(** ** The codec on every value *)

Section CodecAny.
Import replace_facts.
#[local] Existing Instance goJSON.

(** X11. For every user and every server, valid UTF-8 or not, Unserialize
    of what Serialize wrote returns no error and the value with each byte
    of its strings that does not begin a valid UTF-8 encoding replaced by
    U+FFFD; the booleans come back as they are.  What comes back is valid
    UTF-8, so serializing and unserializing it once more changes nothing. *)
Theorem codec_replaces_invalid_bytes (u : User) (v : Server) :
  UnserializeUser (fst (User_Serialize u)) = (replaceInvalidUser u, None) /\
  UnserializeServer (fst (Server_Serialize v)) = (replaceInvalidServer v, None) /\
  gojson.validUser (replaceInvalidUser u) /\
  gojson.validServer (replaceInvalidServer v) /\
  UnserializeUser (fst (User_Serialize (replaceInvalidUser u))) =
    (replaceInvalidUser u, None) /\
  UnserializeServer (fst (Server_Serialize (replaceInvalidServer v))) =
    (replaceInvalidServer v, None).
Proof.
  assert (Vu : gojson.validUser (replaceInvalidUser u)).
  { repeat split; apply replaceInvalid_ValidString. }
  assert (Vs : gojson.validServer (replaceInvalidServer v)).
  { repeat split; apply replaceInvalid_ValidString. }
  unfold UnserializeUser, UnserializeServer, User_Serialize, Server_Serialize. simpl.
  split; [apply unmarshalUser_marshalUser_any|].
  split; [apply unmarshalServer_marshalServer_any|].
  split; [exact Vu|]. split; [exact Vs|]. split.
  - by apply json_facts.unmarshalUser_marshalUser.
  - by apply json_facts.unmarshalServer_marshalServer.
Qed.

End CodecAny.

(** ** Saving, reading and deleting *)

Section SaveAndRead.
Context {engine : Engine}.

Section AnyJSON.
Context {json : JSON}.

Lemma SaveUser_spec (s : Store) (u : User) (w : World) :
  SaveUser s u w =
  match User_Serialize u with
  | (_, Some err) => (Some err, finish (CallUpdate false) (disk w) w)
  | (b, None) => db_Update (txn_write (mkEntry (userKey s (PlexUserID u)) (Some b))) w
  end.
Proof. unfold SaveUser. cbv zeta. by destruct (User_Serialize u) as [b [e|]]. Qed.

Lemma SaveUser_saved (s : Store) (u : User) (w : World) :
  fst (SaveUser s u w) = None ->
  snd (User_Serialize u) = None /\
  disk (snd (SaveUser s u w)) =
    kv_set (userKey s (PlexUserID u)) (fst (User_Serialize u)) (disk w).
Proof.
  rewrite SaveUser_spec. destruct (User_Serialize u) as [b [e|]]; [done|].
  rewrite db_Update_write. simpl. intros ->. by rewrite bool_decide_eq_true_2.
Qed.

Lemma GetUser_reads (s : Store) (id : string) (v : bytes) (w : World) :
  kv_get (userKey s id) (disk w) = Some v ->
  fst (GetUser s id w) =
  match UnserializeUser v with
  | (_, Some err) => (zeroUser, Some err)
  | (u, None) => (u, None)
  end.
Proof. open_op. intros ->. simpl. by destruct (UnserializeUser v) as [u [e|]]. Qed.

Lemma GetUser_missing (s : Store) (id : string) (w : World) :
  kv_get (userKey s id) (disk w) = None ->
  fst (GetUser s id w) = (zeroUser, Some ErrKeyNotFound).
Proof. open_op. by intros ->. Qed.

Lemma DeleteUser_deleted (s : Store) (id : string) (w : World) :
  id <> "" ->
  fst (DeleteUser s id w) = None ->
  disk (snd (DeleteUser s id w)) = kv_delete (userKey s id) (disk w).
Proof.
  intros Hid. apply String.eqb_neq in Hid. unfold DeleteUser. rewrite Hid. cbv zeta.
  unfold txn_Delete. rewrite db_Update_write. simpl. intros ->.
  by rewrite bool_decide_eq_true_2.
Qed.

(** X12. After a SaveUser and a DeleteUser of the same non-empty id that
    both succeeded, GetUser returns ErrKeyNotFound for the id, and the
    committed pairs are those before the two calls with the key of the
    user deleted. *)
Theorem SaveUser_then_DeleteUser (s : Store) (u : User) (w : World) :
  db s = dbEngine ->
  PlexUserID u <> "" ->
  let w1 := snd (SaveUser s u w) in
  let w2 := snd (DeleteUser s (PlexUserID u) w1) in
  fst (SaveUser s u w) = None ->
  fst (DeleteUser s (PlexUserID u) w1) = None ->
  fst (GetUser s (PlexUserID u) w2) = (zeroUser, Some ErrKeyNotFound) /\
  disk w2 = kv_delete (userKey s (PlexUserID u)) (disk w).
Proof.
  intros _ Hid w1 w2 Hsave Hdel.
  assert (Hdisk : disk w2 = kv_delete (userKey s (PlexUserID u)) (disk w)).
  { unfold w2. rewrite (DeleteUser_deleted _ _ _ Hid Hdel).
    unfold w1. rewrite (proj2 (SaveUser_saved _ _ _ Hsave)). apply kv_delete_set. }
  split; [|done]. apply GetUser_missing. rewrite Hdisk. apply kv_get_delete_eq.
Qed.

(** X13. SaveUser does not check the id: a user whose id is empty is saved
    under the bare prefix.  DeleteUser refuses the empty id, so it cannot
    remove that record; DeleteUsers does not check its ids and removes it. *)
Theorem empty_id_is_saved_but_not_deleted (s : Store) (u : User) (w : World) :
  db s = dbEngine ->
  PlexUserID u = "" ->
  let w1 := snd (SaveUser s u w) in
  fst (SaveUser s u w) = None ->
  kv_get (userPrefix (keys s)) (disk w1) = Some (fst (User_Serialize u)) /\
  DeleteUser s "" w1 = (Some ErrIDRequired, w1) /\
  (fst (DeleteUsers s [""] w1) = None ->
   rejectWrite [] (delete_entry s "") = None ->
   kv_get (userPrefix (keys s)) (disk (snd (DeleteUsers s [""] w1))) = None).
Proof.
  intros _ Hid w1 Hsave.
  assert (Hkey : userKey s "" = userPrefix (keys s)) by apply json_facts.append_nil_r.
  split; [|split; [done|]].
  - unfold w1. rewrite (proj2 (SaveUser_saved _ _ _ Hsave)), Hid, Hkey.
    apply kv_get_set_eq.
  - intros Hdel Hacc. rewrite DeleteUsers_disk, Hdel. simpl.
    unfold delete_entry in Hacc. rewrite Hacc. simpl.
    unfold apply_entry. simpl. rewrite Hkey. apply kv_get_delete_eq.
Qed.

(** X14. A batch of one and the single call.  SaveUsers on one user is
    SaveUser on that user after the line with its key is printed.
    DeleteUsers on one non-empty id is DeleteUser on that id when the
    engine accepts the delete; when the engine refuses it, DeleteUser
    returns the error and DeleteUsers returns the verdict of an empty
    commit.  An empty batch of either kind commits an empty transaction. *)
Theorem batch_of_one_or_none (s : Store) (u : User) (id : string) (w : World) :
  db s = dbEngine ->
  SaveUsers s [u] w = SaveUser s u (snd (println (saveusers_line s u) w)) /\
  (id <> "" -> rejectWrite [] (delete_entry s id) = None ->
   DeleteUsers s [id] w = DeleteUser s id w) /\
  (id <> "" -> forall err, rejectWrite [] (delete_entry s id) = Some err ->
   fst (DeleteUser s id w) = Some err /\
   fst (DeleteUsers s [id] w) = rejectCommit []) /\
  (let r := (rejectCommit [],
             finish (CallUpdate (bool_decide (rejectCommit [] = None))) (disk w) w) in
   SaveUsers s [] w = r /\ DeleteUsers s [] w = r).
Proof.
  intros _. split; [|split; [|split]].
  - unfold SaveUsers, SaveUser, saveusers_line. simpl. unfold_M. simpl.
    destruct (User_Serialize u) as [b [e|]]; simpl; [done|].
    destruct (rejectWrite [] _) as [e|]; simpl; [done|].
    by destruct (rejectCommit _).
  - intros Hid Hacc. apply String.eqb_neq in Hid.
    unfold DeleteUsers, DeleteUser, delete_entry in *. rewrite Hid. simpl.
    unfold_M. simpl. rewrite Hacc. simpl. by destruct (rejectCommit _).
  - intros Hid err Hrej. apply String.eqb_neq in Hid.
    unfold DeleteUsers, DeleteUser, delete_entry in *. rewrite Hid. simpl.
    unfold_M. simpl. rewrite Hrej. simpl. split; [done|].
    by destruct (rejectCommit []).
  - cbv zeta. unfold SaveUsers, DeleteUsers. simpl. unfold_M. simpl.
    by destruct (rejectCommit []).
Qed.

Lemma SaveUsers_loop_stdout (s : Store) (users : list User) (w : World) :
  txnUpdate w = true ->
  let r := SaveUsers_loop s users w in
  exists n : nat,
    stdout (snd r) = (stdout w ++ map (saveusers_line s) (firstn n users))%list /\
    (fst r = None -> n = List.length users) /\
    (users <> [] -> (0 < n)%nat).
Proof.
  revert w. induction users as [|user rest IH]; intros w Hupd; simpl.
  - exists 0%nat. simpl. by rewrite app_nil_r.
  - unfold_M. simpl.
    destruct (User_Serialize user) as [b [err|]] eqn:Hser; simpl.
    { exists 1%nat. simpl. repeat split; [done|lia]. }
    rewrite Hupd.
    destruct (rejectWrite (pending w) _) as [err|] eqn:Hrej; simpl.
    { exists 1%nat. simpl. repeat split; [done|lia]. }
    match goal with |- context [SaveUsers_loop s rest ?w1] =>
      destruct (IH w1 eq_refl) as (n & Hout & Hall & _) end.
    exists (S n). simpl in *. rewrite Hout. rewrite <- app_assoc. simpl.
    repeat split; [|lia]. intros Hok. by rewrite (Hall Hok).
Qed.

(** X15. SaveUsers prints the key of every user it handles, whether the
    verbose flag is set or not: the lines printed are those of the first n
    users of the batch, n being the whole batch when the call returns nil
    and at least one when the batch is not empty. *)
Theorem SaveUsers_prints_every_key (s : Store) (users : list User) (w : World) :
  db s = dbEngine ->
  exists n : nat,
    stdout (snd (SaveUsers s users w)) =
      (stdout w ++ map (saveusers_line s) (firstn n users))%list /\
    (fst (SaveUsers s users w) = None -> n = List.length users) /\
    (users <> [] -> (0 < n)%nat).
Proof.
  intros _. unfold SaveUsers, db_Update.
  destruct (SaveUsers_loop_stdout s users (set_txn true [] w) eq_refl)
    as (n & Hout & Hall & Hpos).
  destruct (SaveUsers_loop s users (set_txn true [] w)) as [e w1].
  simpl in *. exists n.
  destruct e as [e|]; simpl; [done|].
  destruct (rejectCommit (pending w1)); simpl; [|done].
  repeat split; done.
Qed.

Lemma GetAllUsers_loop_collects (it : KV) (users : gmap string User) (w : World) :
  Forall decodes it ->
  fst (GetAllUsers_loop it users w) = (foldl collect users it, None).
Proof.
  revert users w. induction it as [|[k v] rest IH]; intros users w Hall; simpl; [done|].
  inversion Hall as [|? ? Hv Hrest]; subst. unfold decodes in Hv. simpl in Hv.
  unfold_M. simpl. unfold collect at 2. simpl.
  destruct (UnserializeUser v) as [user [err|]]; simpl in *; [done|].
  by apply IH.
Qed.

Lemma GetAllUsers_loop_stops (good rest : KV) (k bad : string) (err : Error)
    (users : gmap string User) (w : World) :
  Forall decodes good ->
  snd (UnserializeUser bad) = Some err ->
  fst (GetAllUsers_loop (good ++ (k, bad) :: rest) users w) =
    (foldl collect users good, Some err) /\
  stdout (snd (GetAllUsers_loop (good ++ (k, bad) :: rest) users w)) =
    (stdout w ++ map fst good ++ [k])%list.
Proof.
  revert users w. induction good as [|[k0 v0] good IH]; intros users w Hall Hbad; simpl.
  - unfold_M. simpl. destruct (UnserializeUser bad) as [u [e|]]; simpl in *; [|done].
    by simplify_eq.
  - inversion Hall as [|? ? Hv Hrest]; subst. unfold decodes in Hv. simpl in Hv.
    unfold_M. simpl. unfold collect at 2. simpl.
    destruct (UnserializeUser v0) as [user [e|]]; simpl in *; [done|].
    match goal with |- context [GetAllUsers_loop _ ?m ?w1] =>
      destruct (IH m w1 Hrest Hbad) as [H1 H2] end.
    split; [done|]. rewrite H2. simpl. by rewrite <- app_assoc.
Qed.

Lemma GetAllUsers_all_decode (s : Store) (w : World) :
  Forall decodes (seek (userPrefix (keys s)) (disk w)) ->
  fst (GetAllUsers s w) = (collected (seek (userPrefix (keys s)) (disk w)), None).
Proof.
  intros Hall. unfold GetAllUsers. unfold_M. simpl.
  pose proof (GetAllUsers_loop_collects _ ∅ (set_txn false [] w) Hall) as H.
  unfold set_txn in H. by destruct (GetAllUsers_loop _ ∅ _).
Qed.

(** X16. GetAllUsers decodes the pairs that Seek gives, in key order.  When
    there is none it returns no error and no user, and prints nothing.
    When all of them decode it returns no error and the users they hold,
    each under the plexUserID of its record, a later record replacing an
    earlier one with the same id.  At the first pair that does not decode
    it stops and returns the error together with the users decoded so far;
    the keys printed are those of the pairs visited, the failing one
    included. *)
Theorem GetAllUsers_collects (s : Store) (w : World) :
  db s = dbEngine ->
  let items := seek (userPrefix (keys s)) (disk w) in
  (items = [] ->
   fst (GetAllUsers s w) = (∅, None) /\ stdout (snd (GetAllUsers s w)) = stdout w) /\
  (Forall decodes items -> fst (GetAllUsers s w) = (collected items, None)) /\
  (forall (good rest : KV) (k bad : bytes) (err : Error),
      items = (good ++ (k, bad) :: rest)%list ->
      Forall decodes good ->
      snd (UnserializeUser bad) = Some err ->
      fst (GetAllUsers s w) = (collected good, Some err) /\
      stdout (snd (GetAllUsers s w)) = (stdout w ++ map fst good ++ [k])%list).
Proof.
  intros _ items. split; [|split; [apply GetAllUsers_all_decode|]].
  { unfold GetAllUsers. unfold_M. simpl. fold items. by intros ->. }
  unfold GetAllUsers. unfold_M. simpl. fold items.
  intros good rest k bad err -> Hgood Hbad.
  destruct (GetAllUsers_loop_stops good rest k bad err ∅ (set_txn false [] w) Hgood Hbad)
    as [H1 H2].
  unfold set_txn in H1, H2. by destruct (GetAllUsers_loop _ ∅ _).
Qed.

End AnyJSON.

#[local] Existing Instance goJSON.

(** X17. After a SaveUser that succeeded, GetUser on the id of the user
    returns no error and the user with the invalid bytes of its strings
    replaced by U+FFFD, whatever was stored under the id before; for a
    user whose strings are valid UTF-8 it returns the user itself. *)
Theorem SaveUser_then_GetUser (s : Store) (u : User) (w : World) :
  db s = dbEngine ->
  fst (SaveUser s u w) = None ->
  fst (GetUser s (PlexUserID u) (snd (SaveUser s u w))) = (replaceInvalidUser u, None) /\
  (gojson.validUser u ->
   fst (GetUser s (PlexUserID u) (snd (SaveUser s u w))) = (u, None)).
Proof.
  intros _ Hsave.
  destruct (SaveUser_saved s u w Hsave) as [_ Hdisk].
  assert (Hget : fst (GetUser s (PlexUserID u) (snd (SaveUser s u w))) =
                 (replaceInvalidUser u, None)).
  { rewrite (GetUser_reads s _ (gojson.marshalUser u)).
    - unfold UnserializeUser. simpl.
      by rewrite (replace_facts.unmarshalUser_marshalUser_any u).
    - rewrite Hdisk. apply kv_get_set_eq. }
  split; [done|]. intros Hvalid.
  by rewrite Hget, (replace_facts.replaceInvalidUser_valid u Hvalid).
Qed.

(** X18. After a SavePlexServer that succeeded, GetPlexServer returns no
    error and the server saved, with the invalid bytes of its strings
    replaced by U+FFFD; for a server whose strings are valid UTF-8 it
    returns the server itself. *)
Theorem SavePlexServer_then_GetPlexServer (s : Store) (srv : Server) (w : World) :
  db s = dbEngine ->
  fst (SavePlexServer s srv w) = None ->
  fst (GetPlexServer s (snd (SavePlexServer s srv w))) = (replaceInvalidServer srv, None) /\
  (gojson.validServer srv ->
   fst (GetPlexServer s (snd (SavePlexServer s srv w))) = (srv, None)).
Proof.
  intros _ Hsave.
  assert (Hget : fst (GetPlexServer s (snd (SavePlexServer s srv w))) =
                 (replaceInvalidServer srv, None)).
  { revert Hsave. unfold SavePlexServer. simpl. unfold txn_Set.
    rewrite db_Update_write. simpl. intros ->.
    rewrite bool_decide_eq_true_2 by done.
    unfold GetPlexServer. unfold_M. simpl. unfold apply_entry. simpl.
    rewrite kv_get_set_eq. unfold UnserializeServer. simpl.
    by rewrite (replace_facts.unmarshalServer_marshalServer_any srv). }
  split; [done|]. intros Hvalid.
  by rewrite Hget, (replace_facts.replaceInvalidServer_valid srv Hvalid).
Qed.

(** X19. After a SaveUsers that succeeded, GetUser on the id of a user of
    the batch that no later user of the batch shares returns that user (for
    strings that are valid UTF-8): within a batch the last user saved under
    an id is the one kept. *)
Theorem SaveUsers_then_GetUser
    (s : Store) (before after : list User) (u : User) (w : World) :
  db s = dbEngine ->
  gojson.validUser u ->
  Forall (fun v => PlexUserID v <> PlexUserID u) after ->
  let users := (before ++ u :: after)%list in
  fst (SaveUsers s users w) = None ->
  fst (GetUser s (PlexUserID u) (snd (SaveUsers s users w))) = (u, None).
Proof.
  intros _ Hvalid Hafter users Hsave.
  rewrite (GetUser_reads s _ (gojson.marshalUser u)).
  - unfold UnserializeUser. simpl.
    by rewrite (json_facts.unmarshalUser_marshalUser u Hvalid).
  - rewrite SaveUsers_disk, Hsave. unfold users. rewrite map_app. simpl.
    apply apply_entries_last_set.
    apply List.Forall_forall. intros e He. apply in_map_iff in He as (v & <- & Hv).
    simpl. intros Heq. apply userKey_inj in Heq.
    rewrite List.Forall_forall in Hafter. by apply (Hafter v Hv).
Qed.

End SaveAndRead.

Section Pins.
Context {engine : Engine} {pins : PlexPin}.

(** X20. The pin.  After a SavePlexPin that succeeded, GetPlexPin returns
    the pin saved, provided json.Unmarshal reads back what json.Marshal
    wrote for it.  When json.Marshal fails SavePlexPin returns its error
    and makes no call on the engine.  ClearPlexPin returns the verdict of
    the engine on the delete, whether a pin is stored or not, and after a
    ClearPlexPin that succeeded GetPlexPin returns ErrKeyNotFound. *)
Theorem plex_pin_life_cycle (s : Store) (pin : PinResponse) (w : World) :
  db s = dbEngine ->
  (forall b : bytes,
      marshalPin pin = (b, None) ->
      unmarshalPin b = (pin, None) ->
      fst (SavePlexPin s pin w) = None ->
      fst (GetPlexPin s (snd (SavePlexPin s pin w))) = (pin, None)) /\
  (snd (marshalPin pin) <> None ->
   SavePlexPin s pin w = (snd (marshalPin pin), w)) /\
  fst (ClearPlexPin s w) = verdict (mkEntry (plexPin (keys s)) None) /\
  (fst (ClearPlexPin s w) = None ->
   fst (GetPlexPin s (snd (ClearPlexPin s w))) = (zeroPin, Some ErrKeyNotFound)).
Proof.
  intros _. split; [|split; [|split]].
  - intros b Hm Hu. unfold SavePlexPin. rewrite Hm. unfold txn_Set.
    rewrite db_Update_write. simpl. intros ->.
    rewrite bool_decide_eq_true_2 by done.
    unfold GetPlexPin. unfold_M. simpl. unfold apply_entry. simpl.
    rewrite kv_get_set_eq. simpl. by rewrite Hu.
  - unfold SavePlexPin. by destruct (marshalPin pin) as [b [e|]].
  - unfold ClearPlexPin, txn_Delete. by rewrite db_Update_write.
  - unfold ClearPlexPin, txn_Delete. rewrite db_Update_write. simpl. intros ->.
    rewrite bool_decide_eq_true_2 by done.
    unfold GetPlexPin. unfold_M. simpl. unfold apply_entry. simpl.
    by rewrite kv_get_delete_eq.
Qed.

End Pins.

(** X12 on the user A, saved and deleted on an empty store. *)
Lemma SaveUser_then_DeleteUser_witness :
  let w := startWorld ∅ [] in
  let w1 := snd (SaveUser (engine := plainEngine) (json := goJSON) openStore userA w) in
  let w2 := snd (DeleteUser (engine := plainEngine) openStore "A" w1) in
  db openStore = dbEngine /\ PlexUserID userA <> "" /\
  fst (GetUser (json := goJSON) openStore "A" w2) = (zeroUser, Some ErrKeyNotFound) /\
  disk w2 = [].
Proof.
  intros w w1 w2.
  assert (Hid : PlexUserID userA <> "") by discriminate.
  destruct (SaveUser_then_DeleteUser (engine := plainEngine) (json := goJSON) openStore
              userA w eq_refl Hid eq_refl eq_refl) as [Hget Hdisk].
  split; [reflexivity|]. split; [exact Hid|]. split; [exact Hget|exact Hdisk].
Defined.

(** X13 on the zero user, whose id is empty. *)
Lemma empty_id_is_saved_but_not_deleted_witness :
  let w := startWorld ∅ [] in
  let w1 := snd (SaveUser (engine := plainEngine) (json := goJSON) openStore zeroUser w) in
  db openStore = dbEngine /\ PlexUserID zeroUser = "" /\
  kv_get "user-" (disk w1) = Some (gojson.marshalUser zeroUser) /\
  fst (DeleteUser (engine := plainEngine) openStore "" w1) = Some ErrIDRequired /\
  kv_get "user-" (disk (snd (DeleteUsers (engine := plainEngine) openStore [""] w1))) = None.
Proof.
  intros w w1.
  destruct (empty_id_is_saved_but_not_deleted (engine := plainEngine) (json := goJSON)
              openStore zeroUser w eq_refl eq_refl eq_refl) as (Hsaved & Hrefused & Hgone).
  split; [reflexivity|]. split; [reflexivity|]. split; [exact Hsaved|]. split.
  - exact (f_equal fst Hrefused).
  - exact (Hgone eq_refl eq_refl).
Defined.

(** X14 on the id A, which the engine accepts. *)
Lemma batch_of_one_or_none_witness :
  let w := startWorld ∅ [("user-A", "{}")] in
  db openStore = dbEngine /\ "A" <> "" /\
  DeleteUsers (engine := plainEngine) openStore ["A"] w =
    DeleteUser (engine := plainEngine) openStore "A" w /\
  disk (snd (SaveUsers (engine := plainEngine) (json := goJSON) openStore [] w)) =
    [("user-A", "{}")].
Proof.
  intros w.
  assert (Hid : "A" <> "") by discriminate.
  destruct (batch_of_one_or_none (engine := plainEngine) (json := goJSON) openStore userA
              "A" w eq_refl) as (_ & Hdelete & _ & Hnone & _).
  split; [reflexivity|]. split; [exact Hid|]. split.
  - exact (Hdelete Hid eq_refl).
  - exact (f_equal (fun r => disk (snd r)) Hnone).
Defined.

(** X15 on a batch of two users, without the verbose flag. *)
Lemma SaveUsers_prints_every_key_witness :
  let w := startWorld ∅ [] in
  db openStore = dbEngine /\ isVerbose w = false /\
  stdout (snd (SaveUsers (engine := plainEngine) (json := goJSON) openStore
                 [userA; userB] w)) =
  ["saveusers key: user-A"; "saveusers key: user-B"].
Proof.
  intros w.
  destruct (SaveUsers_prints_every_key (engine := plainEngine) (json := goJSON) openStore
              [userA; userB] w eq_refl) as (n & Hout & Hall & _).
  rewrite (Hall eq_refl) in Hout.
  split; [reflexivity|]. split; [reflexivity|exact Hout].
Defined.

(** X16 on a store whose second user record is not the JSON of a user. *)
Lemma GetAllUsers_collects_witness :
  let w := startWorld ∅ [("user-1", gojson.marshalUser user1); ("user-2", "[1]");
                         ("user-3", gojson.marshalUser userA)] in
  db openStore = dbEngine /\
  fst (GetAllUsers (json := goJSON) openStore w) =
    (collected (json := goJSON) [("user-1", gojson.marshalUser user1)],
     Some (UnmarshalTypeError "array")) /\
  stdout (snd (GetAllUsers (json := goJSON) openStore w)) = ["user-1"; "user-2"].
Proof.
  intros w.
  destruct (GetAllUsers_collects (json := goJSON) openStore w eq_refl) as (_ & _ & Hstop).
  assert (Hgood : Forall (decodes (json := goJSON)) [("user-1", gojson.marshalUser user1)]).
  { constructor; [|constructor]. vm_compute. reflexivity. }
  assert (Hbad : snd (UnserializeUser (json := goJSON) "[1]") =
                 Some (UnmarshalTypeError "array")) by (vm_compute; reflexivity).
  split; [reflexivity|].
  exact (Hstop [("user-1", gojson.marshalUser user1)]
               [("user-3", gojson.marshalUser userA)] "user-2" "[1]"
               (UnmarshalTypeError "array") eq_refl Hgood Hbad).
Defined.

(** X17 on a user whose name is not UTF-8 and on one whose strings are. *)
Lemma SaveUser_then_GetUser_witness :
  let w := startWorld ∅ [] in
  let get (u : User) :=
    fst (GetUser (json := goJSON) openStore (PlexUserID u)
           (snd (SaveUser (engine := plainEngine) (json := goJSON) openStore u w))) in
  db openStore = dbEngine /\
  get latin1User = (replaceInvalidUser latin1User, None) /\
  gojson.validUser sampleUser /\
  get sampleUser = (sampleUser, None).
Proof.
  intros w get.
  destruct (SaveUser_then_GetUser (engine := plainEngine) openStore latin1User w
              eq_refl eq_refl) as [Hlatin _].
  destruct (SaveUser_then_GetUser (engine := plainEngine) openStore sampleUser w
              eq_refl eq_refl) as [_ Hsample].
  assert (Vu : gojson.validUser sampleUser) by (repeat split; vm_compute; reflexivity).
  split; [reflexivity|]. split; [exact Hlatin|]. split; [exact Vu|exact (Hsample Vu)].
Defined.

(** X18 on a server of a home network. *)
Lemma SavePlexServer_then_GetPlexServer_witness :
  let w := startWorld ∅ [] in
  let srv := mkServer "nas" "http://nas:32400" in
  db openStore = dbEngine /\ gojson.validServer srv /\
  fst (GetPlexServer (json := goJSON) openStore
         (snd (SavePlexServer (engine := plainEngine) (json := goJSON) openStore srv w))) =
  (srv, None).
Proof.
  intros w srv.
  destruct (SavePlexServer_then_GetPlexServer (engine := plainEngine) openStore srv w
              eq_refl eq_refl) as [_ Hget].
  assert (Vs : gojson.validServer srv) by (repeat split; vm_compute; reflexivity).
  split; [reflexivity|]. split; [exact Vs|exact (Hget Vs)].
Defined.

(** X19 on a batch of two users. *)
Lemma SaveUsers_then_GetUser_witness :
  let w := startWorld ∅ [] in
  db openStore = dbEngine /\ gojson.validUser userA /\
  fst (GetUser (json := goJSON) openStore "A"
         (snd (SaveUsers (engine := plainEngine) (json := goJSON) openStore
                 [userA; userB] w))) = (userA, None).
Proof.
  intros w.
  assert (Vu : gojson.validUser userA) by (repeat split; vm_compute; reflexivity).
  assert (Hafter : Forall (fun v => PlexUserID v <> PlexUserID userA) [userB]).
  { constructor; [discriminate|constructor]. }
  split; [reflexivity|]. split; [exact Vu|].
  exact (SaveUsers_then_GetUser (engine := plainEngine) openStore [] [userB] userA w
           eq_refl Vu Hafter eq_refl).
Defined.

(** X20 on a pin kept as its JSON text. *)
Lemma plex_pin_life_cycle_witness :
  let w := startWorld ∅ [] in
  let w1 := snd (SavePlexPin (engine := plainEngine) (pins := textPin) openStore "1234" w) in
  db openStore = dbEngine /\
  fst (GetPlexPin (pins := textPin) openStore w1) = ("1234", None) /\
  fst (GetPlexPin (pins := textPin) openStore
         (snd (ClearPlexPin (engine := plainEngine) openStore w1))) =
  (zeroPin, Some ErrKeyNotFound).
Proof.
  intros w w1.
  destruct (plex_pin_life_cycle (engine := plainEngine) (pins := textPin) openStore "1234" w
              eq_refl) as (Hsaved & _).
  destruct (plex_pin_life_cycle (engine := plainEngine) (pins := textPin) openStore "1234" w1
              eq_refl) as (_ & _ & _ & Hcleared).
  split; [reflexivity|]. split.
  - exact (Hsaved "1234" eq_refl eq_refl eq_refl).
  - exact (Hcleared eq_refl).
Defined.

(** ** The order of the keys *)

Lemma compare_lt_trans (a b c : string) :
  String.compare a b = Lt -> String.compare b c = Lt -> String.compare a c = Lt.
Proof.
  revert b c. induction a as [|x a IH]; intros [|y b] [|z c]; simpl; try done.
  unfold Ascii.compare.
  destruct (N.compare_spec (N_of_ascii x) (N_of_ascii y)) as [Hxy|Hxy|Hxy]; try done;
    destruct (N.compare_spec (N_of_ascii y) (N_of_ascii z)) as [Hyz|Hyz|Hyz]; try done;
    intros H1 H2.
  - rewrite Hxy, Hyz, N.compare_refl. by apply (IH b).
  - by rewrite Hxy, (proj2 (N.compare_lt_iff _ _) Hyz).
  - by rewrite <- Hyz, (proj2 (N.compare_lt_iff _ _) Hxy).
  - assert (H : (N_of_ascii x < N_of_ascii z)%N) by lia.
    by rewrite (proj2 (N.compare_lt_iff _ _) H).
Qed.

Lemma ltb_lt (a b : string) : String.ltb a b = true <-> String.compare a b = Lt.
Proof. unfold String.ltb. by destruct (String.compare a b). Qed.

Lemma ltb_trans (a b c : string) :
  String.ltb a b = true -> String.ltb b c = true -> String.ltb a c = true.
Proof. rewrite !ltb_lt. apply compare_lt_trans. Qed.

Lemma ltb_irrefl (a : string) : String.ltb a a = false.
Proof. unfold String.ltb. by rewrite string_compare_refl. Qed.

Lemma compare_gt_lt (a b : string) : String.compare a b = Gt -> String.compare b a = Lt.
Proof. rewrite (String.compare_antisym b a). by intros ->. Qed.

Lemma ascii_compare_refl (c : ascii) : Ascii.compare c c = Eq.
Proof. unfold Ascii.compare. apply N.compare_refl. Qed.

(** A key is not below any of its prefixes. *)
Lemma prefix_not_below (p k : string) :
  String.prefix p k = true -> String.ltb k p = false.
Proof.
  revert k. induction p as [|a p IH]; intros [|b k]; simpl; try done.
  destruct (ascii_dec a b) as [->|]; [|done].
  intros Hp. specialize (IH k Hp). unfold String.ltb in *. simpl.
  by rewrite ascii_compare_refl.
Qed.

Lemma prefix_append (p k : string) :
  String.prefix p k = true -> exists x, k = p ++ x.
Proof.
  revert k. induction p as [|a p IH]; intros [|b k]; simpl; try done.
  - intros _. by exists "".
  - intros _. by exists (String b k).
  - destruct (ascii_dec a b) as [->|]; [|done].
    intros Hp. destruct (IH k Hp) as [x ->]. by exists x.
Qed.

Lemma prefix_of_append (p x : string) : String.prefix p (p ++ x) = true.
Proof.
  induction p as [|a p IH]; [by destruct x|].
  change (String a p ++ x) with (String a (p ++ x)). simpl.
  by destruct (ascii_dec a a).
Qed.

(** Among the keys of the package, those not below the user prefix are the
    keys of users. *)
Lemma packageKey_above (k : string) :
  packageKey k = true ->
  negb (String.ltb k (userPrefix initKeys)) = String.prefix (userPrefix initKeys) k.
Proof.
  unfold packageKey.
  destruct (String.prefix (userPrefix initKeys) k) eqn:Hp.
  - intros _. by rewrite (prefix_not_below _ _ Hp).
  - rewrite orb_false_r. intros H.
    repeat (apply orb_prop in H as [H|H]); apply String.eqb_eq in H; by subst k.
Qed.

Lemma kv_set_elem (k v : string) (l : KV) (x : string * string) :
  In x (kv_set k v l) -> x = (k, v) \/ In x l.
Proof.
  induction l as [|[k' v'] r IH]; simpl.
  - intros [<-|[]]. by left.
  - destruct (String.compare k k'); simpl; intuition.
Qed.

Lemma kv_delete_elem (k : string) (l : KV) (x : string * string) :
  In x (kv_delete k l) -> In x l.
Proof.
  induction l as [|[k' v'] r IH]; simpl; [done|].
  destruct (String.eqb k k'); simpl; intuition.
Qed.

(** Set and Delete keep the keys in order. *)
Lemma ordered_kv_set (k v : string) (l : KV) : ordered l -> ordered (kv_set k v l).
Proof.
  induction l as [|[k' v'] r IH]; simpl; [done|].
  intros [Hhead Hrest].
  destruct (String.compare k k') eqn:Hc; simpl.
  - apply String.compare_eq_iff in Hc. by subst k'.
  - split; [|done]. constructor; [by apply ltb_lt|].
    eapply Forall_impl; [exact Hhead|]. simpl. intros kv Hkv.
    eapply ltb_trans; [|exact Hkv]. by apply ltb_lt.
  - split; [|by apply IH].
    apply List.Forall_forall. intros x Hx. apply kv_set_elem in Hx as [->|Hx].
    + simpl. by apply ltb_lt, compare_gt_lt.
    + rewrite List.Forall_forall in Hhead. by apply Hhead.
Qed.

Lemma ordered_kv_delete (k : string) (l : KV) : ordered l -> ordered (kv_delete k l).
Proof.
  induction l as [|[k' v'] r IH]; simpl; [done|].
  intros [Hhead Hrest].
  destruct (String.eqb k k'); simpl; [by apply IH|].
  split; [|by apply IH].
  apply List.Forall_forall. intros x Hx. apply kv_delete_elem in Hx.
  rewrite List.Forall_forall in Hhead. by apply Hhead.
Qed.

Lemma ordered_apply_entries (es : list Entry) (l : KV) :
  ordered l -> ordered (apply_entries es l).
Proof.
  revert l. induction es as [|e es IH]; intros l Hl; simpl; [done|].
  apply IH. unfold apply_entry. destruct (eValue e).
  - by apply ordered_kv_set.
  - by apply ordered_kv_delete.
Qed.

Lemma ordered_filter (f : string * string -> bool) (l : KV) :
  ordered l -> ordered (List.filter f l).
Proof.
  induction l as [|[k v] r IH]; simpl; [done|].
  intros [Hhead Hrest].
  destruct (f (k, v)); [|by apply IH].
  split; [|by apply IH].
  apply List.Forall_forall. intros x Hx. apply filter_In in Hx as [Hx _].
  rewrite List.Forall_forall in Hhead. by apply Hhead.
Qed.

(** What holds of the pairs and of the values written holds of the pairs
    afterwards. *)
Lemma Forall_apply_entries (Q : string * string -> Prop) (es : list Entry) (l : KV) :
  Forall Q l ->
  Forall (fun e => forall v, eValue e = Some v -> Q (eKey e, v)) es ->
  Forall Q (apply_entries es l).
Proof.
  revert l. induction es as [|e es IH]; intros l Hl Hes; simpl; [done|].
  inversion Hes as [|? ? He Hrest]; subst.
  apply IH; [|done]. unfold apply_entry.
  destruct (eValue e) as [v|] eqn:Hv.
  - apply List.Forall_forall. intros x Hx. apply kv_set_elem in Hx as [->|Hx].
    + by apply He.
    + rewrite List.Forall_forall in Hl. by apply Hl.
  - apply List.Forall_forall. intros x Hx. apply kv_delete_elem in Hx.
    rewrite List.Forall_forall in Hl. by apply Hl.
Qed.

Lemma ordered_get (k v : string) (l : KV) :
  ordered l -> (kv_get k l = Some v <-> In (k, v) l).
Proof.
  induction l as [|[k' v'] r IH]; simpl; [intros _; split; [done|tauto]|].
  intros [Hhead Hrest].
  destruct (String.eqb_spec k k') as [->|Hne].
  - split.
    + intros [= ->]. by left.
    + intros [[= ->]|Hin]; [done|].
      rewrite List.Forall_forall in Hhead. specialize (Hhead _ Hin). simpl in Hhead.
      by rewrite ltb_irrefl in Hhead.
  - rewrite (IH Hrest). split; [tauto|]. intros [[= -> ->]|Hin]; done.
Qed.

(** On ordered pairs Seek gives the pairs whose key is not below the prefix. *)
Lemma seek_ordered (prefix : string) (l : KV) :
  ordered l ->
  seek prefix l = List.filter (fun kv => negb (String.ltb (fst kv) prefix)) l.
Proof.
  induction l as [|[k v] r IH]; simpl; [done|].
  intros [Hhead Hrest].
  destruct (String.ltb k prefix) eqn:Hk; simpl; [by apply IH|].
  f_equal. symmetry. apply forallb_filter_id. apply forallb_forall.
  intros x Hx. rewrite List.Forall_forall in Hhead. specialize (Hhead _ Hx).
  destruct (String.ltb (fst x) prefix) eqn:Hx'; [|done].
  by rewrite (ltb_trans _ _ _ Hhead Hx') in Hk.
Qed.

Lemma seek_package (l : KV) :
  ordered l ->
  Forall (fun kv => packageKey (fst kv) = true) l ->
  seek (userPrefix initKeys) l =
  List.filter (fun kv => String.prefix (userPrefix initKeys) (fst kv)) l.
Proof.
  intros Hord Hpkg. rewrite seek_ordered by done.
  apply filter_ext_in. intros kv Hkv.
  rewrite List.Forall_forall in Hpkg. by apply packageKey_above, Hpkg.
Qed.

(** ** Sequences of calls on an open store *)

Section Runs.
Context {engine : Engine} {json : JSON} {pins : PlexPin} {cipher : Cipher}.

Lemma snd_then_ret {A : Type} (m : M A) (s : Store) (w : World) :
  snd ((m ;;; ret s) w) = snd (m w) /\ fst ((m ;;; ret s) w) = s.
Proof. unfold bind, ret. by destruct (m w). Qed.

Lemma one_write (e : Entry) (w : World) (l : list Entry) :
  In e l ->
  exists es, Forall (fun e => In e l) es /\
    disk (snd (db_Update (txn_write e) w)) = apply_entries es (disk w).
Proof.
  intros Hin. rewrite db_Update_write. simpl.
  case_bool_decide.
  - exists [e]. split; [by constructor|done].
  - by exists [].
Qed.

(** What a call commits is among its writes, and it leaves the keys of the
    handle as they are. *)
Lemma step_writes (op : Op) (s : Store) (w : World) :
  storeCall op = true ->
  (exists es, Forall (fun e => In e (writes op s)) es /\
     disk (snd (step op s w)) = apply_entries es (disk w)) /\
  keys (fst (step op s w)) = keys s.
Proof.
  intros Hop.
  destruct op; try done; cbn [step]; try (rewrite !(proj2 (snd_then_ret _ s w)));
    (split; [|done]); rewrite ?(proj1 (snd_then_ret _ s w)).
  - (* s.Secret = secret *) by exists [].
  - (* GetSecret *)
    exists []. split; [done|]. unfold GetSecret. unfold_M. simpl.
    by destruct (kv_get _ (disk w)).
  - (* SaveSecret *) unfold SaveSecret, txn_Set. apply one_write. by left.
  - (* GetPlexToken *)
    exists []. split; [done|]. unfold GetPlexToken. unfold_M. simpl.
    destruct (kv_get _ (disk w)); simpl; [|done].
    destruct (decrypt _ _) as [p [e|]]; simpl; by destruct (isVerbose w).
  - (* SavePlexToken *)
    unfold SavePlexToken.
    destruct (encrypt (Secret s) token) as [hash [e|]] eqn:Henc; [by exists []|].
    unfold_M. simpl.
    exists (match rejectWrite [] (mkEntry (plexToken (keys s)) (Some hash)) with
            | Some _ => []
            | None =>
                match rejectCommit [mkEntry (plexToken (keys s)) (Some hash)] with
                | Some _ => []
                | None => [mkEntry (plexToken (keys s)) (Some hash)]
                end
            end).
    destruct (isVerbose w) eqn:Hv; simpl;
      destruct (rejectWrite [] _) as [e|]; simpl; try done;
      destruct (rejectCommit _) as [e|]; simpl; rewrite ?Hv; simpl; try done.
    all: split; [|done]; constructor; [left; by rewrite Henc|done].
  - (* GetPlexPin *)
    exists []. split; [done|]. unfold GetPlexPin. unfold_M. simpl.
    destruct (kv_get _ (disk w)); simpl; [|done].
    match goal with |- context [let (_, _) := ?x in _] => by destruct x as [? [?|]] end.
  - (* SavePlexPin *)
    unfold SavePlexPin. destruct (marshalPin pin) as [b [e|]] eqn:Hm; [by exists []|].
    unfold txn_Set. apply one_write. left. by rewrite Hm.
  - (* ClearPlexPin *) unfold ClearPlexPin, txn_Delete. apply one_write. by left.
  - (* GetPlexServer *)
    exists []. split; [done|]. unfold GetPlexServer. unfold_M. simpl.
    destruct (kv_get _ (disk w)); simpl; [|done].
    match goal with |- context [let (_, _) := ?x in _] => by destruct x as [? [?|]] end.
  - (* SavePlexServer *)
    unfold SavePlexServer.
    destruct (Server_Serialize srv) as [b [e|]] eqn:Hm; [by exists []|].
    unfold txn_Set. apply one_write. left. by rewrite Hm.
  - (* SaveUser *)
    rewrite SaveUser_spec.
    destruct (User_Serialize user) as [b [e|]] eqn:Hm; [by exists []|].
    apply one_write. left. unfold save_entry. by rewrite Hm.
  - (* SaveUsers *)
    rewrite SaveUsers_disk. destruct (fst (SaveUsers s users w)); [by exists []|].
    exists (map (save_entry s) users). split; [|done].
    by apply List.Forall_forall.
  - (* GetUser *)
    exists []. split; [done|]. unfold GetUser. unfold_M. simpl.
    destruct (kv_get _ (disk w)); simpl; [|done].
    match goal with |- context [let (_, _) := ?x in _] => by destruct x as [? [?|]] end.
  - (* GetAllUsers *)
    exists []. split; [done|]. unfold GetAllUsers. unfold_M. simpl.
    match goal with |- context [GetAllUsers_loop ?it ?m ?w1] =>
      destruct (GetAllUsers_loop_world it m w1) as (H1 & _);
      destruct (GetAllUsers_loop it m w1) as [r w2] end.
    done.
  - (* DeleteUser *)
    unfold DeleteUser. destruct (String.eqb id ""); [by exists []|]. cbv zeta.
    unfold txn_Delete. apply one_write. by left.
  - (* DeleteUsers *)
    rewrite DeleteUsers_disk. destruct (fst (DeleteUsers s userIDs w)); [by exists []|].
    eexists. split; [|done].
    apply List.Forall_forall. intros e He. apply in_map_iff in He as (i & <- & Hi).
    apply in_map. by apply succeeded_in in Hi.
Qed.

(** A property of the committed pairs that every call keeps is kept by a
    sequence of calls. *)
Lemma run_keeps (I : KV -> Prop) (P : Op -> Prop) :
  (forall op s w, keys s = initKeys -> storeCall op = true -> P op ->
     I (disk w) -> I (disk (snd (step op s w)))) ->
  forall ops s w, keys s = initKeys ->
    Forall (fun op => storeCall op = true /\ P op) ops ->
    I (disk w) -> I (disk (snd (run ops s w))).
Proof.
  intros Hstep ops. induction ops as [|op rest IH]; intros s w Hk Hops HI; simpl; [done|].
  inversion Hops as [|? ? [Hop HP] Hrest]; subst.
  unfold bind.
  pose proof (Hstep op s w Hk Hop HP HI) as HI'.
  destruct (step_writes op s w Hop) as (_ & Hk').
  destruct (step op s w) as [s' w1]. simpl in *.
  apply IH; [congruence|done|done].
Qed.

Lemma writes_packageKey (op : Op) (s : Store) (e : Entry) :
  keys s = initKeys -> In e (writes op s) -> packageKey (eKey e) = true.
Proof.
  intros Hk.
  assert (Huser : forall id, packageKey (userKey s id) = true).
  { intros id. unfold userKey, packageKey. rewrite Hk.
    rewrite prefix_of_append. by rewrite !orb_true_r. }
  destruct op; simpl; try done.
  all: try (intros [<-|[]]; simpl; first [apply Huser | by rewrite Hk]).
  - intros He. apply in_map_iff in He as (u & <- & _). apply Huser.
  - intros He. apply in_map_iff in He as (u & <- & _). apply Huser.
Qed.

(** X21. On a store opened by InitDataStore, whose keys are in order and
    are keys of the package, every sequence of calls other than
    InitDataStore and Close leaves the keys in order and keys of the
    package: one of the four singleton keys, or a key that begins with the
    user prefix.  In particular no call writes the key [users]. *)
Theorem store_keys_stay_in_namespace (ops : list Op) (s : Store) (w : World) :
  keys s = initKeys ->
  db s = dbEngine ->
  Forall (fun op => storeCall op = true) ops ->
  ordered (disk w) ->
  Forall (fun kv => packageKey (fst kv) = true) (disk w) ->
  let w' := snd (run ops s w) in
  ordered (disk w') /\
  Forall (fun kv => packageKey (fst kv) = true) (disk w') /\
  kv_get (allUsers (keys s)) (disk w') = None.
Proof.
  intros Hk _ Hops Hord Hpkg w'.
  assert (Hops' : Forall (fun op => storeCall op = true /\ True) ops).
  { eapply Forall_impl; [exact Hops|]. done. }
  assert (H1 : ordered (disk w')).
  { apply (run_keeps ordered (fun _ => True)); try done.
    intros op s0 w0 _ Hop _ Hord0.
    destruct (step_writes op s0 w0 Hop) as ((es & _ & ->) & _).
    by apply ordered_apply_entries. }
  assert (H2 : Forall (fun kv => packageKey (fst kv) = true) (disk w')).
  { apply (run_keeps (Forall (fun kv => packageKey (fst kv) = true)) (fun _ => True));
      try done.
    intros op s0 w0 Hk0 Hop _ Hpkg0.
    destruct (step_writes op s0 w0 Hop) as ((es & Hes & ->) & _).
    apply Forall_apply_entries; [done|].
    eapply Forall_impl; [exact Hes|]. simpl. intros e He v _.
    by apply (writes_packageKey op s0). }
  split; [done|]. split; [done|].
  destruct (kv_get (allUsers (keys s)) (disk w')) as [v|] eqn:Hget; [|done].
  apply kv_get_In in Hget. rewrite List.Forall_forall in H2.
  specialize (H2 _ Hget). rewrite Hk in H2. done.
Qed.

(** X22. On a store opened by InitDataStore, whose keys are in order and
    are keys of the package, the pairs that GetAllUsers scans are exactly
    the pairs whose key begins with the user prefix; when it returns no
    error, the keys it has printed are those keys. *)
Theorem GetAllUsers_scans_the_users (s : Store) (w : World) :
  keys s = initKeys ->
  db s = dbEngine ->
  ordered (disk w) ->
  Forall (fun kv => packageKey (fst kv) = true) (disk w) ->
  let users := List.filter (fun kv => String.prefix "user-" (fst kv)) (disk w) in
  seek (userPrefix (keys s)) (disk w) = users /\
  (snd (fst (GetAllUsers s w)) = None ->
   stdout (snd (GetAllUsers s w)) = (stdout w ++ map fst users)%list).
Proof.
  intros Hk _ Hord Hpkg users.
  assert (Hseek : seek (userPrefix (keys s)) (disk w) = users).
  { rewrite Hk. by apply seek_package. }
  split; [done|]. intros Hok.
  by rewrite (GetAllUsers_visits_to_the_end s w Hok), Hseek.
Qed.

End Runs.

Section Agreement.
Context {engine : Engine} {pins : PlexPin} {cipher : Cipher}.
#[local] Existing Instance goJSON.

Lemma writes_holdsUser (op : Op) (s : Store) (e : Entry) (v : string) :
  keys s = initKeys ->
  Forall (fun u => utf8.ValidString (PlexUserID u) = true) (savedUsers op) ->
  In e (writes op s) -> eValue e = Some v -> holdsUser (eKey e, v).
Proof.
  intros Hk Hvalid.
  assert (Huser : forall u, utf8.ValidString (PlexUserID u) = true ->
            holdsUser (eKey (save_entry s u), gojson.marshalUser u)).
  { intros u Hu id. simpl. unfold userKey. rewrite Hk. simpl.
    intros Hid. apply String.app_inj in Hid. subst id.
    exists (replaceInvalidUser u). split.
    - apply replace_facts.unmarshalUser_marshalUser_any.
    - simpl. by apply replace_facts.replaceInvalid_valid. }
  destruct op; simpl; try done.
  all: try (intros [<-|[]]; simpl; rewrite ?Hk; simpl; intros [= <-] id;
            simpl; cbv [append]; discriminate).
  all: try (intros [<-|[]]; simpl; done).
  - intros [<-|[]]. simpl. intros [= <-]. apply Huser.
    by inversion Hvalid.
  - intros He. apply in_map_iff in He as (u & <- & Hu). simpl. intros [= <-].
    apply Huser. simpl in Hvalid. rewrite List.Forall_forall in Hvalid. by apply Hvalid.
  - intros He. apply in_map_iff in He as (u & <- & Hu). done.
Qed.

Lemma collected_lookup (items : KV) (acc : gmap string User) (id : string) (u : User) :
  ordered items ->
  Forall (fun kv => String.prefix (userPrefix initKeys) (fst kv) = true /\ holdsUser kv)
         items ->
  foldl collect acc items !! id = Some u <->
  (exists v, In (userPrefix initKeys ++ id, v) items /\ fst (gojson.unmarshalUser v) = u) \/
  ((forall v, ~ In (userPrefix initKeys ++ id, v) items) /\ acc !! id = Some u).
Proof.
  revert acc. induction items as [|[k v] rest IH]; intros acc Hord Hall; simpl.
  - split.
    + intros H. right. split; [intros v []|exact H].
    + intros [(v & [] & _)|[_ H]]. exact H.
  - destruct Hord as [Hhead Hrest].
    inversion Hall as [|? ? [Hpre Hholds] Hall']; subst. simpl in Hpre.
    destruct (prefix_append _ _ Hpre) as [id0 ->].
    destruct (Hholds id0 eq_refl) as (u0 & Hdec & Hid0). simpl in Hdec.
    rewrite (IH _ Hrest Hall'). unfold collect at 1, UnserializeUser. simpl.
    rewrite Hdec. simpl. rewrite Hid0.
    assert (Hfresh : forall v', ~ In (userPrefix initKeys ++ id0, v') rest).
    { intros v' Hin. rewrite List.Forall_forall in Hhead. specialize (Hhead _ Hin).
      simpl in Hhead. by rewrite ltb_irrefl in Hhead. }
    destruct (decide (id = id0)) as [->|Hne].
    + rewrite lookup_insert_eq. split.
      * intros [(v' & Hin & _)|[_ [= <-]]]; [by destruct (Hfresh v')|].
        left. exists v. split; [by left|]. by rewrite Hdec.
      * intros [(v' & [[= <-]|Hin] & Hu)|[Hnone _]].
        -- right. split; [done|]. rewrite Hdec in Hu. simpl in Hu. by subst.
        -- by destruct (Hfresh v').
        -- destruct (Hnone v). by left.
    + rewrite lookup_insert_ne by done.
      assert (Hk : forall v', (userPrefix initKeys ++ id0, v) <> (userPrefix initKeys ++ id, v')).
      { intros v' [= Heq _]. apply String.app_inj in Heq. by subst. }
      split.
      * intros [(v' & Hin & Hu)|[Hnone Hacc]].
        -- left. exists v'. split; [by right|done].
        -- right. split; [|done]. intros v' [Heq|Hin]; [by apply (Hk v')|by apply (Hnone v')].
      * intros [(v' & [Heq|Hin] & Hu)|[Hnone Hacc]].
        -- by destruct (Hk v').
        -- left. by exists v'.
        -- right. split; [|done]. intros v' Hin. apply (Hnone v'). by right.
Qed.

(** X23. GetAllUsers agrees with GetUser on a store that the package has
    filled.  Starting from an empty store opened by InitDataStore, after
    any sequence of calls other than InitDataStore and Close in which the
    ids of the users saved are valid UTF-8, GetAllUsers returns no error,
    and the users it returns are exactly those that GetUser finds: it has
    the user u under id exactly when GetUser on id returns u. *)
Theorem GetAllUsers_agrees_with_GetUser (ops : list Op) (s : Store) (w : World) :
  keys s = initKeys ->
  db s = dbEngine ->
  disk w = [] ->
  Forall (fun op => storeCall op = true /\
                    Forall (fun u => utf8.ValidString (PlexUserID u) = true) (savedUsers op))
         ops ->
  let w' := snd (run ops s w) in
  exists users : gmap string User,
    fst (GetAllUsers s w') = (users, None) /\
    forall (id : string) (u : User),
      users !! id = Some u <-> fst (GetUser s id w') = (u, None).
Proof.
  intros Hk _ Hempty Hops w'.
  set (J := fun l : KV =>
              ordered l /\
              Forall (fun kv => packageKey (fst kv) = true /\ holdsUser kv) l).
  assert (HJ : J (disk w')).
  { apply (run_keeps J (fun op => Forall (fun u => utf8.ValidString (PlexUserID u) = true)
                                         (savedUsers op))); try done.
    - intros op s0 w0 Hk0 Hop Hvalid [Hord Hall].
      destruct (step_writes op s0 w0 Hop) as ((es & Hes & ->) & _).
      split; [by apply ordered_apply_entries|].
      apply Forall_apply_entries; [done|].
      eapply Forall_impl; [exact Hes|]. simpl. intros e He v Hv. split.
      + by apply (writes_packageKey op s0).
      + by apply (writes_holdsUser op s0).
    - rewrite Hempty. by split. }
  destruct HJ as [Hord Hall].
  assert (Hpkg : Forall (fun kv => packageKey (fst kv) = true) (disk w')).
  { eapply Forall_impl; [exact Hall|]. by intros kv [? _]. }
  set (items := List.filter (fun kv => String.prefix (userPrefix initKeys) (fst kv)) (disk w')).
  assert (Hseek : seek (userPrefix (keys s)) (disk w') = items).
  { rewrite Hk. by apply seek_package. }
  assert (Hitems : Forall (fun kv => String.prefix (userPrefix initKeys) (fst kv) = true /\
                                     holdsUser kv) items).
  { apply List.Forall_forall. intros kv Hkv. apply filter_In in Hkv as [Hin Hpre].
    split; [done|]. rewrite List.Forall_forall in Hall. by apply Hall. }
  assert (Hitems_ord : ordered items) by (by apply ordered_filter).
  exists (collected items). split.
  - rewrite <- Hseek. apply GetAllUsers_all_decode. rewrite Hseek.
    eapply Forall_impl; [exact Hitems|]. intros [k v] [Hpre Hholds].
    destruct (prefix_append _ _ Hpre) as [x Hx]. simpl in Hx.
    destruct (Hholds x Hx) as (u & Hdec & _).
    unfold decodes, UnserializeUser. simpl in *. by rewrite Hdec.
  - intros id u. unfold collected.
    rewrite (collected_lookup items ∅ id u Hitems_ord Hitems).
    assert (Hkey : userKey s id = userPrefix initKeys ++ id) by (unfold userKey; by rewrite Hk).
    split.
    + intros [(v & Hin & Hu)|[_ H]]; [|done].
      apply filter_In in Hin as [Hin _].
      apply (ordered_get _ _ _ Hord) in Hin.
      rewrite (GetUser_reads s id v) by (by rewrite Hkey).
      rewrite List.Forall_forall in Hall.
      destruct (Hall _ (kv_get_In _ _ _ Hin)) as [_ Hholds].
      destruct (Hholds id eq_refl) as (u1 & Hdec & _). simpl in Hdec.
      unfold UnserializeUser. simpl. rewrite Hdec in *. simpl in Hu. by subst.
    + intros Hget.
      destruct (kv_get (userKey s id) (disk w')) as [v|] eqn:Hv.
      * rewrite (GetUser_reads s id v w' Hv) in Hget.
        left. exists v. split.
        -- apply filter_In. split.
           ++ apply kv_get_In. by rewrite <- Hkey.
           ++ simpl. apply prefix_of_append.
        -- unfold UnserializeUser in Hget. simpl in Hget.
           destruct (gojson.unmarshalUser v) as [u1 [e|]]; simpl in *; by simplify_eq.
      * by rewrite (GetUser_missing s id w' Hv) in Hget.
Qed.

End Agreement.

(** X21 on a session that saves a secret, a server and users and deletes
    one of them. *)
Lemma store_keys_stay_in_namespace_witness :
  let ops : list (Op (pins := textPin)) :=
    [CallSaveSecret "s3cret"; CallSaveUser userA;
     CallSavePlexServer (mkServer "nas" "http://nas:32400");
     CallSaveUsers [userB; user1]; CallGetAllUsers; CallDeleteUsers ["A"]] in
  let w' := snd (run (engine := plainEngine) (json := goJSON) (cipher := toyCipher)
                     ops openStore (startWorld ∅ [])) in
  keys openStore = initKeys /\ db openStore = dbEngine /\
  map fst (disk w') = ["app-secret"; "plex-server"; "user-1"; "user-B"] /\
  kv_get "users" (disk w') = None.
Proof.
  intros ops w'.
  assert (Hops : Forall (fun op => storeCall op = true) ops) by (repeat constructor).
  assert (Hpkg : Forall (fun kv : string * string => packageKey (fst kv) = true) [])
    by constructor.
  destruct (store_keys_stay_in_namespace (engine := plainEngine) (json := goJSON)
              (cipher := toyCipher) ops openStore (startWorld ∅ []) eq_refl eq_refl Hops I
              Hpkg) as (_ & _ & Hnone).
  split; [reflexivity|]. split; [reflexivity|]. split; [reflexivity|exact Hnone].
Defined.

(** X22 on a store that holds a secret, the server and two users. *)
Lemma GetAllUsers_scans_the_users_witness :
  let d := [("app-secret", "s3cret");
            ("plex-server", gojson.marshalServer (mkServer "nas" "http://nas:32400"));
            ("user-1", gojson.marshalUser user1); ("user-A", gojson.marshalUser userA)] in
  let w := startWorld ∅ d in
  keys openStore = initKeys /\ db openStore = dbEngine /\ ordered d /\
  Forall (fun kv => packageKey (fst kv) = true) d /\
  map fst (seek (userPrefix (keys openStore)) d) = ["user-1"; "user-A"] /\
  stdout (snd (GetAllUsers (json := goJSON) openStore w)) = ["user-1"; "user-A"].
Proof.
  intros d w.
  assert (Hord : ordered d) by (simpl; repeat split; repeat constructor).
  assert (Hpkg : Forall (fun kv => packageKey (fst kv) = true) d) by (repeat constructor).
  destruct (GetAllUsers_scans_the_users (json := goJSON) openStore w eq_refl eq_refl Hord Hpkg)
    as [Hseek Hout].
  split; [reflexivity|]. split; [reflexivity|]. split; [exact Hord|]. split; [exact Hpkg|].
  split.
  - exact (f_equal (map fst) Hseek).
  - exact (Hout eq_refl).
Defined.

(** X23 on a session that saves users and deletes one of them. *)
Lemma GetAllUsers_agrees_with_GetUser_witness :
  let ops : list (Op (pins := textPin)) :=
    [CallSaveUser userA; CallSaveSecret "s3cret"; CallSaveUsers [userB; user1];
     CallDeleteUser "B"] in
  let w' := snd (run (engine := plainEngine) (json := goJSON) (cipher := toyCipher)
                     ops openStore (startWorld ∅ [])) in
  keys openStore = initKeys /\ db openStore = dbEngine /\
  exists users : gmap string User,
    fst (GetAllUsers (json := goJSON) openStore w') = (users, None) /\
    users !! "A" = Some userA /\ users !! "B" = None.
Proof.
  intros ops w'.
  assert (Hops : Forall (fun op => storeCall op = true /\
                          Forall (fun u => utf8.ValidString (PlexUserID u) = true)
                                 (savedUsers op)) ops).
  { repeat constructor. }
  destruct (GetAllUsers_agrees_with_GetUser (engine := plainEngine) (cipher := toyCipher)
              ops openStore (startWorld ∅ []) eq_refl eq_refl eq_refl Hops)
    as (users & Hall & Hsame).
  split; [reflexivity|]. split; [reflexivity|].
  exists users. split; [exact Hall|]. split.
  - apply Hsame. reflexivity.
  - destruct (users !! "B") as [u|] eqn:HB; [|reflexivity].
    apply Hsame in HB. vm_compute in HB. discriminate HB.
Defined.

Section InvalidIds.
Context {engine : Engine}.
#[local] Existing Instance goJSON.

(** X24. An id that is not valid UTF-8.  On an empty store, after a
    SaveUser that succeeded for a user whose id changes when its invalid
    bytes are replaced, GetUser on the id returns the user with the
    replaced id, GetAllUsers lists the user under the replaced id, and
    GetUser on the replaced id returns ErrKeyNotFound. *)
Theorem invalid_id_is_listed_under_another_id (s : Store) (u : User) (w : World) :
  db s = dbEngine ->
  keys s = initKeys ->
  disk w = [] ->
  replaceInvalid (PlexUserID u) <> PlexUserID u ->
  fst (SaveUser s u w) = None ->
  let w' := snd (SaveUser s u w) in
  fst (GetUser s (PlexUserID u) w') = (replaceInvalidUser u, None) /\
  fst (GetAllUsers s w') =
    ({[replaceInvalid (PlexUserID u) := replaceInvalidUser u]}, None) /\
  fst (GetUser s (replaceInvalid (PlexUserID u)) w') = (zeroUser, Some ErrKeyNotFound).
Proof.
  intros _ Hk Hempty Hid Hsave w'.
  destruct (SaveUser_saved s u w Hsave) as [_ Hdisk].
  rewrite Hempty in Hdisk. simpl in Hdisk. fold w' in Hdisk.
  assert (Hdec : UnserializeUser (gojson.marshalUser u) = (replaceInvalidUser u, None))
    by apply replace_facts.unmarshalUser_marshalUser_any.
  split; [|split].
  - rewrite (GetUser_reads s _ (gojson.marshalUser u)).
    + by rewrite Hdec.
    + rewrite Hdisk. simpl. by rewrite String.eqb_refl.
  - assert (Hseek : seek (userPrefix (keys s)) (disk w') = disk w').
    { rewrite Hdisk. simpl. unfold userKey.
      by rewrite (prefix_not_below _ _ (prefix_of_append _ _)). }
    rewrite GetAllUsers_all_decode; rewrite Hseek, Hdisk.
    + unfold collected, collect, UnserializeUser in *. simpl in *. by rewrite Hdec.
    + constructor; [|constructor].
      change (snd (UnserializeUser (gojson.marshalUser u)) = None). by rewrite Hdec.
  - apply GetUser_missing. rewrite Hdisk. simpl.
    destruct (String.eqb_spec (userKey s (replaceInvalid (PlexUserID u)))
                (userKey s (PlexUserID u))) as [Heq|]; [|done].
    by apply userKey_inj in Heq.
Qed.

End InvalidIds.

(** X24 on a user whose id is the single byte 0xFF. *)
Lemma invalid_id_is_listed_under_another_id_witness :
  let u := mkUser (String (char 255) EmptyString) "x" zeroAssignedMedia
                  false false false false in
  let w' := snd (SaveUser (engine := plainEngine) (json := goJSON) openStore u
                   (startWorld ∅ [])) in
  db openStore = dbEngine /\ keys openStore = initKeys /\
  replaceInvalid (PlexUserID u) <> PlexUserID u /\
  fst (GetAllUsers (json := goJSON) openStore w') =
    ({[replaceInvalid (PlexUserID u) := replaceInvalidUser u]}, None) /\
  fst (GetUser (json := goJSON) openStore (replaceInvalid (PlexUserID u)) w') =
    (zeroUser, Some ErrKeyNotFound).
Proof.
  intros u w'.
  assert (Hid : replaceInvalid (PlexUserID u) <> PlexUserID u) by (vm_compute; discriminate).
  destruct (invalid_id_is_listed_under_another_id (engine := plainEngine) openStore u
              (startWorld ∅ []) eq_refl eq_refl eq_refl Hid eq_refl) as (_ & Hall & Hget).
  split; [reflexivity|]. split; [reflexivity|]. split; [exact Hid|].
  split; [exact Hall|exact Hget].
Defined.

(** ** The store of package main and the datastore package *)

Section TwoVersions.
Context {engine : Engine} {cipher : Cipher}.


(** X26. initDataStore of package main returns the error that
    InitDataStore returns and, on success, the handle that stands for the
    open handle of the datastore package, with the three keys app-secret,
    plex-token and plex-server; it creates the directory in the same
    cases.  It never assigns the verbose flag; while the flag is false the
    two functions leave the same state. *)
Theorem main_initDataStore_agrees (dirName : string) (v : bool) (w : World) :
  let r := main.initDataStore dirName w in
  let r' := InitDataStore dirName v w in
  snd (fst r) = snd (fst r') /\
  (snd (fst r) = None -> toStore (fst (fst r)) = fst (fst r')) /\
  (snd (fst r) <> None -> fst (fst r) = main.zeroStore) /\
  dirs (snd r) = dirs (snd r') /\
  disk (snd r) = disk (snd r') /\
  isVerbose (snd r) = isVerbose w /\
  (isVerbose w = false -> snd r = snd r').
Proof.
  cbv zeta. unfold main.initDataStore, InitDataStore. unfold_M. simpl.
  destruct (isVerbose w) eqn:Hv; destruct v; simpl; rewrite ?Hv; simpl.
  all: destruct (bool_decide (dirName ∉ dirs w)); simpl; rewrite ?Hv; simpl.
  all: try (destruct (mkdirError dirName); simpl; rewrite ?Hv; simpl).
  all: destruct (openError dirName); simpl; rewrite ?Hv; simpl.
  all: repeat split; try done; congruence.
Qed.

End TwoVersions.


(** X26 on a directory that does not exist, in a process that has just
    started. *)
Lemma main_initDataStore_agrees_witness :
  let w := startWorld ∅ [] in
  let r := main.initDataStore (engine := plainEngine) "data" w in
  let r' := InitDataStore (engine := plainEngine) "data" true w in
  snd (fst r) = None /\ isVerbose w = false /\
  toStore (fst (fst r)) = openStore /\ snd r = snd r'.
Proof.
  intros w r r'.
  destruct (main_initDataStore_agrees (engine := plainEngine) "data" true w)
    as (_ & Hhandle & _ & _ & _ & _ & Hworld).
  split; [reflexivity|]. split; [reflexivity|]. split.
  - exact (Hhandle eq_refl).
  - exact (Hworld eq_refl).
Defined.

(** ** What Serialize writes *)

Section WireFormat.
Import json json_facts replace_facts.
#[local] Existing Instance goJSON.

(** X27. What Serialize writes is a JSON text that holds one object.  For
    a user its members are, in this order, plexUserID, plexUsername,
    assignedMedia (an object of its own, with the members id, title and
    status), stoppingPlayback, playbackIsStopped, revokeAccess and
    isFriend; for a server they are name and url.  The strings are those
    of the value, invalid bytes replaced, and the booleans those of the
    value. *)
Theorem serialized_members (u : User) (v : Server) :
  parse (fst (User_Serialize u)) =
    Some (JObject
            [("plexUserID", JString (replaceInvalid (PlexUserID u)));
             ("plexUsername", JString (replaceInvalid (Name u)));
             ("assignedMedia",
              JObject [("id", JString (replaceInvalid (ID (Media u))));
                       ("title", JString (replaceInvalid (Title (Media u))));
                       ("status", JString (replaceInvalid (Status (Media u))))]);
             ("stoppingPlayback", JBool (StoppingPlayback u));
             ("playbackIsStopped", JBool (IsPlaybackStopped u));
             ("revokeAccess", JBool (RevokeAccess u));
             ("isFriend", JBool (IsFriend u))]) /\
  parse (fst (Server_Serialize v)) =
    Some (JObject [("name", JString (replaceInvalid (Server_Name v)));
                   ("url", JString (replaceInvalid (Server_URL v)))]).
Proof.
  unfold User_Serialize, Server_Serialize. simpl. split.
  - exact (parse_whole _ 9 _ (length_marshalUser u)
             (fun f => parseValue_marshalUser_any f u EmptyString)).
  - exact (parse_whole _ 4 _ (length_marshalServer v)
             (fun f => parseValue_marshalServer_any f v EmptyString)).
Qed.

End WireFormat.
